(** * photo-st-denis: cache-coordinated archive generation

    A shallow embedding of the backend services that resolve photo
    directories, assemble ZIP archives and manage the on-disk ZIP cache:

    - [PhotosConfigService]   (path sanitising, image filter),
    - [FileProcessingService] (directory walk, archive entry naming),
    - [SimpleCacheService]    (cache key, lookup, generation, eviction),
    - [TransferController.download].

    Strings.  A JavaScript string is modelled by its sequence of UTF-16
    code units, restricted to code units below 256, i.e. by a Rocq
    [string]; comparisons, [toLowerCase] and the UTF-8 encoding fed to the
    digest are written for that range.

    Numbers.  Sizes and times are integers far below 2^53, so the
    JavaScript doubles holding them are exact and modelled by [Z]. *)

From Stdlib Require Import ZArith NArith Lia List Ascii String Permutation Sorted.
From stdpp Require Import base option list strings gmap.

Open Scope string_scope.

(** String concatenation computes under [simpl], as in the Standard Library. *)
#[global] Arguments String.append !s1 s2 : simpl nomatch.

(** ** Node's [path] module (POSIX flavour)

    The services run on Linux, so [path] is [path.posix].  The functions
    below follow Node's implementation at the level of path segments. *)

Module Path.

Definition isPathSeparator (c : ascii) : bool := Ascii.eqb c "/".

(** [s.split('/')]. *)
Fixpoint segments (s : string) : list string :=
  match s with
  | "" => [""]
  | String c r =>
      if isPathSeparator c then "" :: segments r
      else match segments r with
           | h :: t => String c h :: t
           | [] => [String c ""]
           end
  end.

Fixpoint joinWith (sep : string) (l : list string) : string :=
  match l with
  | [] => ""
  | [x] => x
  | x :: r => x ++ sep ++ joinWith sep r
  end.

Definition startsWithSlash (s : string) : bool :=
  match s with
  | String c _ => isPathSeparator c
  | "" => false
  end.

Fixpoint endsWithSlash (s : string) : bool :=
  match s with
  | "" => false
  | String c "" => isPathSeparator c
  | String _ r => endsWithSlash r
  end.

(** One iteration of [normalizeString] at a separator: [res] is the stack
    of segments kept so far, [seg] the segment just read. *)
Definition normalizeStep (allowAboveRoot : bool) (res : list string) (seg : string)
  : list string :=
  if String.eqb seg "" || String.eqb seg "." then res
  else if String.eqb seg ".." then
    match List.rev res with
    | lastSeg :: before =>
        if String.eqb lastSeg ".." then
          (if allowAboveRoot then res ++ [".."] else res)
        else List.rev before
    | [] => if allowAboveRoot then res ++ [".."] else res
    end
  else res ++ [seg].

Definition normalizeString (path : string) (allowAboveRoot : bool) : string :=
  joinWith "/" (fold_left (normalizeStep allowAboveRoot) (segments path) []).

Definition normalize (path : string) : string :=
  if String.eqb path "" then "."
  else
    let isAbsolute := startsWithSlash path in
    let trailingSeparator := endsWithSlash path in
    let p := normalizeString path (negb isAbsolute) in
    if String.eqb p "" then
      (if isAbsolute then "/" else if trailingSeparator then "./" else ".")
    else
      let p := if trailingSeparator then p ++ "/" else p in
      if isAbsolute then "/" ++ p else p.

Definition join (args : list string) : string :=
  match List.filter (fun a => negb (String.eqb a "")) args with
  | [] => "."
  | parts => normalize (joinWith "/" parts)
  end.

(** [path.basename(p)]: the last non-empty segment, trailing separators
    ignored. *)
Definition basename (path : string) : string :=
  match List.rev (List.filter (fun s => negb (String.eqb s "")) (segments path)) with
  | b :: _ => b
  | [] => ""
  end.

(** Position of the last ["."] of [s], counted from the left. *)
Fixpoint lastDot (s : string) : option nat :=
  match s with
  | "" => None
  | String c r =>
      match lastDot r with
      | Some i => Some (S i)
      | None => if Ascii.eqb c "." then Some 0 else None
      end
  end.

Fixpoint dropChars (n : nat) (s : string) : string :=
  match n, s with
  | O, _ => s
  | S n', String _ r => dropChars n' r
  | S _, "" => ""
  end.

(** [path.extname(p)]: from the last dot of the basename to its end; empty
    when there is no dot, when the dot is the first character of the
    basename, or when the basename is [".."]. *)
Definition extname (path : string) : string :=
  let b := basename path in
  match lastDot b with
  | None => ""
  | Some O => ""
  | Some i => if String.eqb b ".." then "" else dropChars i b
  end.

End Path.

(** ** PhotosConfigService *)

Module PhotosConfig.

Definition supportedImageExtensions : list string :=
  [".jpg"; ".jpeg"; ".png"; ".tiff"; ".tif"; ".webp"; ".bmp"].

Definition isSep (c : ascii) : bool := Ascii.eqb c "/" || Ascii.eqb c "\".

(** [s.replace(/^(\.\.[/\\])+/, '')]. *)
Fixpoint stripLeadingDotDot (s : string) : string :=
  match s with
  | String "." (String "." (String c r)) =>
      if isSep c then stripLeadingDotDot r else s
  | _ => s
  end.

(** [s.replace(/^[/\\]+/, '')]. *)
Fixpoint stripLeadingSeparators (s : string) : string :=
  match s with
  | String c r => if isSep c then stripLeadingSeparators r else s
  | "" => ""
  end.

Definition sanitizePath (relativePath : string) : string :=
  let sanitized := stripLeadingDotDot (Path.normalize relativePath) in
  stripLeadingSeparators sanitized.

Section WithBasePath.

(** [configService.get('PHOTOS_BASE_PATH', '/mnt/psd')]. *)
Variable photosBasePath : string.

Definition getFullPhotoPath (relativePath : string) : string :=
  let sanitizedPath := sanitizePath relativePath in
  Path.join [photosBasePath; sanitizedPath].

End WithBasePath.

Definition defaultPhotosBasePath : string := "/mnt/psd".

(** Code unit of [String.prototype.toLowerCase] on the modelled range:
    A-Z and the Latin-1 capitals (except the multiplication sign). *)
Definition lowerChar (c : ascii) : ascii :=
  let n := nat_of_ascii c in
  if ((65 <=? n) && (n <=? 90))%nat then ascii_of_nat (n + 32)
  else if ((192 <=? n) && (n <=? 222) && negb (n =? 215))%nat then ascii_of_nat (n + 32)
  else c.

Fixpoint toLowerCase (s : string) : string :=
  match s with
  | "" => ""
  | String c r => String (lowerChar c) (toLowerCase r)
  end.

Definition isValidImageFile (filename : string) : bool :=
  let ext := toLowerCase (Path.extname filename) in
  existsb (String.eqb ext) supportedImageExtensions.

End PhotosConfig.

(** ** FileProcessingService

    The photo tree is read-only input.  A node of it is a file or a
    directory with its entry names; an unreadable directory fails
    [fs.promises.access(p, R_OK)].  The archiver is modelled by the queue
    of [zipArchiver.file(path, {name})] calls it has received. *)

Module FileProcessing.

Inductive node : Type :=
| NFile
| NDir (readable : bool) (entries : list string).

Record zipEntry : Type := { sourcePath : string; entryName : string }.

Inductive logEvent : Type :=
| DirectoryNotFound (fullPath : string)
| DirectoryAdded (dirPath : string) (addedCount : nat)
| DirectoryError (dirPath : string).

Record assembly : Type := { queued : list zipEntry; logged : list logEvent }.

Definition emptyAssembly : assembly := {| queued := []; logged := [] |}.

Definition archiverFile (e : zipEntry) (a : assembly) : assembly :=
  {| queued := queued a ++ [e]; logged := logged a |}.

Definition logEventOf (ev : logEvent) (a : assembly) : assembly :=
  {| queued := queued a; logged := logged a ++ [ev] |}.

Section WithPhotoTree.

Variable photosBasePath : string.
Variable tree : gmap string node.

Definition checkDirectoryExists (fullPath : string) : bool :=
  match tree !! fullPath with
  | Some (NDir true _) => true
  | _ => false
  end.

(** [fs.promises.readdir]; [None] stands for a rejected promise. *)
Definition readdir (fullPath : string) : option (list string) :=
  match tree !! fullPath with
  | Some (NDir true entries) => Some entries
  | _ => None
  end.

Definition getImageFiles (fullPath : string) : option (list string) :=
  files ← readdir fullPath;
  Some (List.filter PhotosConfig.isValidImageFile files).

Definition zipEntryPath (relativeDirPath fileName : string) : string :=
  let lastDirName := Path.basename relativeDirPath in
  Path.join [lastDirName; fileName].

Definition addSingleFileToArchive
    (fileName basePath relativeDirPath : string) (a : assembly) : bool * assembly :=
  let filePath := Path.join [basePath; fileName] in
  let zipEntryPath := zipEntryPath relativeDirPath fileName in
  (true, archiverFile {| sourcePath := filePath; entryName := zipEntryPath |} a).

Fixpoint addFilesToArchive
    (imageFiles : list string) (fullPath relativeDirPath : string) (a : assembly)
  : nat * assembly :=
  match imageFiles with
  | [] => (0, a)
  | file :: rest =>
      let '(ok, a1) := addSingleFileToArchive file fullPath relativeDirPath a in
      let '(n, a2) := addFilesToArchive rest fullPath relativeDirPath a1 in
      ((if ok then S n else n), a2)
  end.

Definition processDirectory (dirPath : string) (a : assembly) : assembly :=
  let fullPath := PhotosConfig.getFullPhotoPath photosBasePath dirPath in
  if negb (checkDirectoryExists fullPath) then
    logEventOf (DirectoryNotFound fullPath) a
  else
    match getImageFiles fullPath with
    | Some imageFiles =>
        let '(addedCount, a1) := addFilesToArchive imageFiles fullPath dirPath a in
        logEventOf (DirectoryAdded dirPath addedCount) a1
    | None => logEventOf (DirectoryError dirPath) a
    end.

(** [Promise.all(directoryPaths.map(processDirectory))].  The model runs
    the directories in list order; statements about the archive are
    made on membership, which no completion order changes. *)
Definition processDirectories (directoryPaths : list string) (a : assembly) : assembly :=
  fold_left (fun acc d => processDirectory d acc) directoryPaths a.

(** [processDirectoriesAsync]: only [zipArchiver.finalize()], i.e. the
    sink, can make it reject. *)
Definition processDirectoriesAsync (sinkFails : bool) (directoryPaths : list string)
  : option assembly :=
  let a := processDirectories directoryPaths emptyAssembly in
  if sinkFails then None else Some a.

End WithPhotoTree.

End FileProcessing.

(** ** FileProcessingService of [apps/backend]

    This variant of the service hands each directory to
    [zipArchiver.directory] with the basename of the directory identifier
    as destination path and the image filter as entry callback.  The
    archiver is modelled by the queue of [directory(dirpath, destpath,
    data)] calls it has received; [checkDirectoryExists] catches its own
    errors and nothing else in [processDirectory] throws, so its [catch]
    block is not entered. *)

Module AppFileProcessing.

Record directoryCall : Type :=
  { dirpath : string; destpath : string; entryFilter : string -> bool }.

Inductive logEvent : Type :=
| DirectoryNotFound (fullPath : string)
| ProcessingDirectory (dirPath lastDirName : string).

Record assembly : Type := { directories : list directoryCall; logged : list logEvent }.

Definition emptyAssembly : assembly := {| directories := []; logged := [] |}.

Definition archiverDirectory (c : directoryCall) (a : assembly) : assembly :=
  {| directories := directories a ++ [c]; logged := logged a |}.

Definition logEventOf (ev : logEvent) (a : assembly) : assembly :=
  {| directories := directories a; logged := logged a ++ [ev] |}.

Section WithPhotoTree.

Variable photosBasePath : string.
Variable tree : gmap string FileProcessing.node.

Definition processDirectory (dirPath : string) (a : assembly) : assembly :=
  let fullPath := PhotosConfig.getFullPhotoPath photosBasePath dirPath in
  if negb (FileProcessing.checkDirectoryExists tree fullPath) then
    logEventOf (DirectoryNotFound fullPath) a
  else
    let lastDirName := Path.basename dirPath in
    let a1 := archiverDirectory
                {| dirpath := fullPath; destpath := lastDirName;
                   entryFilter := fun name => PhotosConfig.isValidImageFile name |} a in
    logEventOf (ProcessingDirectory dirPath lastDirName) a1.

Definition processDirectories (directoryPaths : list string) (a : assembly) : assembly :=
  fold_left (fun acc d => processDirectory d acc) directoryPaths a.

End WithPhotoTree.

End AppFileProcessing.

(** ** SHA-256 (FIPS 180-4), as computed by [crypto.createHash('sha256')] *)

Module Sha256.

Local Open Scope N_scope.

Definition mask32 : N := 0xffffffff.
Definition add32 (a b : N) : N := N.land (a + b) mask32.
Definition rotr (n x : N) : N :=
  N.lor (N.shiftr x n) (N.land (N.shiftl x (32 - n)) mask32).
Definition not32 (x : N) : N := N.lxor x mask32.

Definition Ch (x y z : N) : N := N.lxor (N.land x y) (N.land (not32 x) z).
Definition Maj (x y z : N) : N :=
  N.lxor (N.lxor (N.land x y) (N.land x z)) (N.land y z).
Definition bigSigma0 (x : N) : N := N.lxor (N.lxor (rotr 2 x) (rotr 13 x)) (rotr 22 x).
Definition bigSigma1 (x : N) : N := N.lxor (N.lxor (rotr 6 x) (rotr 11 x)) (rotr 25 x).
Definition smallSigma0 (x : N) : N := N.lxor (N.lxor (rotr 7 x) (rotr 18 x)) (N.shiftr x 3).
Definition smallSigma1 (x : N) : N := N.lxor (N.lxor (rotr 17 x) (rotr 19 x)) (N.shiftr x 10).

(** The constants are the first 32 bits of the fractional parts of the
    cube roots ([K]) and square roots ([H0]) of the first primes; they are
    computed as the integer roots of the primes scaled by powers of two. *)
Definition isPrime (n : N) : bool :=
  (1 <? n) && forallb (fun d => negb (n mod N.of_nat d =? 0)) (seq 2 (N.to_nat n - 2)).

Definition firstPrimes (count : nat) : list N :=
  firstn count (List.filter isPrime (List.map N.of_nat (seq 0 320))).

(** The largest [r] below [2^bits] with [r^k <= n], bit by bit. *)
Fixpoint integerRoot (k : N) (bits : nat) (n r : N) : N :=
  match bits with
  | O => r
  | S b =>
      let c := N.lor r (N.shiftl 1 (N.of_nat b)) in
      if c ^ k <=? n then integerRoot k b n c else integerRoot k b n r
  end.

Definition fractionalRootBits (k p : N) : N :=
  N.land (integerRoot k 36 (N.shiftl p (32 * k)) 0) mask32.

Definition K : list N :=
  Eval vm_compute in List.map (fractionalRootBits 3) (firstPrimes 64).

Definition H0 : list N :=
  Eval vm_compute in List.map (fractionalRootBits 2) (firstPrimes 8).

(** Big-endian bytes of [x], [n] of them. *)
Fixpoint bytesBE (n : nat) (x : N) : list N :=
  match n with
  | O => []
  | S n' => N.land (N.shiftr x (8 * N.of_nat n')) 0xff :: bytesBE n' x
  end.

Definition wordBE (bs : list N) : N :=
  fold_left (fun acc b => N.lor (N.shiftl acc 8) b) bs 0.

(** Message followed by the bit 1, zero bytes and the 64-bit bit length. *)
Definition pad (msg : list N) : list N :=
  let len := N.of_nat (length msg) in
  let zeros := (64 - ((len + 9) mod 64)) mod 64 in
  msg ++ [0x80] ++ repeat 0 (N.to_nat zeros) ++ bytesBE 8 (8 * len).

Fixpoint chunks (fuel size : nat) (l : list N) : list (list N) :=
  match fuel, l with
  | O, _ => []
  | _, [] => []
  | S fuel', _ => firstn size l :: chunks fuel' size (skipn size l)
  end.

(** The message schedule, most recent word first. *)
Fixpoint schedule (rounds : nat) (recent : list N) : list N :=
  match rounds with
  | O => recent
  | S r =>
      let w := add32 (add32 (smallSigma1 (nth 1 recent 0)) (nth 6 recent 0))
                     (add32 (smallSigma0 (nth 14 recent 0)) (nth 15 recent 0)) in
      schedule r (w :: recent)
  end.

Record regs : Type := { ra : N; rb : N; rc : N; rd : N; re : N; rf : N; rg : N; rh : N }.

Definition round (s : regs) (kw : N * N) : regs :=
  let t1 := add32 (add32 (add32 (rh s) (bigSigma1 (re s)))
                         (add32 (Ch (re s) (rf s) (rg s)) (fst kw))) (snd kw) in
  let t2 := add32 (bigSigma0 (ra s)) (Maj (ra s) (rb s) (rc s)) in
  {| ra := add32 t1 t2; rb := ra s; rc := rb s; rd := rc s;
     re := add32 (rd s) t1; rf := re s; rg := rf s; rh := rg s |}.

Definition regsOf (h : list N) : regs :=
  {| ra := nth 0 h 0; rb := nth 1 h 0; rc := nth 2 h 0; rd := nth 3 h 0;
     re := nth 4 h 0; rf := nth 5 h 0; rg := nth 6 h 0; rh := nth 7 h 0 |}.

Definition regsList (s : regs) : list N :=
  [ra s; rb s; rc s; rd s; re s; rf s; rg s; rh s].

Definition compress (h : list N) (block : list N) : list N :=
  let w0 := List.map wordBE (chunks 16 4 block) in
  let w := List.rev (schedule 48 (List.rev w0)) in
  let s := fold_left round (combine K w) (regsOf h) in
  List.map (fun p => add32 (fst p) (snd p)) (combine h (regsList s)).

Definition digest (msg : list N) : list N :=
  let padded := pad msg in
  let h := fold_left compress (chunks (length padded) 64 padded) H0 in
  flat_map (bytesBE 4) h.

Definition hexDigit (n : N) : ascii :=
  if n <? 10 then ascii_of_N (48 + n) else ascii_of_N (87 + n).

Fixpoint hex (bs : list N) : string :=
  match bs with
  | [] => ""
  | b :: r => String (hexDigit (N.shiftr b 4)) (String (hexDigit (N.land b 0xf)) (hex r))
  end.

(** UTF-8 encoding of a string of code units below 256. *)
Fixpoint utf8 (s : string) : list N :=
  match s with
  | "" => []
  | String c r =>
      let n := N_of_ascii c in
      if n <? 128 then n :: utf8 r
      else N.lor 0xc0 (N.shiftr n 6) :: N.lor 0x80 (N.land n 0x3f) :: utf8 r
  end.

(** [createHash('sha256').update(s).digest('hex')]. *)
Definition sha256Hex (s : string) : string := hex (digest (utf8 s)).

End Sha256.

(** ** SimpleCacheService: the cache key *)

Module CacheKey.

(** Insertion of [x] before the first element that is not smaller. *)
Fixpoint insertSorted (x : string) (l : list string) : list string :=
  match l with
  | [] => [x]
  | y :: r => if String.leb x y then x :: y :: r else y :: insertSorted x r
  end.

(** [[...a].sort()]: ascending by code units.  The order is total, so every
    sorting algorithm returns this list. *)
Definition sortStrings (l : list string) : list string :=
  fold_right insertSorted [] l.

Fixpoint substring0 (n : nat) (s : string) : string :=
  match n, s with
  | S n', String c r => String c (substring0 n' r)
  | _, _ => ""
  end.

Definition generateCacheKey (directoryPaths : list string) : string :=
  let sorted := sortStrings directoryPaths in
  let combined := Path.joinWith "|" sorted in
  substring0 16 (Sha256.sha256Hex combined).

End CacheKey.

(** ** The file store

    Files are kept by full path, in directory-listing order.  The contents
    of a file are abstracted to the sequence of chunks written to it, each
    with a label and a byte length; [stat.size] is the sum of the lengths.
    [stat], [unlink] and [rename] fail exactly on an absent path. *)

Module Fs.

Record chunk : Type := { label : string; bytes : Z }.

Record file : Type := { content : list chunk; mtime : Z }.

Definition size (f : file) : Z := fold_right Z.add 0%Z (List.map bytes (content f)).

Definition t : Type := list (string * file).

Definition hasPath (p : string) (e : string * file) : bool := String.eqb (fst e) p.

Definition exists_ (d : t) (p : string) : bool := existsb (hasPath p) d.

Definition stat (d : t) (p : string) : option file :=
  match List.find (hasPath p) d with
  | Some e => Some (snd e)
  | None => None
  end.

Definition remove (p : string) (d : t) : t :=
  List.filter (fun e => negb (hasPath p e)) d.

Definition unlink (d : t) (p : string) : option t :=
  if exists_ d p then Some (remove p d) else None.

Definition rename (d : t) (oldPath newPath : string) : option t :=
  match stat d oldPath with
  | Some f =>
      if String.eqb oldPath newPath then Some d
      else Some (remove oldPath (remove newPath d) ++ [(newPath, f)])%list
  | None => None
  end.

(** [fs.createWriteStream(p)]: create the file, or truncate it in place. *)
Fixpoint openWrite (d : t) (p : string) (now : Z) : t :=
  match d with
  | [] => [(p, {| content := []; mtime := now |})]
  | e :: r =>
      if hasPath p e then (p, {| content := []; mtime := now |}) :: r
      else e :: openWrite r p now
  end.

(** One chunk flushed by a write stream opened on [p]. *)
Fixpoint appendChunk (d : t) (p : string) (c : chunk) (now : Z) : t :=
  match d with
  | [] => []
  | e :: r =>
      if hasPath p e
      then (p, {| content := (content (snd e) ++ [c])%list; mtime := now |}) :: r
      else e :: appendChunk r p c now
  end.

Fixpoint stripPrefix (pre s : string) : option string :=
  match pre, s with
  | "", _ => Some s
  | String a pre', String b s' => if Ascii.eqb a b then stripPrefix pre' s' else None
  | String _ _, "" => None
  end.

Fixpoint hasSlash (s : string) : bool :=
  match s with
  | "" => false
  | String c r => Path.isPathSeparator c || hasSlash r
  end.

(** A directory entry name: non-empty, one segment, neither [.] nor [..]. *)
Definition properName (n : string) : bool :=
  negb (String.eqb n "") && negb (String.eqb n ".") && negb (String.eqb n "..")
  && negb (hasSlash n).

Definition childName (dir p : string) : option string :=
  match stripPrefix (dir ++ "/") p with
  | Some n => if properName n then Some n else None
  | None => None
  end.

(** [fs.promises.readdir(dir)]: the names of the files directly in [dir]. *)
Definition readdir (d : t) (dir : string) : list string :=
  omap (fun e => childName dir (fst e)) d.

End Fs.

(** ** SimpleCacheService: configuration, statistics and eviction *)

Module SimpleCache.

Import CacheKey.

Definition cacheDirectory : string := "/tmp/photo-cache".
Definition maxCacheSizeMB : Z := 5000.
Definition maxRecentOrders : nat := 20.
Definition maxCacheAgeHours : Z := 24.

Record CacheFileInfo : Type :=
  { name : string; path : string; size : Z; mtime : Z }.

(** Sizes in MB are numbers with two decimals; they are kept in hundredths
    of a MB. *)
Record CacheFlushResult : Type := { deletedFiles : nat; totalSizeMB : Z }.

Record CacheStats : Type :=
  { fileCount : nat;
    statsTotalSizeMB : Z;
    maxSizeMB : Z;
    oldestFileAgeHours : option Z }.

(** [Math.round((bytes / 1024 / 1024) * 100) / 100], in hundredths of a MB.
    [Math.round] rounds half up; the double computation agrees with this
    exact one for every size below 2^48 bytes. *)
Definition bytesToMB (bytes : Z) : Z := ((200 * bytes + 1048576) / 2097152)%Z.

(** [mb <= this.maxCacheSizeMB] for [mb] in hundredths. *)
Definition withinLimit (mbHundredths : Z) : bool :=
  (mbHundredths <=? 100 * maxCacheSizeMB)%Z.

Fixpoint endsWith (s suffix : string) : bool :=
  String.eqb s suffix ||
  match s with
  | "" => false
  | String _ r => endsWith r suffix
  end.

Definition getZipPath (directoryPaths : list string) : string :=
  let cacheKey := generateCacheKey directoryPaths in
  Path.join [cacheDirectory; cacheKey ++ ".zip"].

Definition getZipFiles (d : Fs.t) : list string :=
  List.filter (fun file => endsWith file ".zip") (Fs.readdir d cacheDirectory).

Definition getCacheFileInfos (d : Fs.t) : list CacheFileInfo :=
  omap (fun file =>
          let filePath := Path.join [cacheDirectory; file] in
          match Fs.stat d filePath with
          | Some stats =>
              Some {| name := file; path := filePath;
                      size := Fs.size stats; mtime := Fs.mtime stats |}
          | None => None
          end)
       (getZipFiles d).

(** [fileInfos.sort((a, b) => a.mtime - b.mtime)]; the sort is stable. *)
Fixpoint insertByMtime (x : CacheFileInfo) (l : list CacheFileInfo) : list CacheFileInfo :=
  match l with
  | [] => [x]
  | y :: r => if (mtime x <=? mtime y)%Z then x :: y :: r else y :: insertByMtime x r
  end.

Definition sortByMtime (l : list CacheFileInfo) : list CacheFileInfo :=
  fold_right insertByMtime [] l.

Definition sumSizes (l : list CacheFileInfo) : Z :=
  fold_left (fun sum file => (sum + size file)%Z) l 0%Z.

(** The loop of [enforceMaxCacheSize]; the result carries the files
    unlinked, in the order of the [unlink] calls. *)
Fixpoint enforceLoop (fileInfos : list CacheFileInfo) (d : Fs.t) (remainingSize : Z)
  : list CacheFileInfo * Fs.t :=
  match fileInfos with
  | [] => ([], d)
  | fileInfo :: rest =>
      match Fs.unlink d (path fileInfo) with
      | Some d1 =>
          let remainingSize := (remainingSize - size fileInfo)%Z in
          if withinLimit (bytesToMB remainingSize) then ([fileInfo], d1)
          else
            let '(deleted, d2) := enforceLoop rest d1 remainingSize in
            (fileInfo :: deleted, d2)
      | None => enforceLoop rest d remainingSize
      end
  end.

Definition enforceMaxCacheSize (d : Fs.t) : list CacheFileInfo * Fs.t :=
  let fileInfos := getCacheFileInfos d in
  let totalSize := sumSizes fileInfos in
  let totalSizeMB := bytesToMB totalSize in
  if withinLimit totalSizeMB then ([], d)
  else enforceLoop (sortByMtime fileInfos) d totalSize.

(** Loop state of the two flush operations. *)
Record flushState : Type := { flTotalSize : Z; flDeleted : nat; flFs : Fs.t }.

Definition flushOlderStep (cutoffTime : Z) (st : flushState) (file : string) : flushState :=
  let filePath := Path.join [cacheDirectory; file] in
  match Fs.stat (flFs st) filePath with
  | Some stats =>
      if (Fs.mtime stats <? cutoffTime)%Z then
        let totalSize := (flTotalSize st + Fs.size stats)%Z in
        match Fs.unlink (flFs st) filePath with
        | Some d1 => {| flTotalSize := totalSize; flDeleted := S (flDeleted st); flFs := d1 |}
        | None => {| flTotalSize := totalSize; flDeleted := flDeleted st; flFs := flFs st |}
        end
      else st
  | None => st
  end.

Definition flushCacheOlderThan (now ageInMs : Z) (d : Fs.t) : CacheFlushResult * Fs.t :=
  let cutoffTime := (now - ageInMs)%Z in
  let zipFiles := getZipFiles d in
  let st := fold_left (flushOlderStep cutoffTime) zipFiles
                      {| flTotalSize := 0; flDeleted := 0; flFs := d |} in
  ({| deletedFiles := flDeleted st; totalSizeMB := bytesToMB (flTotalSize st) |}, flFs st).

Definition flushAllStep (st : flushState) (file : string) : flushState :=
  let filePath := Path.join [cacheDirectory; file] in
  match Fs.stat (flFs st) filePath with
  | Some stats =>
      let totalSize := (flTotalSize st + Fs.size stats)%Z in
      match Fs.unlink (flFs st) filePath with
      | Some d1 => {| flTotalSize := totalSize; flDeleted := S (flDeleted st); flFs := d1 |}
      | None => {| flTotalSize := totalSize; flDeleted := flDeleted st; flFs := flFs st |}
      end
  | None => st
  end.

(** The file part of [flushAllCache]; the statistics keys it clears
    afterwards live in the memory cache. *)
Definition flushAllCache (d : Fs.t) : CacheFlushResult * Fs.t :=
  let zipFiles := getZipFiles d in
  let st := fold_left flushAllStep zipFiles
                      {| flTotalSize := 0; flDeleted := 0; flFs := d |} in
  ({| deletedFiles := flDeleted st; totalSizeMB := bytesToMB (flTotalSize st) |}, flFs st).

Definition statsStep (d : Fs.t) (acc : Z * Z) (file : string) : Z * Z :=
  let filePath := Path.join [cacheDirectory; file] in
  match Fs.stat d filePath with
  | Some stats =>
      ((fst acc + Fs.size stats)%Z,
       if (Fs.mtime stats <? snd acc)%Z then Fs.mtime stats else snd acc)
  | None => acc
  end.

(** The file part of [getCacheStats].  [usagePercentage] and [hitRate] are
    floating-point roundings of fields kept here and are left out; the
    age of the oldest file is [None] for the text "No files". *)
Definition getCacheStats (now : Z) (d : Fs.t) : CacheStats :=
  let zipFiles := getZipFiles d in
  let '(totalSize, oldestTime) := fold_left (statsStep d) zipFiles (0%Z, now) in
  {| fileCount := length zipFiles;
     statsTotalSizeMB := bytesToMB totalSize;
     maxSizeMB := maxCacheSizeMB;
     oldestFileAgeHours :=
       match zipFiles with
       | [] => None
       | _ => Some ((2 * (now - oldestTime) + 3600000) / 7200000)%Z
       end |}.

(** [performDailyMaintenance]: the age sweep, then the size check. *)
Definition performDailyMaintenance (now : Z) (d : Fs.t) : CacheFlushResult * Fs.t :=
  let maxAgeMs := (maxCacheAgeHours * 60 * 60 * 1000)%Z in
  let '(ageResult, d1) := flushCacheOlderThan now maxAgeMs d in
  let '(_, d2) := enforceMaxCacheSize d1 in
  (ageResult, d2).

End SimpleCache.

(** ** Asynchronous code

    An [async] method is a tree of awaited operations: each node is one
    awaited call on the memory cache ([cacheManager]) or on the file
    store, and its continuation receives the outcome.  A node is executed
    atomically; other requests may run between two nodes.  The memory
    cache holds paths under cache keys and counters under the
    [cache:stats:*] keys; any of its calls may reject. *)

Module Async.

Inductive outcome (A : Type) : Type :=
| Ok (a : A)
| Thrown.
Arguments Ok {A} a.
Arguments Thrown {A}.

(** The awaited calls, indexed by what they resolve to.  [fileExists]
    catches its own rejection and so always yields a boolean. *)
Inductive op : Type -> Type :=
| CacheGet (key : string) : op (outcome (option string))
| CacheSet (key : string) (v : string) : op (outcome unit)
| CacheDel (key : string) : op (outcome unit)
| StatGet (key : string) : op (outcome (option Z))
| StatSet (key : string) (n : Z) : op (outcome unit)
| FileExists (p : string) : op bool
| OpenWrite (p : string) : op unit
| WriteChunk (p : string) (c : Fs.chunk) : op (outcome unit)
| Rename (oldPath newPath : string) : op (outcome unit)
| StartAssembly (directoryPaths : list string) : op unit.

Inductive prog (R : Type) : Type :=
| Ret (r : R)
| Do {A : Type} (o : op A) (k : A -> prog R).
Arguments Ret {R} r.
Arguments Do {R A} o k.

Fixpoint bind {A B : Type} (m : prog A) (f : A -> prog B) : prog B :=
  match m with
  | Ret a => f a
  | Do o k => Do o (fun r => bind (k r) f)
  end.

Definition await {A : Type} (o : op A) : prog A := Do o Ret.

(** [await m] inside a [try] block: a rejection skips the rest. *)
Definition bindOk {A B : Type} (m : prog (outcome A)) (f : A -> prog (outcome B))
  : prog (outcome B) :=
  bind m (fun o => match o with Ok a => f a | Thrown => Ret Thrown end).

(** [try { body } catch { handler }]. *)
Definition tryCatch {A : Type} (body : prog (outcome A)) (handler : prog A) : prog A :=
  bind body (fun o => match o with Ok a => Ret a | Thrown => handler end).

Record world : Type :=
  { files : Fs.t;
    cachedPaths : gmap string string;
    counters : gmap string Z;
    assemblies : list (list string) }.

(** What the environment decides when a call runs: the time, and whether
    a memory-cache call or a stream write fails. *)
Record event : Type := { evNow : Z; cacheFails : bool; streamFails : bool }.

Definition calm : event :=
  {| evNow := 0; cacheFails := false; streamFails := false |}.

Definition setFiles (w : world) (d : Fs.t) : world :=
  {| files := d; cachedPaths := cachedPaths w; counters := counters w;
     assemblies := assemblies w |}.
Definition setCachedPaths (w : world) (m : gmap string string) : world :=
  {| files := files w; cachedPaths := m; counters := counters w;
     assemblies := assemblies w |}.
Definition setCounters (w : world) (m : gmap string Z) : world :=
  {| files := files w; cachedPaths := cachedPaths w; counters := m;
     assemblies := assemblies w |}.
Definition addAssembly (w : world) (ds : list string) : world :=
  {| files := files w; cachedPaths := cachedPaths w; counters := counters w;
     assemblies := (assemblies w ++ [ds])%list |}.

(** One awaited call executed in world [w] under event [e]. *)
Definition perform {A : Type} (e : event) (w : world) (o : op A) : world * A :=
  match o in op T return world * T with
  | CacheGet key =>
      if cacheFails e then (w, Thrown) else (w, Ok (cachedPaths w !! key))
  | CacheSet key v =>
      if cacheFails e then (w, Thrown)
      else (setCachedPaths w (<[key := v]> (cachedPaths w)), Ok tt)
  | CacheDel key =>
      if cacheFails e then (w, Thrown)
      else (setCachedPaths w (delete key (cachedPaths w)), Ok tt)
  | StatGet key =>
      if cacheFails e then (w, Thrown) else (w, Ok (counters w !! key))
  | StatSet key n =>
      if cacheFails e then (w, Thrown)
      else (setCounters w (<[key := n]> (counters w)), Ok tt)
  | FileExists p => (w, Fs.exists_ (files w) p)
  | OpenWrite p => (setFiles w (Fs.openWrite (files w) p (evNow e)), tt)
  | WriteChunk p c =>
      if streamFails e then (w, Thrown)
      else (setFiles w (Fs.appendChunk (files w) p c (evNow e)), Ok tt)
  | Rename a b =>
      match Fs.rename (files w) a b with
      | Some d => (setFiles w d, Ok tt)
      | None => (w, Thrown)
      end
  | StartAssembly ds => (addAssembly w ds, tt)
  end.

(** One scheduling step of [p]: its next call runs, the rest waits. *)
Definition step {R : Type} (e : event) (w : world) (p : prog R) : world * prog R :=
  match p with
  | Ret r => (w, Ret r)
  | Do o k => let '(w1, a) := perform e w o in (w1, k a)
  end.

(** [p] run to completion without interruption; [env i] is the event of
    its [i]-th call. *)
Fixpoint run {R : Type} (p : prog R) (env : nat -> event) (w : world) : R * world :=
  match p with
  | Ret r => (r, w)
  | Do o k =>
      let '(w1, a) := perform (env 0%nat) w o in
      run (k a) (fun i => env (S i)) w1
  end.

End Async.

(** ** SimpleCacheService: lookup and generation; the download handler *)

Module Service.

Import Async CacheKey SimpleCache.

(** [let*] awaits outside a [try] block, [try*] inside one. *)
Notation "'let*' x ':=' m 'in' f" := (bind m (fun x => f))
  (at level 10, x name, m at level 100, f at level 200, only parsing).
Notation "'try*' x ':=' m 'in' f" := (bindOk m (fun x => f))
  (at level 10, x name, m at level 100, f at level 200, only parsing).

(** A JavaScript string used as a condition: the empty one is falsy. *)
Definition truthy (v : option string) : option string :=
  match v with
  | Some s => if String.eqb s "" then None else Some s
  | None => None
  end.

(** [(await get(key)) || 0]. *)
Definition orZero (v : option Z) : Z :=
  match v with
  | Some n => n
  | None => 0%Z
  end.

Definition incrementStat (statType : string) : prog unit :=
  tryCatch
    (let key := "cache:stats:" ++ statType in
     try* current := await (StatGet key) in
     try* _ := await (StatSet key (orZero current + 1)%Z) in
     Ret (Ok tt))
    (Ret tt).

Definition getCachedZip (directoryPaths : list string) : prog (option string) :=
  let cacheKey := generateCacheKey directoryPaths in
  let zipPath := getZipPath directoryPaths in
  tryCatch
    (try* cached := await (CacheGet cacheKey) in
     (* [Some p]: the memory branch has returned [p] *)
     try* returned :=
       match truthy cached with
       | Some cachedPath =>
           let* stillThere := await (FileExists cachedPath) in
           if stillThere then
             let* _ := incrementStat "hits" in
             Ret (Ok (Some cachedPath))
           else
             try* _ := await (CacheDel cacheKey) in
             Ret (Ok None)
       | None => Ret (Ok None)
       end in
     match returned with
     | Some cachedPath => Ret (Ok (Some cachedPath))
     | None =>
         let* onDisk := await (FileExists zipPath) in
         if onDisk then
           try* _ := await (CacheSet cacheKey zipPath) in
           let* _ := incrementStat "hits" in
           Ret (Ok (Some zipPath))
         else
           let* _ := incrementStat "misses" in
           Ret (Ok None)
     end)
    (let* onDisk := await (FileExists zipPath) in
     if onDisk then Ret (Some zipPath) else Ret None).

(** What [TransferController.download] answers for an order whose token
    has been validated.  Nothing after the validation throws (the lookup
    catches its own errors, the assembly runs detached with its own
    [catch]), so the handler's [catch] block, which answers with
    [InternalServerError], is not entered from here. *)
Inductive response : Type :=
| ServeCached (cachedZipPath : string)
| ServeRealTime (directoryPaths : list string)
| InternalServerError.

Definition download (directoryPaths : list string) : prog response :=
  let* cachedZipPath := getCachedZip directoryPaths in
  match truthy cachedZipPath with
  | Some p => Ret (ServeCached p)
  | None =>
      let* _ := await (StartAssembly directoryPaths) in
      Ret (ServeRealTime directoryPaths)
  end.

(** What the archiver delivers to the write stream: the chunks of a
    finalized archive, or the chunks emitted before the pass-through was
    destroyed ([processDirectoriesAsync] rejected). *)
Inductive archiverRun : Type :=
| Finalized (stream : list Fs.chunk)
| Destroyed (partial : list Fs.chunk).

(** The ['finish'] handler of the write stream. *)
Definition onFinish (directoryPaths : list string) (tempPath outputPath : string)
  : prog (outcome unit) :=
  try* _ := await (Rename tempPath outputPath) in
  let cacheKey := generateCacheKey directoryPaths in
  try* _ := await (CacheSet cacheKey outputPath) in
  Ret (Ok tt).

(** The chunks piped into the write stream, then [rest]; a stream error
    rejects. *)
Fixpoint pipeChunks (tempPath : string) (cs : list Fs.chunk) (rest : prog (outcome unit))
  : prog (outcome unit) :=
  match cs with
  | [] => rest
  | c :: cs' =>
      Do (WriteChunk tempPath c)
         (fun r => match r with
                   | Ok _ => pipeChunks tempPath cs' rest
                   | Thrown => Ret Thrown
                   end)
  end.

Definition generateZipFile (archiver : archiverRun)
    (directoryPaths : list string) (outputPath : string) : prog (outcome unit) :=
  let tempPath := outputPath ++ ".tmp" in
  Do (OpenWrite tempPath)
     (fun _ =>
        match archiver with
        | Finalized stream =>
            pipeChunks tempPath stream (onFinish directoryPaths tempPath outputPath)
        | Destroyed partial => pipeChunks tempPath partial (Ret Thrown)
        end).

(** *** Requests in flight

    A thread is a request or a generation in progress.  A schedule names,
    step by step, the thread that runs its next call and the event under
    which it runs. *)

Inductive thread : Type :=
| Lookup (p : prog (option string))
| Download (p : prog response)
| Generate (p : prog (outcome unit)).

Definition stepThread (e : event) (w : world) (t : thread) : world * thread :=
  match t with
  | Lookup p => let '(w1, p1) := step e w p in (w1, Lookup p1)
  | Download p => let '(w1, p1) := step e w p in (w1, Download p1)
  | Generate p => let '(w1, p1) := step e w p in (w1, Generate p1)
  end.

Definition stepPool (st : world * list thread) (pick : nat * event) : world * list thread :=
  match snd st !! fst pick with
  | Some t =>
      let '(w1, t1) := stepThread (snd pick) (fst st) t in
      (w1, <[fst pick := t1]> (snd st))
  | None => st
  end.

Definition execPool (schedule : list (nat * event)) (w : world) (ts : list thread)
  : world * list thread :=
  fold_left stepPool schedule (w, ts).

Definition finished (t : thread) : bool :=
  match t with
  | Lookup (Ret _) | Download (Ret _) | Generate (Ret _) => true
  | _ => false
  end.

End Service.

(** ** Orders and tokens

    [OrderService] keeps the orders in a MongoDB collection, modelled by
    the list of its documents in insertion order; [findOne] returns the
    first match.  A rejected database call is an input of the model. *)

Module Orders.

Record Order : Type :=
  { customerEmail : string;
    directoryPaths : list string;
    downloadToken : string;
    tokenExpiry : Z }.

Definition store : Type := list Order.

(** [randomBytes(size).toString('hex')]; the bytes drawn are an input. *)
Definition generateToken (randomBytes : list N) : string := Sha256.hex randomBytes.

Definition createOrder (dbFails : bool) (orderInput : Order) (db : store) : option store :=
  if dbFails then None else Some (db ++ [orderInput])%list.

Definition findByToken (db : store) (token : string) : option Order :=
  List.find (fun o => String.eqb (downloadToken o) token) db.

End Orders.

(** ** TransferController: [associate] and the token check of [download] *)

Module Transfer.

Import Orders Async Service.

Inductive httpException : Type :=
| BadRequestException (message : string)
| NotFoundException (message : string)
| InternalServerErrorException (message : string).

Record AssociateDto : Type :=
  { email : string; dtoDirectoryPaths : option (list string) }.

(** [!associateDto.directoryPaths?.length]. *)
Definition noDirectories (dto : AssociateDto) : bool :=
  match dtoDirectoryPaths dto with
  | Some (_ :: _) => false
  | _ => true
  end.

Definition associate (randomBytes : list N) (now : Z) (dbFails : bool)
    (associateDto : AssociateDto) (db : store) : (httpException + string) * store :=
  match dtoDirectoryPaths associateDto with
  | Some (d :: ds) =>
      let token := generateToken randomBytes in
      let tokenExpiry := (now + 72 * 3600000)%Z in
      match createOrder dbFails
              {| customerEmail := email associateDto;
                 directoryPaths := d :: ds;
                 downloadToken := token;
                 tokenExpiry := tokenExpiry |} db with
      | Some db1 => (inr token, db1)
      | None => (inl (InternalServerErrorException "Failed to create download order"), db)
      end
  | _ => (inl (BadRequestException "At least one directory path is required"), db)
  end.

(** White space and line terminators below 256, as [String.prototype.trim]
    removes them. *)
Definition isWhiteSpace (c : ascii) : bool :=
  existsb (N.eqb (N_of_ascii c)) [9; 10; 11; 12; 13; 32; 160]%N.

Fixpoint trimStart (s : string) : string :=
  match s with
  | String c r => if isWhiteSpace c then trimStart r else s
  | "" => ""
  end.

Fixpoint trimEnd (s : string) : string :=
  match s with
  | String c r =>
      let r1 := trimEnd r in
      if String.eqb r1 "" && isWhiteSpace c then "" else String c r1
  | "" => ""
  end.

Definition trim (s : string) : string := trimEnd (trimStart s).

Inductive validation : Type :=
| Valid (order : Order)
| Rejected (e : httpException)
| DatabaseError.

(** [validateToken]; [order.tokenExpiry < new Date()] compares the two
    times in milliseconds. *)
Definition validateToken (now : Z) (dbFails : bool) (db : store) (token : option string)
  : validation :=
  match token with
  | None => Rejected (NotFoundException "Download token is required")
  | Some t =>
      if String.eqb (trim t) "" then
        Rejected (NotFoundException "Download token is required")
      else if dbFails then DatabaseError
      else
        match findByToken db t with
        | None => Rejected (NotFoundException "Invalid download token")
        | Some order =>
            if (tokenExpiry order <? now)%Z then
              Rejected (NotFoundException "Download token has expired")
            else Valid order
        end
  end.

(** [download]: the token check, then the handler proper; a
    [NotFoundException] is rethrown, any other error becomes an internal
    server error. *)
Definition downloadRequest (now : Z) (dbFails : bool) (db : store) (token : option string)
  : prog (httpException + response) :=
  match validateToken now dbFails db token with
  | Valid order =>
      let* r := download (directoryPaths order) in
      Ret (inr r)
  | Rejected e => Ret (inl e)
  | DatabaseError =>
      Ret (inl (InternalServerErrorException "Failed to process download request"))
  end.

End Transfer.

(** ** SimpleCacheService: the pre-generation task

    [preGenerateZips] visits the recent orders one after the other; for
    an order without a ZIP it generates one and then enforces the size
    limit.  The task is modelled running alone; the archive that the
    archiver produces for an order and the events of its generation are
    inputs. *)

Module PreGeneration.

Import Orders Async Service SimpleCache.

Record tally : Type := { processedCount : nat; skippedCount : nat }.

Definition preGenerateStep (archiverFor : Order -> archiverRun)
    (envFor : Order -> nat -> event) (st : tally * world) (order : Order) : tally * world :=
  let '(t, w) := st in
  let zipPath := getZipPath (directoryPaths order) in
  if Fs.exists_ (files w) zipPath then
    ({| processedCount := processedCount t; skippedCount := S (skippedCount t) |}, w)
  else
    let '(r, w1) := run (generateZipFile (archiverFor order) (directoryPaths order) zipPath)
                        (envFor order) w in
    match r with
    | Ok _ =>
        let '(_, d) := enforceMaxCacheSize (files w1) in
        ({| processedCount := S (processedCount t); skippedCount := skippedCount t |},
         setFiles w1 d)
    | Thrown => (t, w1)
    end.

Definition preGenerateZips (archiverFor : Order -> archiverRun)
    (envFor : Order -> nat -> event) (recentOrders : list Order) (w : world) : tally * world :=
  fold_left (preGenerateStep archiverFor envFor) recentOrders
            ({| processedCount := 0; skippedCount := 0 |}, w).

End PreGeneration.

(** ** Notions used to state the properties *)

(** A path lies inside [base] when it is [base] or continues it after a
    separator. *)
Definition insideBase (base p : string) : bool :=
  String.eqb p base ||
  match Fs.stripPrefix (base ++ "/") p with
  | Some _ => true
  | None => false
  end.

(** The photo tree of the examples: two event directories, one of them
    with a file that is not an image, and an image in the base directory. *)
Definition exampleTree : gmap string FileProcessing.node :=
  <["/mnt/psd" := FileProcessing.NDir true ["a.jpg"; "events"]]>
  (<["/mnt/psd/events" := FileProcessing.NDir true ["wedding"; "gala"]]>
  (<["/mnt/psd/events/wedding" := FileProcessing.NDir true ["w1.jpg"; "notes.txt"; "w2.PNG"]]>
  (<["/mnt/psd/events/gala" := FileProcessing.NDir true ["g1.jpeg"]]> ∅))).

(** The [file()] calls made for one directory. *)
Definition entriesOf (base : string) (tree : gmap string FileProcessing.node)
    (d : string) : list FileProcessing.zipEntry :=
  let fullPath := PhotosConfig.getFullPhotoPath base d in
  if FileProcessing.checkDirectoryExists tree fullPath then
    match FileProcessing.readdir tree fullPath with
    | Some files =>
        List.map (fun f => {| FileProcessing.sourcePath := Path.join [fullPath; f];
                              FileProcessing.entryName := FileProcessing.zipEntryPath d f |})
                 (List.filter PhotosConfig.isValidImageFile files)
    | None => []
    end
  else [].

(** A cached artifact is a file directly in the cache directory whose
    name ends in [.zip]. *)
Definition artifactName (e : string * Fs.file) : option string :=
  match Fs.childName SimpleCache.cacheDirectory (fst e) with
  | Some n => if SimpleCache.endsWith n ".zip" then Some n else None
  | None => None
  end.

Definition isArtifact (e : string * Fs.file) : bool :=
  match artifactName e with
  | Some _ => true
  | None => false
  end.

(** The artifact's age, [now - mtime], is strictly greater than [age]. *)
Definition olderThan (now age : Z) (e : string * Fs.file) : bool :=
  isArtifact e && (age <? now - Fs.mtime (snd e))%Z.

(** The store [cur] after unlinking the files listed in [l]. *)
Definition removeAll (l : list (string * Fs.file)) (cur : Fs.t) : Fs.t :=
  fold_left (fun c e => Fs.remove (fst e) c) l cur.

Definition totalBytes (l : list (string * Fs.file)) : Z :=
  fold_right (fun e acc => (Fs.size (snd e) + acc)%Z) 0%Z l.

(** The [CacheFileInfo] that [getCacheFileInfos] builds for an artifact. *)
Definition infoOf (e : string * Fs.file) : option SimpleCache.CacheFileInfo :=
  match artifactName e with
  | Some n => Some {| SimpleCache.name := n; SimpleCache.path := fst e;
                      SimpleCache.size := Fs.size (snd e);
                      SimpleCache.mtime := Fs.mtime (snd e) |}
  | None => None
  end.

(** The store without the files named by [deleted]. *)
Definition withoutInfos (deleted : list SimpleCache.CacheFileInfo) (d : Fs.t) : Fs.t :=
  List.filter
    (fun e => negb (existsb (fun i => String.eqb (SimpleCache.path i) (fst e)) deleted)) d.

Definition notNewer (a b : SimpleCache.CacheFileInfo) : Prop :=
  (SimpleCache.mtime a <= SimpleCache.mtime b)%Z.

Definition fileOf (bytes mtime : Z) : Fs.file :=
  {| Fs.content := [ {| Fs.label := "archive"; Fs.bytes := bytes |} ]; Fs.mtime := mtime |}.

(** A cache directory with three artifacts and an abandoned temporary file. *)
Definition exampleCache : Fs.t :=
  [ ("/tmp/photo-cache/aaaaaaaaaaaaaaaa.zip", fileOf 4000 0);
    ("/tmp/photo-cache/bbbbbbbbbbbbbbbb.zip", fileOf 500 50);
    ("/tmp/photo-cache/cccccccccccccccc.zip.tmp", fileOf 70 10);
    ("/tmp/photo-cache/cccccccccccccccc.zip", fileOf 600 100) ].

(** Three artifacts of 2000 MB each, the second one the oldest. *)
Definition fullCache : Fs.t :=
  [ ("/tmp/photo-cache/aaaaaaaaaaaaaaaa.zip", fileOf 2097152000 20);
    ("/tmp/photo-cache/bbbbbbbbbbbbbbbb.zip", fileOf 2097152000 10);
    ("/tmp/photo-cache/cccccccccccccccc.zip", fileOf 2097152000 30) ].

(** One artifact of 5000 MB and one byte. *)
Definition justOverCache : Fs.t :=
  [ ("/tmp/photo-cache/aaaaaaaaaaaaaaaa.zip", fileOf 5242880001 0) ].

(** The artifacts of a store, and the rest of it. *)
Definition zipOnly (d : Fs.t) : Fs.t := List.filter isArtifact d.
Definition others (d : Fs.t) : Fs.t := List.filter (fun e => negb (isArtifact e)) d.

(** A name that [getZipFiles] lists. *)
Definition zipName (n : string) : bool :=
  Fs.properName n && SimpleCache.endsWith n ".zip".

Definition onFs (f : Fs.t -> Fs.t) (st : SimpleCache.flushState) : SimpleCache.flushState :=
  {| SimpleCache.flTotalSize := SimpleCache.flTotalSize st;
     SimpleCache.flDeleted := SimpleCache.flDeleted st;
     SimpleCache.flFs := f (SimpleCache.flFs st) |}.

(** A [CacheFileInfo] as [getCacheFileInfos] builds it: its path is the
    cache directory joined with its name, a listed name. *)
Definition listedInfo (i : SimpleCache.CacheFileInfo) : Prop :=
  zipName (SimpleCache.name i) = true /\
  SimpleCache.path i = Path.join [SimpleCache.cacheDirectory; SimpleCache.name i].

(** *** Reasoning about awaited code

    [possible d o a]: the call [o] may resolve to [a] when the file store
    is [d]; a memory-cache call may resolve to anything.  [answers d Q p]:
    [p] never writes to the file store and, whatever the memory cache
    replies, returns a result satisfying [Q] as long as the store is [d]. *)

Definition writes {A : Type} (o : Async.op A) : bool :=
  match o with
  | Async.OpenWrite _ | Async.WriteChunk _ _ | Async.Rename _ _ => true
  | _ => false
  end.

Definition possible {A : Type} (d : Fs.t) (o : Async.op A) : A -> Prop :=
  match o in Async.op T return T -> Prop with
  | Async.FileExists q => fun a => a = Fs.exists_ d q
  | _ => fun _ => True
  end.

Fixpoint answers {R : Type} (d : Fs.t) (Q : R -> Prop) (p : Async.prog R) : Prop :=
  match p with
  | Async.Ret r => Q r
  | Async.Do o k => writes o = false /\ forall a, possible d o a -> answers d Q (k a)
  end.

(** [p] never writes to the file store, whatever its calls resolve to. *)
Fixpoint readOnly {R : Type} (p : Async.prog R) : Prop :=
  match p with
  | Async.Ret _ => True
  | Async.Do o k => writes o = false /\ forall a, readOnly (k a)
  end.

Definition readerThread (t : Service.thread) : Prop :=
  match t with
  | Service.Lookup p => readOnly p
  | Service.Download p => readOnly p
  | Service.Generate p => readOnly p
  end.

(** A world whose memory cache still names the ZIP of [["events/gala"]],
    a file that is gone. *)
Definition staleWorld : Async.world :=
  {| Async.files := exampleCache;
     Async.cachedPaths :=
       {[ CacheKey.generateCacheKey ["events/gala"]
          := SimpleCache.getZipPath ["events/gala"] ]};
     Async.counters := ∅;
     Async.assemblies := [] |}.

(** *** Downloads of an uncached key

    [streams d key dirs started fuel p]: in a store [d] in which neither
    the ZIP of [key] nor any path cached under [key] exists, the handler
    [p] performs at most [fuel] calls, none of them a write to the store;
    it keeps the memory cache free of an existing path under [key]; it
    starts exactly one assembly, of [dirs], as its last call, and then
    answers with the real-time stream.  [started] tells whether the
    assembly has been started. *)

Definition isStart {A : Type} (o : Async.op A) : bool :=
  match o with
  | Async.StartAssembly _ => true
  | _ => false
  end.

Definition startsFor (dirs : list string) {A : Type} (o : Async.op A) : Prop :=
  match o with
  | Async.StartAssembly ds => ds = dirs
  | _ => True
  end.

Definition keepsStale (d : Fs.t) (key : string) {A : Type} (o : Async.op A) : Prop :=
  match o with
  | Async.CacheSet k v => k = key -> Fs.exists_ d v = false
  | _ => True
  end.

Definition mayReply (d : Fs.t) (key : string) {A : Type} (o : Async.op A) : A -> Prop :=
  match o in Async.op T return T -> Prop with
  | Async.FileExists q => fun a => a = Fs.exists_ d q
  | Async.CacheGet k =>
      fun a => match a with
               | Async.Ok (Some v) => k = key -> Fs.exists_ d v = false
               | _ => True
               end
  | _ => fun _ => True
  end.

Fixpoint streams (d : Fs.t) (key : string) (dirs : list string)
    (started : bool) (fuel : nat) (p : Async.prog Service.response) {struct p} : Prop :=
  match p with
  | Async.Ret r => started = true /\ r = Service.ServeRealTime dirs
  | Async.Do o k =>
      match fuel with
      | O => False
      | S fuel' =>
          started = false /\ writes o = false /\ startsFor dirs o /\ keepsStale d key o /\
          forall a, mayReply d key o a -> streams d key dirs (isStart o) fuel' (k a)
      end
  end.

Definition countFinished (ts : list Service.thread) : nat :=
  List.length (List.filter Service.finished ts).

(** How often thread [i] is picked by a schedule. *)
Definition picks (i : nat) (schedule : list (nat * Async.event)) : nat :=
  List.length (List.filter (fun x => Nat.eqb (fst x) i) schedule).

Definition emptyWorld : Async.world :=
  {| Async.files := []; Async.cachedPaths := ∅; Async.counters := ∅;
     Async.assemblies := [] |}.

(** Two requests, each running its seven calls in turn with the other. *)
Definition alternating : list (nat * Async.event) :=
  flat_map (fun _ => [(0%nat, Async.calm); (1%nat, Async.calm)]) (seq 0 7).

(** No path cached under [key] exists in the store [d]. *)
Definition staleKey (d : Fs.t) (key : string) (w : Async.world) : Prop :=
  forall v, Async.cachedPaths w !! key = Some v -> Fs.exists_ d v = false.

(** The state of [N] downloads of [dirs] after a schedule: the store is
    still [d], the key is still uncached, one assembly has been started
    per answered request, and a request still running has made as many
    calls as it has been picked. *)
Definition poolInv (d : Fs.t) (dirs : list string) (started0 : list (list string))
    (schedule : list (nat * Async.event)) (st : Async.world * list Service.thread) : Prop :=
  let key := CacheKey.generateCacheKey dirs in
  Async.files (fst st) = d /\
  staleKey d key (fst st) /\
  Async.assemblies (fst st) = (started0 ++ replicate (countFinished (snd st)) dirs)%list /\
  forall i t, snd st !! i = Some t ->
    exists p b n, t = Service.Download p /\ streams d key dirs b n p /\
                  (b = false -> (n + picks i schedule = 7)%nat).

(** *** A generation in flight *)

Definition contentAt (d : Fs.t) (p : string) : option (list Fs.chunk) :=
  match Fs.stat d p with
  | Some f => Some (Fs.content f)
  | None => None
  end.

(** The states of [generateZipFile] writing [outputPath] from the store
    [d0]: before the rename the output path is as it was in [d0], and
    the temporary file holds the chunks piped so far; after the rename
    the output holds the whole finalized stream and the rest of the
    code does not write. *)
Definition genInv (archiver : Service.archiverRun) (dirs : list string)
    (outputPath : string) (d0 : Fs.t)
    (w : Async.world) (p : Async.prog (Async.outcome unit)) : Prop :=
  let tempPath := outputPath ++ ".tmp" in
  (Fs.stat (Async.files w) outputPath = Fs.stat d0 outputPath /\
   (p = Service.generateZipFile archiver dirs outputPath \/
    (exists cs1 cs2,
       contentAt (Async.files w) tempPath = Some cs1 /\
       ((archiver = Service.Finalized (cs1 ++ cs2) /\
         p = Service.pipeChunks tempPath cs2 (Service.onFinish dirs tempPath outputPath)) \/
        (archiver = Service.Destroyed (cs1 ++ cs2) /\
         p = Service.pipeChunks tempPath cs2 (Async.Ret Async.Thrown)))) \/
    p = Async.Ret Async.Thrown))
  \/
  (exists stream,
     archiver = Service.Finalized stream /\
     contentAt (Async.files w) outputPath = Some stream /\
     readOnly p).

Definition genPoolInv (archiver : Service.archiverRun) (dirs : list string)
    (outputPath : string) (d0 : Fs.t) (st : Async.world * list Service.thread) : Prop :=
  exists g readers,
    snd st = Service.Generate g :: readers /\
    genInv archiver dirs outputPath d0 (fst st) g /\
    Forall readerThread readers.

(** An archive of two chunks, written while a lookup and a download of
    the same directories run. *)
Definition exampleStream : list Fs.chunk :=
  [ {| Fs.label := "gala/g1.jpeg"; Fs.bytes := 1000 |};
    {| Fs.label := "central directory"; Fs.bytes := 76 |} ].

Definition generationPool : list Service.thread :=
  [ Service.Generate
      (Service.generateZipFile (Service.Finalized exampleStream) ["events/gala"]
         (SimpleCache.getZipPath ["events/gala"]));
    Service.Lookup (Service.getCachedZip ["events/gala"]);
    Service.Download (Service.download ["events/gala"]) ].

(** The generator opens the file and writes one chunk; the lookup runs
    to its end; the generator writes the last chunk and renames. *)
Definition midGeneration : list (nat * Async.event) :=
  [ (0%nat, Async.calm); (0%nat, Async.calm) ].

Definition fullGeneration : list (nat * Async.event) :=
  (midGeneration
   ++ flat_map (fun _ => [(1%nat, Async.calm)]) (seq 0 7)
   ++ flat_map (fun _ => [(0%nat, Async.calm)]) (seq 0 4))%list.

(** Two generations of the same key in flight, as when a pre-generation
    tick starts while the previous one is still writing. *)
Definition twoGenerations : list Service.thread :=
  [ Service.Generate
      (Service.generateZipFile (Service.Finalized exampleStream) ["events/gala"]
         (SimpleCache.getZipPath ["events/gala"]));
    Service.Generate
      (Service.generateZipFile (Service.Finalized exampleStream) ["events/gala"]
         (SimpleCache.getZipPath ["events/gala"])) ].

(** The first generation opens the temporary file and writes both
    chunks; the second one opens the same temporary file, truncating it;
    the first one renames. *)
Definition clobbering : list (nat * Async.event) :=
  [ (0%nat, Async.calm); (0%nat, Async.calm); (0%nat, Async.calm);
    (1%nat, Async.calm);
    (0%nat, Async.calm) ].

(** ** Notions used to state further properties *)

(** A lower-case hexadecimal digit, and a string of them. *)
Definition isHexChar (c : ascii) : bool :=
  existsb (Ascii.eqb c)
    ["0"; "1"; "2"; "3"; "4"; "5"; "6"; "7"; "8"; "9"; "a"; "b"; "c"; "d"; "e"; "f"]%char.

Fixpoint isHexString (s : string) : bool :=
  match s with
  | "" => true
  | String c r => isHexChar c && isHexString r
  end.

(** The hit and miss counters kept in the memory cache. *)
Definition hitsOf (w : Async.world) : Z :=
  Service.orZero (Async.counters w !! "cache:stats:hits").
Definition missesOf (w : Async.world) : Z :=
  Service.orZero (Async.counters w !! "cache:stats:misses").

(** A run during which the memory cache answers every call. *)
Definition cacheAnswers (env : nat -> Async.event) : Prop :=
  forall i, Async.cacheFails (env i) = false.

(** A world with the ZIP of [["events/gala"]] on disk and nothing in the
    memory cache. *)
Definition galaOnDisk : Async.world :=
  {| Async.files := [ (SimpleCache.getZipPath ["events/gala"], fileOf 1076 0) ];
     Async.cachedPaths := ∅;
     Async.counters := ∅;
     Async.assemblies := [] |}.

(** A run during which every call on the memory cache is rejected. *)
Definition cacheDown : nat -> Async.event :=
  fun _ => {| Async.evNow := 0; Async.cacheFails := true; Async.streamFails := false |}.

(** [Math.round(ms / (60 * 60 * 1000))] for a whole number of
    milliseconds. *)
Definition roundedHours (ms : Z) : Z := ((2 * ms + 3600000) / 7200000)%Z.

(** An artifact that is not among the deleted ones. *)
Definition notDeleted (deleted : list SimpleCache.CacheFileInfo)
    (i : SimpleCache.CacheFileInfo) : bool :=
  negb (existsb (fun j => String.eqb (SimpleCache.path j) (SimpleCache.path i)) deleted).

(** A name without separators of either kind, as a directory entry that
    is portable between POSIX and Windows is. *)
Fixpoint hasBackslash (s : string) : bool :=
  match s with
  | "" => false
  | String c r => Ascii.eqb c "\" || hasBackslash r
  end.

Definition plainName (n : string) : bool := Fs.properName n && negb (hasBackslash n).

(** The absolute path made of the given segments. *)
Definition absolutePath (segs : list string) : string := "/" ++ Path.joinWith "/" segs.

(** The number of files a log record reports as added. *)
Definition addedCountOf (ev : FileProcessing.logEvent) : nat :=
  match ev with
  | FileProcessing.DirectoryAdded _ n => n
  | _ => 0%nat
  end.

(** What one directory leaves in the log: its record tells how many
    entries it has queued, and names it when it reports files. *)
Definition recordsFor (base : string) (tree : gmap string FileProcessing.node)
    (d : string) (ev : FileProcessing.logEvent) : Prop :=
  addedCountOf ev = List.length (entriesOf base tree d) /\
  forall d' n, ev = FileProcessing.DirectoryAdded d' n -> d' = d.

(** Every file of the store has a size that is not negative. *)
Definition sizesNonNegative (d : Fs.t) : Prop :=
  forall e, In e d -> (0 <= Fs.size (snd e))%Z.

(** The number of bytes of a stream of chunks. *)
Definition streamBytes (cs : list Fs.chunk) : Z :=
  fold_right Z.add 0%Z (List.map Fs.bytes cs).

(** A run in which neither the memory cache nor the stream fails. *)
Definition quiet (env : nat -> Async.event) : Prop :=
  forall i, Async.cacheFails (env i) = false /\ Async.streamFails (env i) = false.

(** A world with the ZIP of [["events/gala"]] on disk and in the memory
    cache. *)
Definition galaCached : Async.world :=
  {| Async.files := [ (SimpleCache.getZipPath ["events/gala"], fileOf 1076 0) ];
     Async.cachedPaths :=
       {[ CacheKey.generateCacheKey ["events/gala"]
          := SimpleCache.getZipPath ["events/gala"] ]};
     Async.counters := ∅;
     Async.assemblies := [] |}.

(** A run in which the memory cache rejects its third call only: in a
    lookup that finds a stale entry this is the [del]. *)
Definition delRejected : nat -> Async.event :=
  fun i => {| Async.evNow := 0; Async.cacheFails := Nat.eqb i 2;
              Async.streamFails := false |}.


(** * Properties *)

(** ** Worked values of the path model and of the digest *)

Example normalize_ex1 : Path.normalize "a/../../b" = "../b". Proof. reflexivity. Qed.
Example normalize_ex2 : Path.normalize "/a//b/./c/.." = "/a/b". Proof. reflexivity. Qed.
Example normalize_ex3 : Path.normalize "./x/" = "x/". Proof. reflexivity. Qed.
Example normalize_ex4 : Path.normalize "/.." = "/". Proof. reflexivity. Qed.
Example join_ex1 : Path.join ["/mnt/psd"; "00July2025/08070018"] = "/mnt/psd/00July2025/08070018".
Proof. reflexivity. Qed.
Example basename_ex1 : Path.basename "00July2025/08070018" = "08070018". Proof. reflexivity. Qed.
Example extname_ex1 : Path.extname "IMG_1.JPG" = ".JPG". Proof. reflexivity. Qed.
Example extname_ex2 : Path.extname ".bashrc" = "". Proof. reflexivity. Qed.
Example valid_ex1 : PhotosConfig.isValidImageFile "IMG_1.JPG" = true. Proof. reflexivity. Qed.
Example full_ex1 : PhotosConfig.getFullPhotoPath "/mnt/psd" "../.." = "/mnt". Proof. reflexivity. Qed.

Example sha_constants :
  nth 0 Sha256.K 0%N = 0x428a2f98%N /\ nth 63 Sha256.K 0%N = 0xc67178f2%N /\
  nth 0 Sha256.H0 0%N = 0x6a09e667%N /\ nth 7 Sha256.H0 0%N = 0x5be0cd19%N /\
  List.length Sha256.K = 64%nat.
Proof. repeat split. Qed.
Example sha_abc : Sha256.sha256Hex "abc"
  = "ba7816bf8f01cfea414140de5dae2223b00361a396177a9cb410ff61f20015ad".
Proof. vm_compute. reflexivity. Qed.
Example sha_empty : Sha256.sha256Hex ""
  = "e3b0c44298fc1c149afbf4c8996fb92427ae41e4649b934ca495991b7852b855".
Proof. vm_compute. reflexivity. Qed.
Example sha_long : Sha256.sha256Hex "xxxxxxxxxxxxxxxxxxxxxxxxxxxxxxxxxxxxxxxxxxxxxxxxxxxxxxxxxxxxxxxxxxxxxx"
  = "c71bd109227e23434ecf71fd0a344a209136c79ae5a0bda2b5ca442d699a3cd9".
Proof. vm_compute. reflexivity. Qed.
Example key_ex1 : CacheKey.generateCacheKey ["events/wedding"; "events/gala"] = "bab2271924929e3b".
Proof. vm_compute. reflexivity. Qed.
Example key_ex2 : CacheKey.generateCacheKey ["a"; "a"] = "1e91e4b7912308d2".
Proof. vm_compute. reflexivity. Qed.

(** ** Paths *)

Section PathFacts.

Import Path.

Lemma segments_nonempty s : segments s <> [].
Proof.
  destruct s as [|c r]; simpl; [discriminate|].
  destruct (isPathSeparator c); [discriminate|].
  destruct (segments r); discriminate.
Qed.

Lemma segments_noSlash s : Fs.hasSlash s = false -> segments s = [s].
Proof.
  induction s as [|c r IH]; simpl; [reflexivity|].
  intros H. apply orb_false_iff in H as [Hc Hr].
  rewrite Hc, (IH Hr). reflexivity.
Qed.

Lemma segments_app s t :
  segments (s ++ String "/" t) = (segments s ++ segments t)%list.
Proof.
  induction s as [|c r IH]; simpl; [reflexivity|].
  destruct (isPathSeparator c); simpl; [by rewrite IH|].
  rewrite IH. pose proof (segments_nonempty r) as Hne.
  destruct (segments r); [congruence|reflexivity].
Qed.

Lemma endsWithSlash_noSlash s : Fs.hasSlash s = false -> endsWithSlash s = false.
Proof.
  induction s as [|c r IH]; simpl; [reflexivity|].
  intros H. apply orb_false_iff in H as [Hc Hr].
  destruct r; [exact Hc|]. apply IH, Hr.
Qed.

Lemma endsWithSlash_app s t : t <> "" -> endsWithSlash (s ++ t) = endsWithSlash t.
Proof.
  intros Ht. induction s as [|c r IH]; simpl; [reflexivity|].
  destruct (r ++ t) eqn:E; [|exact IH].
  destruct r; simpl in E; [congruence|discriminate].
Qed.

Lemma properName_spec n :
  Fs.properName n = true ->
  n <> "" /\ n <> "." /\ n <> ".." /\ Fs.hasSlash n = false.
Proof.
  unfold Fs.properName. intros H.
  repeat (apply andb_true_iff in H as [H ?]).
  repeat match goal with
         | H : negb _ = true |- _ => apply negb_true_iff in H
         end.
  repeat split; try (apply String.eqb_neq; assumption); assumption.
Qed.

Lemma normalizeStep_proper allow res n :
  Fs.properName n = true -> normalizeStep allow res n = (res ++ [n])%list.
Proof.
  intros H. apply properName_spec in H as (H1 & H2 & H3 & _).
  unfold normalizeStep.
  apply String.eqb_neq in H1, H2, H3. rewrite H1, H2, H3. reflexivity.
Qed.

Lemma append_assoc s t u : (s ++ t) ++ u = s ++ (t ++ u).
Proof. induction s as [|c r IH]; simpl; [reflexivity|]. by rewrite IH. Qed.

Lemma append_nonempty_l s t : s <> "" -> s ++ t <> "".
Proof. destruct s; [congruence|discriminate]. Qed.


End PathFacts.

(** ** Archive assembly *)

Section AssemblyFacts.

Import FileProcessing.

Variable base : string.
Variable tree : gmap string node.

Lemma addFilesToArchive_spec files fullPath d a :
  addFilesToArchive files fullPath d a =
  (length files,
   {| queued := (queued a ++
                 List.map (fun f => {| sourcePath := Path.join [fullPath; f];
                                       entryName := zipEntryPath d f |}) files)%list;
      logged := logged a |}).
Proof.
  revert a. induction files as [|f r IH]; intros a; simpl.
  - rewrite app_nil_r. by destruct a.
  - rewrite IH. simpl. rewrite <- app_assoc. reflexivity.
Qed.

Lemma processDirectory_queued d a :
  queued (processDirectory base tree d a) = (queued a ++ entriesOf base tree d)%list.
Proof.
  unfold processDirectory, entriesOf, getImageFiles.
  destruct (checkDirectoryExists tree _); simpl; [|by rewrite app_nil_r].
  destruct (readdir tree _) as [files|]; simpl; [|by rewrite app_nil_r].
  rewrite addFilesToArchive_spec. reflexivity.
Qed.

Lemma processDirectory_logged_incl d a ev :
  In ev (logged a) -> In ev (logged (processDirectory base tree d a)).
Proof.
  intros H. unfold processDirectory, getImageFiles.
  destruct (checkDirectoryExists tree _); simpl.
  - destruct (readdir tree _) as [files|]; simpl.
    + rewrite addFilesToArchive_spec. simpl. apply in_or_app. by left.
    + apply in_or_app. by left.
  - apply in_or_app. by left.
Qed.

Lemma processDirectory_missing d a :
  checkDirectoryExists tree (PhotosConfig.getFullPhotoPath base d) = false ->
  In (DirectoryNotFound (PhotosConfig.getFullPhotoPath base d))
     (logged (processDirectory base tree d a)).
Proof.
  intros H. unfold processDirectory. rewrite H. simpl.
  apply in_or_app. right. by left.
Qed.

Lemma processDirectories_queued dirs a :
  queued (processDirectories base tree dirs a)
  = (queued a ++ flat_map (entriesOf base tree) dirs)%list.
Proof.
  revert a. induction dirs as [|d r IH]; intros a; simpl.
  - by rewrite app_nil_r.
  - unfold processDirectories in *. simpl. rewrite IH, processDirectory_queued.
    by rewrite <- app_assoc.
Qed.

Lemma processDirectories_logged_incl dirs a ev :
  In ev (logged a) -> In ev (logged (processDirectories base tree dirs a)).
Proof.
  revert a. induction dirs as [|d r IH]; intros a H; simpl; [exact H|].
  apply IH, processDirectory_logged_incl, H.
Qed.

Lemma processDirectories_missing dirs a d :
  In d dirs ->
  checkDirectoryExists tree (PhotosConfig.getFullPhotoPath base d) = false ->
  In (DirectoryNotFound (PhotosConfig.getFullPhotoPath base d))
     (logged (processDirectories base tree dirs a)).
Proof.
  revert a. induction dirs as [|d' r IH]; intros a Hin Hmiss; [destruct Hin|].
  destruct Hin as [->|Hin]; simpl.
  - apply processDirectories_logged_incl, processDirectory_missing, Hmiss.
  - apply IH; assumption.
Qed.

Lemma in_entriesOf e d :
  In e (entriesOf base tree d) <->
  exists files f,
    checkDirectoryExists tree (PhotosConfig.getFullPhotoPath base d) = true /\
    readdir tree (PhotosConfig.getFullPhotoPath base d) = Some files /\
    In f files /\ PhotosConfig.isValidImageFile f = true /\
    e = {| sourcePath := Path.join [PhotosConfig.getFullPhotoPath base d; f];
           entryName := zipEntryPath d f |}.
Proof.
  unfold entriesOf. split.
  - destruct (checkDirectoryExists tree _) eqn:Hex; [|intros []].
    destruct (readdir tree _) as [files|] eqn:Hrd; [|intros []].
    intros H. apply in_map_iff in H as (f & <- & Hf).
    apply filter_In in Hf as [Hf Hv]. exists files, f. auto.
  - intros (files & f & Hex & Hrd & Hf & Hv & ->). rewrite Hex, Hrd.
    apply in_map_iff. exists f. split; [reflexivity|].
    apply filter_In. auto.
Qed.

End AssemblyFacts.

(** C7. A request that names a missing or unreadable directory next to
    valid ones is still assembled: unless the sink fails, assembly returns
    an archive; every directory that is not found leaves a
    [DirectoryNotFound] record; and the archive holds exactly the image
    files of the directories that exist. *)
Theorem C7_missing_directory_is_skipped :
  forall (base : string) (tree : gmap string FileProcessing.node) (dirs : list string),
    let a := FileProcessing.processDirectories base tree dirs FileProcessing.emptyAssembly in
    FileProcessing.processDirectoriesAsync base tree false dirs = Some a /\
    (forall d, In d dirs ->
       FileProcessing.checkDirectoryExists tree (PhotosConfig.getFullPhotoPath base d) = false ->
       In (FileProcessing.DirectoryNotFound (PhotosConfig.getFullPhotoPath base d))
          (FileProcessing.logged a)) /\
    (forall e, In e (FileProcessing.queued a) <->
       exists d files f,
         In d dirs /\
         FileProcessing.checkDirectoryExists tree (PhotosConfig.getFullPhotoPath base d) = true /\
         FileProcessing.readdir tree (PhotosConfig.getFullPhotoPath base d) = Some files /\
         In f files /\ PhotosConfig.isValidImageFile f = true /\
         e = {| FileProcessing.sourcePath :=
                  Path.join [PhotosConfig.getFullPhotoPath base d; f];
                FileProcessing.entryName := FileProcessing.zipEntryPath d f |}).
Proof.
  intros base tree dirs a. split; [reflexivity|]. split.
  - intros d Hin Hmiss. apply processDirectories_missing; assumption.
  - intros e. subst a. rewrite processDirectories_queued. simpl.
    rewrite in_flat_map. split.
    + intros (d & Hd & He). apply in_entriesOf in He as (files & f & H).
      exists d, files, f. tauto.
    + intros (d & files & f & Hd & H). exists d. split; [exact Hd|].
      apply in_entriesOf. exists files, f. exact H.
Qed.

(** The scenario of the specification: one valid and one missing directory. *)
Example C7_scenario :
  FileProcessing.processDirectories "/mnt/psd" exampleTree
    ["events/wedding"; "events/missing"] FileProcessing.emptyAssembly
  = {| FileProcessing.queued :=
         [ {| FileProcessing.sourcePath := "/mnt/psd/events/wedding/w1.jpg";
              FileProcessing.entryName := "wedding/w1.jpg" |};
           {| FileProcessing.sourcePath := "/mnt/psd/events/wedding/w2.PNG";
              FileProcessing.entryName := "wedding/w2.PNG" |} ];
       FileProcessing.logged :=
         [ FileProcessing.DirectoryAdded "events/wedding" 2;
           FileProcessing.DirectoryNotFound "/mnt/psd/events/missing" ] |}.
Proof. vm_compute. reflexivity. Qed.

Lemma C7_scenario_skip_recorded :
  In (FileProcessing.DirectoryNotFound "/mnt/psd/events/missing")
     (FileProcessing.logged
        (FileProcessing.processDirectories "/mnt/psd" exampleTree
           ["events/wedding"; "events/missing"] FileProcessing.emptyAssembly)).
Proof.
  destruct (C7_missing_directory_is_skipped "/mnt/psd" exampleTree
              ["events/wedding"; "events/missing"]) as (_ & Hskip & _).
  apply (Hskip "events/missing"); [simpl; auto | vm_compute; reflexivity].
Defined.

(** C9 (the code at the failing input). A request for ["../.."], or for
    [".."], is resolved to the parent of the photos base directory: the
    leading [../] is removed, the [..] left over is not, and the join
    climbs out of the base. *)
Theorem C9_traversal_escapes_base :
  PhotosConfig.sanitizePath "../.." = ".." /\
  PhotosConfig.getFullPhotoPath PhotosConfig.defaultPhotosBasePath "../.." = "/mnt" /\
  PhotosConfig.getFullPhotoPath PhotosConfig.defaultPhotosBasePath ".." = "/mnt" /\
  insideBase PhotosConfig.defaultPhotosBasePath
    (PhotosConfig.getFullPhotoPath PhotosConfig.defaultPhotosBasePath "../..") = false.
Proof. repeat split; vm_compute; reflexivity. Qed.

(** ** The cache key *)

Section CacheKeyFacts.

Import CacheKey.

Lemma leb_trans a b c :
  String.leb a b = true -> String.leb b c = true -> String.leb a c = true.
Proof.
  unfold String.leb. revert b c.
  induction a as [|x a IH]; intros [|y b] [|z c]; simpl; try easy.
  unfold Ascii.compare.
  destruct (N.compare_spec (N_of_ascii x) (N_of_ascii y)) as [Hxy|Hxy|Hxy];
    destruct (N.compare_spec (N_of_ascii y) (N_of_ascii z)) as [Hyz|Hyz|Hyz];
    destruct (N.compare_spec (N_of_ascii x) (N_of_ascii z)) as [Hxz|Hxz|Hxz];
    try lia; try easy.
  apply IH.
Qed.

Lemma leb_false_flip a b : String.leb a b = false -> String.leb b a = true.
Proof. destruct (String.leb_total a b) as [H|H]; [congruence|auto]. Qed.

Lemma insertSorted_comm a b l :
  insertSorted a (insertSorted b l) = insertSorted b (insertSorted a l).
Proof.
  induction l as [|y r IH]; simpl.
  - destruct (String.leb a b) eqn:Hab, (String.leb b a) eqn:Hba; try reflexivity.
    + by rewrite (String.leb_antisym _ _ Hab Hba).
    + apply leb_false_flip in Hab. congruence.
  - destruct (String.leb a y) eqn:Hay, (String.leb b y) eqn:Hby; simpl.
    + destruct (String.leb a b) eqn:Hab, (String.leb b a) eqn:Hba;
        rewrite ?Hay, ?Hby; try reflexivity.
      * by rewrite (String.leb_antisym _ _ Hab Hba).
      * apply leb_false_flip in Hab. congruence.
    + rewrite Hay.
      destruct (String.leb b a) eqn:Hba.
      * rewrite (leb_trans _ _ _ Hba Hay) in Hby. discriminate.
      * by rewrite Hby.
    + rewrite Hby.
      destruct (String.leb a b) eqn:Hab.
      * rewrite (leb_trans _ _ _ Hab Hby) in Hay. discriminate.
      * by rewrite Hay.
    + by rewrite Hay, Hby, IH.
Qed.

Lemma sortStrings_perm l1 l2 : Permutation l1 l2 -> sortStrings l1 = sortStrings l2.
Proof.
  induction 1 as [|x l l' _ IH|x y l|l l' l'' _ IH1 _ IH2]; simpl.
  - reflexivity.
  - by rewrite IH.
  - apply insertSorted_comm.
  - by rewrite IH1.
Qed.

End CacheKeyFacts.

(** C1 (as amended). The cache key does not depend on the order of the
    directory identifiers: two lists that are permutations of each other
    (the same identifiers, each as many times) have the same key. *)
Theorem C1_cache_key_order_invariant :
  forall l1 l2 : list string,
    Permutation l1 l2 ->
    CacheKey.generateCacheKey l1 = CacheKey.generateCacheKey l2.
Proof.
  intros l1 l2 H. unfold CacheKey.generateCacheKey.
  by rewrite (sortStrings_perm _ _ H).
Qed.

Lemma C1_cache_key_witness :
  Permutation ["events/wedding"; "events/gala"] ["events/gala"; "events/wedding"] /\
  CacheKey.generateCacheKey ["events/wedding"; "events/gala"]
  = CacheKey.generateCacheKey ["events/gala"; "events/wedding"].
Proof.
  split; [apply perm_swap|].
  apply C1_cache_key_order_invariant. apply perm_swap.
Defined.

(** C1 as stated fails on duplicates: [["a"]] and [["a"; "a"]] hold the
    same set of identifiers, but the sorted lists joined by ['|'] are ["a"]
    and ["a|a"], whose digests differ. *)
Lemma C1_counterexample :
  (forall x : string, In x ["a"] <-> In x ["a"; "a"]) /\
  CacheKey.generateCacheKey ["a"] = "ca978112ca1bbdca" /\
  CacheKey.generateCacheKey ["a"; "a"] = "1e91e4b7912308d2" /\
  CacheKey.generateCacheKey ["a"] <> CacheKey.generateCacheKey ["a"; "a"].
Proof.
  split; [|split; [|split]].
  - intros x. simpl. tauto.
  - vm_compute. reflexivity.
  - vm_compute. reflexivity.
  - vm_compute. discriminate.
Qed.

(** ** The file store and the cache directory *)

Section FsFacts.

Import Fs SimpleCache.

Lemma stripPrefix_spec pre s r : stripPrefix pre s = Some r <-> s = pre ++ r.
Proof.
  revert s. induction pre as [|a pre IH]; intros s; simpl.
  - split; [intros [= ->]; reflexivity | intros ->; reflexivity].
  - destruct s as [|b s]; [split; discriminate|].
    destruct (Ascii.eqb_spec a b) as [->|Hne].
    + rewrite IH. split; [intros ->; reflexivity | intros [= ->]; reflexivity].
    + split; [discriminate | intros [= <- _]; congruence].
Qed.

Lemma cachePath_proper n :
  properName n = true -> Path.join [cacheDirectory; n] = "/tmp/photo-cache/" ++ n.
Proof.
  intros Hn. pose proof (properName_spec _ Hn) as (Hn1 & _ & _ & Hn4).
  unfold Path.join, cacheDirectory. simpl.
  apply String.eqb_neq in Hn1 as Hn1'. rewrite Hn1'. simpl.
  unfold Path.normalize. simpl.
  assert (Htr : Path.endsWithSlash ("tmp/photo-cache/" ++ n) = false).
  { rewrite endsWithSlash_app by exact Hn1. apply endsWithSlash_noSlash, Hn4. }
  simpl in Htr. rewrite Htr.
  assert (Hnorm : Path.normalizeString ("/tmp/photo-cache/" ++ n) false
                  = "tmp/photo-cache/" ++ n).
  { unfold Path.normalizeString.
    change ("/tmp/photo-cache/" ++ n) with ("/tmp/photo-cache" ++ String "/" n).
    rewrite segments_app, (segments_noSlash _ Hn4). simpl.
    rewrite (normalizeStep_proper _ _ _ Hn). reflexivity. }
  simpl in Hnorm. rewrite Hnorm. reflexivity.
Qed.

Lemma childName_spec p n :
  childName cacheDirectory p = Some n <->
  p = "/tmp/photo-cache/" ++ n /\ properName n = true.
Proof.
  unfold childName. split.
  - destruct (stripPrefix _ p) as [m|] eqn:E; [|discriminate].
    destruct (properName m) eqn:Hm; [|discriminate].
    intros [= <-]. apply stripPrefix_spec in E. auto.
  - intros [-> Hn].
    assert (E : stripPrefix (cacheDirectory ++ "/") ("/tmp/photo-cache/" ++ n) = Some n)
      by (apply stripPrefix_spec; reflexivity).
    rewrite E, Hn. reflexivity.
Qed.

Lemma childName_path p n :
  childName cacheDirectory p = Some n -> Path.join [cacheDirectory; n] = p.
Proof.
  intros H. apply childName_spec in H as [-> Hn]. apply cachePath_proper, Hn.
Qed.

Lemma hasPath_eq p e : hasPath p e = true <-> fst e = p.
Proof. unfold hasPath. apply String.eqb_eq. Qed.

Lemma stat_remove_ne d p q : p <> q -> stat (remove q d) p = stat d p.
Proof.
  intros Hne. unfold stat, remove. induction d as [|e r IH]; simpl; [reflexivity|].
  destruct (hasPath q e) eqn:Hq; simpl.
  - destruct (hasPath p e) eqn:Hp; [|exact IH].
    apply hasPath_eq in Hq, Hp. congruence.
  - destruct (hasPath p e); [reflexivity|exact IH].
Qed.

Lemma stat_remove_eq d p : stat (remove p d) p = None.
Proof.
  unfold stat, remove. induction d as [|e r IH]; simpl; [reflexivity|].
  destruct (hasPath p e) eqn:Hp; simpl; [exact IH|]. by rewrite Hp.
Qed.

Lemma exists_stat d p : exists_ d p = true <-> stat d p <> None.
Proof.
  unfold exists_, stat. induction d as [|e r IH]; simpl; [split; easy|].
  destruct (hasPath p e); simpl; [split; easy|exact IH].
Qed.

Lemma stat_Some_exists d p f : stat d p = Some f -> exists_ d p = true.
Proof. intros H. apply exists_stat. congruence. Qed.

Lemma stat_head_nodup e d :
  stat (e :: d) (fst e) = Some (snd e).
Proof. unfold stat. simpl. unfold hasPath. by rewrite String.eqb_refl. Qed.

Lemma stat_tail_nodup e d e' :
  NoDup (List.map fst (e :: d)) -> In e' d -> stat (e :: d) (fst e') = stat d (fst e').
Proof.
  intros Hnd Hin. unfold stat. simpl.
  destruct (hasPath (fst e') e) eqn:Hp; [|reflexivity].
  apply hasPath_eq in Hp. apply NoDup_cons in Hnd as [Hnotin _].
  exfalso. apply Hnotin. rewrite Hp. apply list_elem_of_In, in_map, Hin.
Qed.

Lemma stat_in_nodup d e :
  NoDup (List.map fst d) -> In e d -> stat d (fst e) = Some (snd e).
Proof.
  induction d as [|e0 r IH]; intros Hnd Hin; [destruct Hin|].
  destruct Hin as [->|Hin]; [apply stat_head_nodup|].
  rewrite (stat_tail_nodup _ _ _ Hnd Hin). apply IH; [|exact Hin].
  by apply NoDup_cons in Hnd as [_ ?].
Qed.

End FsFacts.

Section FlushFacts.

Import Fs SimpleCache.

Lemma getZipFiles_artifacts d : getZipFiles d = omap artifactName d.
Proof.
  unfold getZipFiles, readdir, artifactName.
  induction d as [|e r IH]; simpl; [reflexivity|].
  destruct (childName cacheDirectory (fst e)) as [n|]; simpl; [|exact IH].
  destruct (endsWith n ".zip"); simpl; [f_equal|]; exact IH.
Qed.

Lemma artifactName_path e n :
  artifactName e = Some n -> Path.join [cacheDirectory; n] = fst e.
Proof.
  unfold artifactName.
  destruct (childName cacheDirectory (fst e)) as [m|] eqn:E; [|discriminate].
  destruct (endsWith m ".zip"); [|discriminate].
  intros [= <-]. apply childName_path, E.
Qed.

Lemma removeAll_filter l cur :
  removeAll l cur
  = List.filter (fun e => negb (existsb (fun e' => String.eqb (fst e') (fst e)) l)) cur.
Proof.
  revert cur. induction l as [|x l IH]; intros cur; simpl.
  - induction cur as [|e r IHr]; simpl; [reflexivity|]. by rewrite <- IHr.
  - rewrite IH. unfold remove.
    induction cur as [|e r IHr]; simpl; [reflexivity|].
    unfold hasPath at 1. rewrite (String.eqb_sym (fst e) (fst x)).
    destruct (String.eqb (fst x) (fst e)); simpl; [exact IHr|].
    destruct (existsb _ l); simpl; [exact IHr|]. by rewrite IHr.
Qed.

Lemma same_key_same_entry (d : Fs.t) e e' :
  NoDup (List.map fst d) -> In e d -> In e' d -> fst e' = fst e -> e' = e.
Proof.
  intros Hnd He He' Hk.
  pose proof (stat_in_nodup _ _ Hnd He) as H1.
  pose proof (stat_in_nodup _ _ Hnd He') as H2.
  rewrite Hk, H1 in H2. destruct e, e'. simpl in *. congruence.
Qed.

Lemma removeAll_selected (P : string * file -> bool) (d : Fs.t) :
  NoDup (List.map fst d) ->
  removeAll (List.filter P d) d = List.filter (fun e => negb (P e)) d.
Proof.
  intros Hnd. rewrite removeAll_filter. apply filter_ext_in. intros e He.
  f_equal. destruct (P e) eqn:HP.
  - apply existsb_exists. exists e. split; [|apply String.eqb_refl].
    apply filter_In. auto.
  - apply not_true_is_false. intros H.
    apply existsb_exists in H as (e' & He' & Hk).
    apply filter_In in He' as [He' HP']. apply String.eqb_eq in Hk.
    rewrite (same_key_same_entry d e e' Hnd He He' Hk) in HP'. congruence.
Qed.

Lemma olderThan_artifact now age e n :
  artifactName e = Some n ->
  olderThan now age e = (Fs.mtime (snd e) <? now - age)%Z.
Proof.
  intros H. unfold olderThan, isArtifact. rewrite H. simpl.
  apply eq_true_iff_eq. rewrite !Z.ltb_lt. lia.
Qed.

Lemma olderThan_other now age e : artifactName e = None -> olderThan now age e = false.
Proof. intros H. unfold olderThan, isArtifact. by rewrite H. Qed.

Lemma flushOlderStep_artifact now age e n cur T D :
  artifactName e = Some n ->
  stat cur (fst e) = Some (snd e) ->
  flushOlderStep (now - age) {| flTotalSize := T; flDeleted := D; flFs := cur |} n
  = if olderThan now age e
    then {| flTotalSize := T + Fs.size (snd e); flDeleted := S D;
            flFs := remove (fst e) cur |}
    else {| flTotalSize := T; flDeleted := D; flFs := cur |}.
Proof.
  intros Hname Hst. unfold flushOlderStep. simpl.
  rewrite (artifactName_path _ _ Hname), Hst, (olderThan_artifact now age e n Hname).
  destruct (Fs.mtime (snd e) <? now - age)%Z; [|reflexivity].
  unfold unlink. by rewrite (stat_Some_exists _ _ _ Hst).
Qed.

(** The loop of [flushCacheOlderThan] over the entries still to visit. *)
Lemma flushOlder_loop now age (l : list (string * file)) (cur : Fs.t) T D :
  NoDup (List.map fst l) ->
  (forall e, In e l -> stat cur (fst e) = Some (snd e)) ->
  fold_left (flushOlderStep (now - age)) (omap artifactName l)
            {| flTotalSize := T; flDeleted := D; flFs := cur |}
  = {| flTotalSize := T + totalBytes (List.filter (olderThan now age) l);
       flDeleted := D + List.length (List.filter (olderThan now age) l);
       flFs := removeAll (List.filter (olderThan now age) l) cur |}.
Proof.
  revert cur T D. induction l as [|e l IH]; intros cur T D Hnd Hst.
  - simpl. f_equal; lia.
  - assert (Hnd' : NoDup (List.map fst l)) by (by apply NoDup_cons in Hnd as [_ ?]).
    assert (Hnotin : forall e', In e' l -> fst e' <> fst e).
    { intros e' He' Hk. apply NoDup_cons in Hnd as [Hn _]. apply Hn.
      rewrite <- Hk. apply list_elem_of_In, in_map, He'. }
    assert (Hst' : forall e', In e' l -> stat cur (fst e') = Some (snd e'))
      by (intros e' He'; apply Hst; by right).
    change (omap artifactName (e :: l))
      with (match artifactName e with
            | Some n => n :: omap artifactName l
            | None => omap artifactName l
            end).
    change (List.filter (olderThan now age) (e :: l))
      with (if olderThan now age e
            then e :: List.filter (olderThan now age) l
            else List.filter (olderThan now age) l).
    destruct (artifactName e) as [n|] eqn:Hname.
    + change (fold_left ?f (n :: ?r) ?st) with (fold_left f r (f st n)).
      rewrite (flushOlderStep_artifact now age e n cur T D Hname
                 (Hst e (or_introl eq_refl))).
      destruct (olderThan now age e).
      * rewrite IH; [simpl; f_equal; lia|exact Hnd'|].
        intros e' He'. rewrite stat_remove_ne by (apply Hnotin, He').
        apply Hst', He'.
      * apply IH; assumption.
    + rewrite (olderThan_other now age e Hname). apply IH; assumption.
Qed.

End FlushFacts.

(** C5. [flushCacheOlderThan(d)] removes exactly the cached artifacts
    whose age ([now - mtime]) is strictly greater than [d]: the store it
    leaves is the store without them, every other file (an artifact of
    age at most [d], or a file that is not an artifact) is kept as it
    was; it reports how many artifacts it removed and their total size,
    in MB rounded to two decimals. *)
Theorem C5_flush_older_than_exact :
  forall (now age : Z) (d : Fs.t),
    NoDup (List.map fst d) ->
    SimpleCache.flushCacheOlderThan now age d
    = ({| SimpleCache.deletedFiles := List.length (List.filter (olderThan now age) d);
          SimpleCache.totalSizeMB :=
            SimpleCache.bytesToMB (totalBytes (List.filter (olderThan now age) d)) |},
       List.filter (fun e => negb (olderThan now age e)) d).
Proof.
  intros now age d Hnd. unfold SimpleCache.flushCacheOlderThan.
  rewrite getZipFiles_artifacts.
  rewrite (flushOlder_loop now age d d 0 0 Hnd (fun e => stat_in_nodup d e Hnd)).
  simpl. rewrite (removeAll_selected _ d Hnd). reflexivity.
Qed.

Lemma C5_flush_older_than_witness :
  NoDup (List.map fst exampleCache) /\
  SimpleCache.flushCacheOlderThan 200 150 exampleCache
  = ({| SimpleCache.deletedFiles := 1; SimpleCache.totalSizeMB := 0 |},
     [ ("/tmp/photo-cache/bbbbbbbbbbbbbbbb.zip", fileOf 500 50);
       ("/tmp/photo-cache/cccccccccccccccc.zip.tmp", fileOf 70 10);
       ("/tmp/photo-cache/cccccccccccccccc.zip", fileOf 600 100) ]).
Proof.
  assert (Hnd : NoDup (List.map fst exampleCache))
    by (apply (bool_decide_unpack _); vm_compute; reflexivity).
  split; [exact Hnd|].
  rewrite (C5_flush_older_than_exact 200 150 exampleCache Hnd).
  vm_compute. reflexivity.
Defined.

Section EnforceFacts.

Import SimpleCache.

Lemma getCacheFileInfos_omap (d l : Fs.t) :
  (forall e, In e l -> Fs.stat d (fst e) = Some (snd e)) ->
  omap (fun file =>
          match Fs.stat d (Path.join [cacheDirectory; file]) with
          | Some stats =>
              Some {| name := file; path := Path.join [cacheDirectory; file];
                      size := Fs.size stats; mtime := Fs.mtime stats |}
          | None => None
          end)
       (omap artifactName l)
  = omap infoOf l.
Proof.
  induction l as [|e l IH]; intros Hst; [reflexivity|].
  assert (IH' := IH (fun e' He' => Hst e' (or_intror He'))).
  change (omap artifactName (e :: l))
    with (match artifactName e with
          | Some n => n :: omap artifactName l
          | None => omap artifactName l
          end).
  change (omap infoOf (e :: l))
    with (match infoOf e with
          | Some i => i :: omap infoOf l
          | None => omap infoOf l
          end).
  unfold infoOf at 1.
  destruct (artifactName e) as [n|] eqn:Hname; [|exact IH'].
  simpl. rewrite (artifactName_path _ _ Hname), (Hst e (or_introl eq_refl)).
  f_equal. exact IH'.
Qed.

Lemma getCacheFileInfos_infoOf (d : Fs.t) :
  NoDup (List.map fst d) -> getCacheFileInfos d = omap infoOf d.
Proof.
  intros Hnd. unfold getCacheFileInfos. rewrite getZipFiles_artifacts.
  apply getCacheFileInfos_omap. intros e He. apply stat_in_nodup; assumption.
Qed.

Lemma sumSizes_from (l : list CacheFileInfo) a :
  fold_left (fun sum file => (sum + size file)%Z) l a = (a + sumSizes l)%Z.
Proof.
  unfold sumSizes. revert a. induction l as [|x l IH]; intros a; simpl; [lia|].
  rewrite IH, (IH (0 + size x)%Z). lia.
Qed.

Lemma sumSizes_cons x (l : list CacheFileInfo) :
  sumSizes (x :: l) = (size x + sumSizes l)%Z.
Proof. unfold sumSizes at 1. simpl. rewrite sumSizes_from. lia. Qed.

Lemma in_omap_infoOf (d : Fs.t) i :
  In i (omap infoOf d) -> exists e, In e d /\ infoOf e = Some i.
Proof.
  induction d as [|e d IH]; [intros []|].
  change (omap infoOf (e :: d))
    with (match infoOf e with
          | Some i => i :: omap infoOf d
          | None => omap infoOf d
          end).
  destruct (infoOf e) as [i0|] eqn:Hi.
  - intros [<-|H]; [exists e; split; [by left|exact Hi]|].
    destruct (IH H) as (e' & He' & Hi'). exists e'. split; [by right|exact Hi'].
  - intros H. destruct (IH H) as (e' & He' & Hi'). exists e'. split; [by right|exact Hi'].
Qed.

Lemma infoOf_path e i : infoOf e = Some i -> path i = fst e.
Proof.
  unfold infoOf. destruct (artifactName e); [|discriminate]. by intros [= <-].
Qed.

Lemma infoOf_isArtifact e : isArtifact e = match infoOf e with Some _ => true | None => false end.
Proof. unfold isArtifact, infoOf. by destruct (artifactName e). Qed.

Lemma paths_omap_infoOf (d : Fs.t) :
  List.map path (omap infoOf d) = List.map fst (List.filter isArtifact d).
Proof.
  induction d as [|e d IH]; [reflexivity|].
  change (omap infoOf (e :: d))
    with (match infoOf e with
          | Some i => i :: omap infoOf d
          | None => omap infoOf d
          end).
  simpl. rewrite infoOf_isArtifact.
  destruct (infoOf e) as [i|] eqn:Hi; simpl; [|exact IH].
  by rewrite IH, (infoOf_path _ _ Hi).
Qed.

Lemma sumSizes_omap_infoOf (d : Fs.t) :
  sumSizes (omap infoOf d) = totalBytes (List.filter isArtifact d).
Proof.
  induction d as [|e d IH]; [reflexivity|].
  change (omap infoOf (e :: d))
    with (match infoOf e with
          | Some i => i :: omap infoOf d
          | None => omap infoOf d
          end).
  simpl. rewrite infoOf_isArtifact.
  destruct (infoOf e) as [i|] eqn:Hi; [|exact IH].
  rewrite sumSizes_cons, IH. simpl. f_equal.
  unfold infoOf in Hi. destruct (artifactName e); [|discriminate].
  by injection Hi as <-.
Qed.

Lemma NoDup_keys_filter (P : string * Fs.file -> bool) (d : Fs.t) :
  NoDup (List.map fst d) -> NoDup (List.map fst (List.filter P d)).
Proof.
  induction d as [|e d IH]; intros Hnd; [constructor|].
  apply NoDup_cons in Hnd as [Hnotin Hnd]. simpl.
  destruct (P e); [|by apply IH].
  simpl. apply NoDup_cons. split; [|by apply IH].
  intros Hin. apply Hnotin. apply list_elem_of_In in Hin. apply list_elem_of_In.
  apply in_map_iff in Hin as (e' & Hk & He'). apply filter_In in He' as [He' _].
  rewrite <- Hk. by apply in_map.
Qed.

(** *** Sorting by modification time *)

Lemma insertByMtime_perm x l : Permutation (insertByMtime x l) (x :: l).
Proof.
  induction l as [|y r IH]; simpl; [reflexivity|].
  destruct (mtime x <=? mtime y)%Z; [reflexivity|].
  rewrite IH. apply perm_swap.
Qed.

Lemma sortByMtime_perm l : Permutation (sortByMtime l) l.
Proof.
  induction l as [|x l IH]; simpl; [reflexivity|].
  rewrite insertByMtime_perm. by constructor.
Qed.

Lemma insertByMtime_sorted x l :
  StronglySorted notNewer l -> StronglySorted notNewer (insertByMtime x l).
Proof.
  induction 1 as [|y r Hs IH Hall]; simpl; [repeat constructor|].
  destruct (mtime x <=? mtime y)%Z eqn:Hle.
  - apply Z.leb_le in Hle. constructor; [by constructor|].
    constructor; [exact Hle|].
    eapply Forall_impl; [exact Hall|]. unfold notNewer. intros a Ha. lia.
  - apply Z.leb_gt in Hle. constructor; [exact IH|].
    rewrite insertByMtime_perm. constructor; [unfold notNewer; lia|exact Hall].
Qed.

Lemma sortByMtime_sorted l : StronglySorted notNewer (sortByMtime l).
Proof.
  induction l as [|x l IH]; simpl; [constructor|]. by apply insertByMtime_sorted.
Qed.

(** *** The deletion loop *)

Lemma exists_remove_ne d p q : p <> q -> Fs.exists_ (Fs.remove q d) p = Fs.exists_ d p.
Proof.
  intros Hne. apply eq_true_iff_eq. rewrite !exists_stat.
  by rewrite stat_remove_ne.
Qed.

Lemma withoutInfos_nil d : withoutInfos [] d = d.
Proof.
  unfold withoutInfos. induction d as [|e d IH]; simpl; [reflexivity|].
  f_equal. exact IH.
Qed.

Lemma withoutInfos_cons i deleted d :
  withoutInfos (i :: deleted) d = withoutInfos deleted (Fs.remove (path i) d).
Proof.
  unfold withoutInfos, Fs.remove, Fs.hasPath.
  induction d as [|e d IH]; simpl; [reflexivity|].
  rewrite (String.eqb_sym (path i) (fst e)).
  destruct (String.eqb (fst e) (path i)); simpl; [exact IH|].
  destruct (existsb _ deleted); simpl; [exact IH|]. f_equal. exact IH.
Qed.

Lemma enforceLoop_spec (l : list CacheFileInfo) :
  forall (cur : Fs.t) (remaining : Z),
    NoDup (List.map path l) ->
    (forall i, In i l -> Fs.exists_ cur (path i) = true) ->
    exists k : nat,
      (k <= List.length l)%nat /\
      enforceLoop l cur remaining = (firstn k l, withoutInfos (firstn k l) cur) /\
      (l <> [] -> (1 <= k)%nat) /\
      (forall j, (1 <= j)%nat -> (j < k)%nat ->
         withinLimit (bytesToMB (remaining - sumSizes (firstn j l))) = false) /\
      (withinLimit (bytesToMB (remaining - sumSizes (firstn k l))) = true
       \/ k = List.length l).
Proof.
  induction l as [|i l IH]; intros cur remaining Hnd Hex.
  - exists 0%nat. simpl. rewrite withoutInfos_nil.
    repeat split; [lia|congruence|intros; lia|by right].
  - simpl. unfold Fs.unlink. rewrite (Hex i (or_introl eq_refl)).
    apply NoDup_cons in Hnd as [Hnotin Hnd].
    destruct (withinLimit (bytesToMB (remaining - size i))) eqn:Hlim.
    + exists 1%nat. simpl. rewrite withoutInfos_cons, withoutInfos_nil.
      repeat split; [lia|intros; lia|intros; lia|].
      left. rewrite sumSizes_cons. unfold sumSizes. simpl.
      by rewrite Z.add_0_r.
    + destruct (IH (Fs.remove (path i) cur) (remaining - size i)%Z Hnd)
        as (k & Hk & Hloop & Hpos & Hmin & Hstop).
      { intros i' Hi'. rewrite exists_remove_ne; [apply Hex; by right|].
        intros Heq. apply Hnotin. rewrite <- Heq.
        apply list_elem_of_In, in_map, Hi'. }
      exists (S k). rewrite Hloop. simpl. rewrite withoutInfos_cons.
      repeat split; [lia|intros; lia| |].
      * intros j Hj1 Hjk. destruct j as [|j]; [lia|]. simpl.
        rewrite sumSizes_cons.
        destruct j as [|j].
        -- simpl. unfold sumSizes. simpl. by rewrite Z.add_0_r.
        -- replace (remaining - (size i + sumSizes (firstn (S j) l)))%Z
             with (remaining - size i - sumSizes (firstn (S j) l))%Z by lia.
           apply Hmin; lia.
      * destruct Hstop as [Hstop|Hstop]; [left|right; lia].
        rewrite sumSizes_cons.
        replace (remaining - (size i + sumSizes (firstn k l)))%Z
          with (remaining - size i - sumSizes (firstn k l))%Z by lia.
        exact Hstop.
Qed.

End EnforceFacts.

(** The size test in bytes: a total rounds to at most 5000.00 MB exactly
    when it is at most 5000.005 MB, i.e. at most 5242885242 bytes. *)
Lemma withinLimit_bytes (b : Z) :
  SimpleCache.withinLimit (SimpleCache.bytesToMB b) = true <-> (b <= 5242885242)%Z.
Proof.
  unfold SimpleCache.withinLimit, SimpleCache.bytesToMB, SimpleCache.maxCacheSizeMB.
  rewrite Z.leb_le. split; intros H; Z.div_mod_to_equations; lia.
Qed.

(** C4 (as amended). Sizes are compared in MB rounded to two decimals.
    [enforceMaxCacheSize] looks at the cached artifacts only.  When their
    total size, so rounded, is at most 5000 MB (at most 5242885242 bytes),
    nothing is deleted.  Otherwise the artifacts are unlinked in ascending
    modification-time order, oldest first: the files deleted are the first
    [k] of the list sorted by [mtime]; as long as fewer than [k] are gone
    the rounded remaining size still exceeds 5000 MB, and the loop stops
    at the first [k] where it does not, or when no artifact remains. *)
Theorem C4_size_enforcement :
  forall d : Fs.t,
    NoDup (List.map fst d) ->
    let infos := omap infoOf d in
    let total := totalBytes (List.filter isArtifact d) in
    let sorted := SimpleCache.sortByMtime infos in
    Permutation sorted infos /\
    StronglySorted notNewer sorted /\
    (SimpleCache.withinLimit (SimpleCache.bytesToMB total) = true ->
       SimpleCache.enforceMaxCacheSize d = ([], d)) /\
    (SimpleCache.withinLimit (SimpleCache.bytesToMB total) = false ->
       exists k : nat,
         (k <= List.length sorted)%nat /\
         SimpleCache.enforceMaxCacheSize d
         = (firstn k sorted, withoutInfos (firstn k sorted) d) /\
         (forall j, (j < k)%nat ->
            SimpleCache.withinLimit
              (SimpleCache.bytesToMB (total - SimpleCache.sumSizes (firstn j sorted)))
            = false) /\
         (SimpleCache.withinLimit
            (SimpleCache.bytesToMB (total - SimpleCache.sumSizes (firstn k sorted)))
          = true
          \/ k = List.length sorted)).
Proof.
  intros d Hnd infos total sorted.
  assert (Hinfos : SimpleCache.getCacheFileInfos d = infos)
    by (apply getCacheFileInfos_infoOf, Hnd).
  assert (Htotal : SimpleCache.sumSizes infos = total)
    by (apply sumSizes_omap_infoOf).
  assert (Hperm : Permutation sorted infos) by apply sortByMtime_perm.
  split; [exact Hperm|]. split; [apply sortByMtime_sorted|].
  unfold SimpleCache.enforceMaxCacheSize. rewrite Hinfos, Htotal.
  split; [intros ->; reflexivity|].
  intros Hover. rewrite Hover. fold sorted.
  destruct (enforceLoop_spec sorted d total) as (k & Hk & Hloop & _ & Hmin & Hstop).
  - rewrite (Permutation_map SimpleCache.path Hperm).
    unfold infos. rewrite paths_omap_infoOf. apply NoDup_keys_filter, Hnd.
  - intros i Hi. apply (Permutation_in _ Hperm) in Hi.
    apply in_omap_infoOf in Hi as (e & He & Hi).
    rewrite (infoOf_path _ _ Hi).
    apply (stat_Some_exists _ _ (snd e)), stat_in_nodup; assumption.
  - exists k. split; [exact Hk|]. split; [exact Hloop|]. split; [|exact Hstop].
    intros j Hj. destruct j as [|j]; [|apply Hmin; lia].
    simpl. unfold SimpleCache.sumSizes. simpl. by rewrite Z.sub_0_r.
Qed.

Lemma C4_size_enforcement_witness :
  exists k : nat,
    (k <= List.length (SimpleCache.sortByMtime (omap infoOf fullCache)))%nat /\
    SimpleCache.enforceMaxCacheSize fullCache
    = (firstn k (SimpleCache.sortByMtime (omap infoOf fullCache)),
       withoutInfos (firstn k (SimpleCache.sortByMtime (omap infoOf fullCache))) fullCache) /\
    (forall j, (j < k)%nat ->
       SimpleCache.withinLimit
         (SimpleCache.bytesToMB
            (totalBytes (List.filter isArtifact fullCache)
             - SimpleCache.sumSizes
                 (firstn j (SimpleCache.sortByMtime (omap infoOf fullCache)))))
       = false) /\
    (SimpleCache.withinLimit
       (SimpleCache.bytesToMB
          (totalBytes (List.filter isArtifact fullCache)
           - SimpleCache.sumSizes
               (firstn k (SimpleCache.sortByMtime (omap infoOf fullCache)))))
     = true
     \/ k = List.length (SimpleCache.sortByMtime (omap infoOf fullCache))).
Proof.
  apply (C4_size_enforcement fullCache).
  - apply (bool_decide_unpack _). vm_compute. reflexivity.
  - vm_compute. reflexivity.
Defined.

(** Three artifacts of 2000 MB: the oldest one goes, the other two stay. *)
Example enforce_fullCache :
  SimpleCache.enforceMaxCacheSize fullCache
  = ([ {| SimpleCache.name := "bbbbbbbbbbbbbbbb.zip";
          SimpleCache.path := "/tmp/photo-cache/bbbbbbbbbbbbbbbb.zip";
          SimpleCache.size := 2097152000; SimpleCache.mtime := 10 |} ],
     [ ("/tmp/photo-cache/aaaaaaaaaaaaaaaa.zip", fileOf 2097152000 20);
       ("/tmp/photo-cache/cccccccccccccccc.zip", fileOf 2097152000 30) ]).
Proof. vm_compute. reflexivity. Qed.

(** C4 as stated fails just above the ceiling: one artifact of 5000 MB and
    one byte exceeds 5000 MB, yet its size rounds to 5000.00 MB and
    nothing is deleted. *)
Lemma C4_counterexample :
  (totalBytes (List.filter isArtifact justOverCache) > 5000 * 1024 * 1024)%Z /\
  SimpleCache.enforceMaxCacheSize justOverCache = ([], justOverCache).
Proof. split; [vm_compute; reflexivity|vm_compute; reflexivity]. Qed.

(** ** Files that are not artifacts *)

Section FrameFacts.

Import SimpleCache.

Lemma length_append s t :
  String.length (s ++ t) = (String.length s + String.length t)%nat.
Proof. induction s as [|c r IH]; simpl; [reflexivity|]. by rewrite IH. Qed.

Lemma endsWith_zip_tmp key : endsWith (key ++ ".zip.tmp") ".zip" = false.
Proof.
  induction key as [|c r IH]; [reflexivity|].
  change (endsWith (String c r ++ ".zip.tmp") ".zip")
    with (String.eqb (String c (r ++ ".zip.tmp")) ".zip"
          || endsWith (r ++ ".zip.tmp") ".zip").
  rewrite IH, orb_false_r. apply String.eqb_neq. intros H.
  apply (f_equal String.length) in H. simpl in H.
  rewrite length_append in H. simpl in H. lia.
Qed.

Lemma artifactName_zipName e n : artifactName e = Some n -> zipName n = true.
Proof.
  unfold artifactName, zipName.
  destruct (Fs.childName cacheDirectory (fst e)) as [m|] eqn:E; [|discriminate].
  destruct (endsWith m ".zip") eqn:Hz; [|discriminate].
  intros [= <-]. apply childName_spec in E as [_ ->]. by rewrite Hz.
Qed.

Lemma zipName_artifact n f :
  zipName n = true -> artifactName (Path.join [cacheDirectory; n], f) = Some n.
Proof.
  unfold zipName. intros H. apply andb_true_iff in H as [Hp Hz].
  unfold artifactName. simpl. rewrite (cachePath_proper _ Hp).
  assert (E : Fs.childName cacheDirectory ("/tmp/photo-cache/" ++ n) = Some n)
    by (apply childName_spec; auto).
  by rewrite E, Hz.
Qed.

Lemma isArtifact_key e f : isArtifact (fst e, f) = isArtifact e.
Proof. reflexivity. Qed.

Lemma hasPath_zipName_artifact n e :
  zipName n = true ->
  Fs.hasPath (Path.join [cacheDirectory; n]) e = true -> isArtifact e = true.
Proof.
  intros Hn Hp. apply hasPath_eq in Hp.
  rewrite <- (isArtifact_key e (snd e)), Hp. unfold isArtifact.
  by rewrite (zipName_artifact _ _ Hn).
Qed.

Lemma omap_artifactName_zipOnly d :
  omap artifactName (zipOnly d) = omap artifactName d.
Proof.
  unfold zipOnly. induction d as [|e d IH]; [reflexivity|].
  change (omap artifactName (e :: d))
    with (match artifactName e with
          | Some n => n :: omap artifactName d
          | None => omap artifactName d
          end).
  simpl. unfold isArtifact at 1.
  destruct (artifactName e) as [n|] eqn:Hn; [|exact IH].
  change (omap artifactName (e :: List.filter isArtifact d))
    with (match artifactName e with
          | Some n => n :: omap artifactName (List.filter isArtifact d)
          | None => omap artifactName (List.filter isArtifact d)
          end).
  rewrite Hn. f_equal. exact IH.
Qed.

Lemma getZipFiles_zipOnly d : getZipFiles (zipOnly d) = getZipFiles d.
Proof. rewrite !getZipFiles_artifacts. apply omap_artifactName_zipOnly. Qed.

Lemma zipNames_listed d : Forall (fun n => zipName n = true) (getZipFiles d).
Proof.
  rewrite getZipFiles_artifacts. induction d as [|e d IH]; [constructor|].
  change (omap artifactName (e :: d))
    with (match artifactName e with
          | Some n => n :: omap artifactName d
          | None => omap artifactName d
          end).
  destruct (artifactName e) as [n|] eqn:Hn; [|exact IH].
  constructor; [exact (artifactName_zipName _ _ Hn)|exact IH].
Qed.

Lemma stat_zipOnly d n :
  zipName n = true ->
  Fs.stat (zipOnly d) (Path.join [cacheDirectory; n])
  = Fs.stat d (Path.join [cacheDirectory; n]).
Proof.
  intros Hn. unfold Fs.stat, zipOnly.
  induction d as [|e d IH]; [reflexivity|]. simpl.
  destruct (Fs.hasPath _ e) eqn:Hp.
  - rewrite (hasPath_zipName_artifact _ _ Hn Hp). simpl. by rewrite Hp.
  - destruct (isArtifact e); simpl; [by rewrite Hp|exact IH].
Qed.

Lemma exists_zipOnly d n :
  zipName n = true ->
  Fs.exists_ (zipOnly d) (Path.join [cacheDirectory; n])
  = Fs.exists_ d (Path.join [cacheDirectory; n]).
Proof.
  intros Hn. apply eq_true_iff_eq. rewrite !exists_stat. by rewrite stat_zipOnly.
Qed.

Lemma remove_zipOnly p d : Fs.remove p (zipOnly d) = zipOnly (Fs.remove p d).
Proof.
  unfold Fs.remove, zipOnly. induction d as [|e d IH]; [reflexivity|]. simpl.
  destruct (isArtifact e) eqn:Ha, (Fs.hasPath p e) eqn:Hp; simpl;
    rewrite ?Ha, ?Hp; simpl; try exact IH; f_equal; exact IH.
Qed.

Lemma others_remove d n :
  zipName n = true -> others (Fs.remove (Path.join [cacheDirectory; n]) d) = others d.
Proof.
  intros Hn. unfold Fs.remove, others. induction d as [|e d IH]; [reflexivity|]. simpl.
  destruct (Fs.hasPath _ e) eqn:Hp; simpl.
  - by rewrite (hasPath_zipName_artifact _ _ Hn Hp).
  - destruct (isArtifact e); simpl; [exact IH|f_equal; exact IH].
Qed.

Lemma unlink_zipOnly d n :
  zipName n = true ->
  Fs.unlink (zipOnly d) (Path.join [cacheDirectory; n])
  = zipOnly <$> Fs.unlink d (Path.join [cacheDirectory; n]).
Proof.
  intros Hn. unfold Fs.unlink. rewrite (exists_zipOnly _ _ Hn).
  destruct (Fs.exists_ d _); simpl; [by rewrite remove_zipOnly|reflexivity].
Qed.

Lemma unlink_others d n d1 :
  zipName n = true ->
  Fs.unlink d (Path.join [cacheDirectory; n]) = Some d1 -> others d1 = others d.
Proof.
  intros Hn. unfold Fs.unlink. destruct (Fs.exists_ d _); [|discriminate].
  intros [= <-]. by apply others_remove.
Qed.

End FrameFacts.

Section FrameLoops.

Import SimpleCache.

Lemma statsStep_zipOnly d names acc :
  Forall (fun n => zipName n = true) names ->
  fold_left (statsStep (zipOnly d)) names acc = fold_left (statsStep d) names acc.
Proof.
  intros H. revert acc. induction H as [|n names Hn _ IH]; intros acc; [reflexivity|].
  simpl. rewrite IH. f_equal. unfold statsStep. by rewrite (stat_zipOnly _ _ Hn).
Qed.

Lemma getCacheStats_zipOnly now d : getCacheStats now (zipOnly d) = getCacheStats now d.
Proof.
  unfold getCacheStats. rewrite getZipFiles_zipOnly.
  by rewrite (statsStep_zipOnly d _ _ (zipNames_listed d)).
Qed.

Lemma flushOlderStep_zipOnly cutoff st n :
  zipName n = true ->
  flushOlderStep cutoff (onFs zipOnly st) n = onFs zipOnly (flushOlderStep cutoff st n)
  /\ others (flFs (flushOlderStep cutoff st n)) = others (flFs st).
Proof.
  intros Hn. unfold flushOlderStep. simpl.
  rewrite (stat_zipOnly _ _ Hn), (unlink_zipOnly _ _ Hn).
  destruct (Fs.stat (flFs st) _) as [stats|]; [|by destruct st].
  destruct (Fs.mtime stats <? cutoff)%Z; [|by destruct st].
  destruct (Fs.unlink (flFs st) _) as [d1|] eqn:Hu; simpl; [|done].
  split; [reflexivity|]. exact (unlink_others _ _ _ Hn Hu).
Qed.

Lemma flushAllStep_zipOnly st n :
  zipName n = true ->
  flushAllStep (onFs zipOnly st) n = onFs zipOnly (flushAllStep st n)
  /\ others (flFs (flushAllStep st n)) = others (flFs st).
Proof.
  intros Hn. unfold flushAllStep. simpl.
  rewrite (stat_zipOnly _ _ Hn), (unlink_zipOnly _ _ Hn).
  destruct (Fs.stat (flFs st) _) as [stats|]; [|by destruct st].
  destruct (Fs.unlink (flFs st) _) as [d1|] eqn:Hu; simpl; [|done].
  split; [reflexivity|]. exact (unlink_others _ _ _ Hn Hu).
Qed.

Lemma flush_loop_zipOnly (stepFn : flushState -> string -> flushState) names :
  (forall st n, zipName n = true ->
     stepFn (onFs zipOnly st) n = onFs zipOnly (stepFn st n)
     /\ others (flFs (stepFn st n)) = others (flFs st)) ->
  Forall (fun n => zipName n = true) names ->
  forall st,
    fold_left stepFn names (onFs zipOnly st) = onFs zipOnly (fold_left stepFn names st)
    /\ others (flFs (fold_left stepFn names st)) = others (flFs st).
Proof.
  intros Hstep H. induction H as [|n names Hn _ IH]; intros st; [done|].
  simpl. destruct (Hstep st n Hn) as [H1 H2]. rewrite H1.
  destruct (IH (stepFn st n)) as [H3 H4]. by rewrite H3, H4, H2.
Qed.

Lemma getCacheFileInfos_listed d : Forall listedInfo (getCacheFileInfos d).
Proof.
  unfold getCacheFileInfos.
  pose proof (zipNames_listed d) as H. induction H as [|n names Hn _ IH]; [constructor|].
  change (omap ?f (n :: names))
    with (match f n with
          | Some i => i :: omap f names
          | None => omap f names
          end).
  cbv beta. destruct (Fs.stat d _); [|exact IH].
  constructor; [split; [exact Hn|reflexivity]|exact IH].
Qed.

Lemma getCacheFileInfos_zipOnly d : getCacheFileInfos (zipOnly d) = getCacheFileInfos d.
Proof.
  unfold getCacheFileInfos. rewrite getZipFiles_zipOnly.
  pose proof (zipNames_listed d) as H. induction H as [|n names Hn _ IH]; [reflexivity|].
  change (omap ?f (n :: names))
    with (match f n with
          | Some i => i :: omap f names
          | None => omap f names
          end).
  cbv beta. rewrite (stat_zipOnly _ _ Hn), IH. reflexivity.
Qed.

Lemma enforceLoop_zipOnly l :
  Forall listedInfo l ->
  forall cur remaining,
    enforceLoop l (zipOnly cur) remaining
    = (fst (enforceLoop l cur remaining), zipOnly (snd (enforceLoop l cur remaining)))
    /\ others (snd (enforceLoop l cur remaining)) = others cur.
Proof.
  intros H. induction H as [|i l [Hn Hp] _ IH]; intros cur remaining; [done|].
  simpl. rewrite Hp, (unlink_zipOnly _ _ Hn).
  destruct (Fs.unlink cur _) as [d1|] eqn:Hu; simpl; [|apply IH].
  pose proof (unlink_others _ _ _ Hn Hu) as Hd1.
  destruct (withinLimit _); simpl; [done|].
  destruct (IH d1 (remaining - size i)%Z) as [H1 H2]. rewrite H1.
  destruct (enforceLoop l d1 _) as [deleted d2]. simpl in *. by rewrite H2.
Qed.

End FrameLoops.

(** C10. The cache-management operations work on the artifacts alone,
    the files directly in the cache directory whose name ends in [.zip].
    Statistics, size enforcement, the age flush and the full flush give
    the same results on a store as on its artifacts alone, and leave
    every other file of the store in place, unchanged.  A temporary
    file [<key>.zip.tmp] of the cache directory is such another file. *)
Theorem C10_only_zip_files_are_managed :
  forall (now age : Z) (d : Fs.t),
    SimpleCache.getCacheStats now (zipOnly d) = SimpleCache.getCacheStats now d /\
    (SimpleCache.enforceMaxCacheSize (zipOnly d)
     = (fst (SimpleCache.enforceMaxCacheSize d),
        zipOnly (snd (SimpleCache.enforceMaxCacheSize d))) /\
     others (snd (SimpleCache.enforceMaxCacheSize d)) = others d) /\
    (SimpleCache.flushCacheOlderThan now age (zipOnly d)
     = (fst (SimpleCache.flushCacheOlderThan now age d),
        zipOnly (snd (SimpleCache.flushCacheOlderThan now age d))) /\
     others (snd (SimpleCache.flushCacheOlderThan now age d)) = others d) /\
    (SimpleCache.flushAllCache (zipOnly d)
     = (fst (SimpleCache.flushAllCache d), zipOnly (snd (SimpleCache.flushAllCache d))) /\
     others (snd (SimpleCache.flushAllCache d)) = others d) /\
    (forall (key : string) (f : Fs.file),
       isArtifact ("/tmp/photo-cache/" ++ key ++ ".zip.tmp", f) = false).
Proof.
  intros now age d. split; [apply getCacheStats_zipOnly|]. split; [|split; [|split]].
  - unfold SimpleCache.enforceMaxCacheSize. rewrite getCacheFileInfos_zipOnly.
    destruct (SimpleCache.withinLimit _); [done|].
    apply enforceLoop_zipOnly.
    rewrite sortByMtime_perm. apply getCacheFileInfos_listed.
  - unfold SimpleCache.flushCacheOlderThan. rewrite getZipFiles_zipOnly.
    destruct (flush_loop_zipOnly (SimpleCache.flushOlderStep (now - age))
                (SimpleCache.getZipFiles d)
                (flushOlderStep_zipOnly (now - age)) (zipNames_listed d)
                {| SimpleCache.flTotalSize := 0; SimpleCache.flDeleted := 0;
                   SimpleCache.flFs := d |}) as [H1 H2].
    unfold onFs in H1 at 1. simpl in H1. rewrite H1. simpl. done.
  - unfold SimpleCache.flushAllCache. rewrite getZipFiles_zipOnly.
    destruct (flush_loop_zipOnly SimpleCache.flushAllStep
                (SimpleCache.getZipFiles d)
                flushAllStep_zipOnly (zipNames_listed d)
                {| SimpleCache.flTotalSize := 0; SimpleCache.flDeleted := 0;
                   SimpleCache.flFs := d |}) as [H1 H2].
    unfold onFs in H1 at 1. simpl in H1. rewrite H1. simpl. done.
  - intros key f. unfold isArtifact, artifactName. simpl fst.
    destruct (Fs.childName SimpleCache.cacheDirectory _) as [n|] eqn:E; [|reflexivity].
    apply childName_spec in E as [E _].
    assert (n = key ++ ".zip.tmp") as ->.
    { simpl in E. by repeat injection E as E. }
    by rewrite endsWith_zip_tmp.
Qed.

(** The abandoned temporary file of [exampleCache] survives a full flush
    and is absent from the statistics. *)
Example flushAll_exampleCache :
  SimpleCache.flushAllCache exampleCache
  = ({| SimpleCache.deletedFiles := 3; SimpleCache.totalSizeMB := 0 |},
     [ ("/tmp/photo-cache/cccccccccccccccc.zip.tmp", fileOf 70 10) ])
  /\ SimpleCache.fileCount (SimpleCache.getCacheStats 3600000 exampleCache) = 3%nat.
Proof. split; vm_compute; reflexivity. Qed.

(** ** Lookup *)

Section LookupFacts.

Import Async Service.

Lemma perform_possible {A : Type} e w (o : op A) :
  writes o = false ->
  files (fst (perform e w o)) = files w /\ possible (files w) o (snd (perform e w o)).
Proof.
  destruct o; simpl; try discriminate; intros _;
    try (destruct (cacheFails e); simpl; auto); auto.
Qed.

Lemma answers_run {R : Type} d (Q : R -> Prop) (p : prog R) :
  forall env w,
    files w = d -> answers d Q p ->
    Q (fst (run p env w)) /\ files (snd (run p env w)) = d.
Proof.
  induction p as [r|A o k IH]; intros env w Hd Hp; simpl in *; [auto|].
  destruct Hp as [Hw Hk].
  destruct (perform_possible (env 0%nat) w o Hw) as [Hf Hposs].
  destruct (perform (env 0%nat) w o) as [w1 a]. simpl in *.
  apply IH; [congruence|]. apply Hk. by rewrite <- Hd.
Qed.

Lemma answers_step {R : Type} d (Q : R -> Prop) (p : prog R) e w :
  files w = d -> answers d Q p ->
  files (fst (step e w p)) = d /\ answers d Q (snd (step e w p)).
Proof.
  intros Hd Hp. destruct p as [r|A o k]; simpl in *; [auto|].
  destruct Hp as [Hw Hk].
  destruct (perform_possible e w o Hw) as [Hf Hposs].
  destruct (perform e w o) as [w1 a]. simpl in *.
  split; [congruence|]. apply Hk. by rewrite <- Hd.
Qed.

Lemma answers_bind {A B : Type} d (Q : A -> Prop) (Q' : B -> Prop)
      (m : prog A) (f : A -> prog B) :
  answers d Q m -> (forall a, Q a -> answers d Q' (f a)) -> answers d Q' (bind m f).
Proof.
  intros Hm Hf. induction m as [r|T o k IH]; simpl in *; [by apply Hf|].
  destruct Hm as [Hw Hk]. split; [exact Hw|]. intros a Ha. apply IH, Hk, Ha.
Qed.

Lemma answers_weaken {R : Type} d (Q Q' : R -> Prop) (p : prog R) :
  (forall r, Q r -> Q' r) -> answers d Q p -> answers d Q' p.
Proof.
  intros HQ. induction p as [r|T o k IH]; simpl; [apply HQ|].
  intros [Hw Hk]. split; [exact Hw|]. intros a Ha. apply IH, Hk, Ha.
Qed.

(** Symbolic execution of an awaited program: every call is entered,
    every reply is split into its cases. *)
Ltac walk :=
  repeat (simpl;
          match goal with
          | |- _ /\ _ => split; [reflexivity|]
          | |- forall a, a = _ -> _ => intros ? ->
          | |- forall a, True -> _ => intros ? _
          | |- context [match ?a with _ => _ end] => destruct a eqn:?
          end).

(** Whatever the memory cache replies, a non-null result of
    [getCachedZip] has been seen to exist. *)
Lemma getCachedZip_answers d directoryPaths :
  answers d (fun r => forall p, r = Some p -> Fs.exists_ d p = true)
          (getCachedZip directoryPaths).
Proof.
  unfold getCachedZip, incrementStat, tryCatch, bindOk, await.
  generalize (SimpleCache.getZipPath directoryPaths) as zipPath.
  generalize (CacheKey.generateCacheKey directoryPaths) as cacheKey.
  intros cacheKey zipPath.
  walk; intros p Hp; first [discriminate | injection Hp as <-; assumption].
Qed.

End LookupFacts.

Section LookupResult.

Import Async Service.

Lemma normalize_nonempty p : Path.normalize p <> "".
Proof.
  unfold Path.normalize. destruct (String.eqb p ""); [discriminate|].
  destruct (String.eqb (Path.normalizeString p _) "") eqn:E.
  - destruct (Path.startsWithSlash p), (Path.endsWithSlash p); discriminate.
  - apply String.eqb_neq in E.
    destruct (Path.startsWithSlash p); [discriminate|].
    destruct (Path.endsWithSlash p); [apply append_nonempty_l|]; exact E.
Qed.

Lemma join_nonempty args : Path.join args <> "".
Proof.
  unfold Path.join. destruct (List.filter _ args); [discriminate|].
  apply normalize_nonempty.
Qed.

Lemma truthy_zipPath directoryPaths :
  truthy (Some (SimpleCache.getZipPath directoryPaths))
  = Some (SimpleCache.getZipPath directoryPaths).
Proof.
  unfold truthy.
  destruct (String.eqb_spec (SimpleCache.getZipPath directoryPaths) "") as [E|E];
    [|reflexivity].
  exfalso. exact (join_nonempty _ E).
Qed.

(** With a working memory cache, a stale entry is deleted and the
    lookup misses. *)
Lemma getCachedZip_stale directoryPaths env w :
  cachedPaths w !! CacheKey.generateCacheKey directoryPaths
    = Some (SimpleCache.getZipPath directoryPaths) ->
  Fs.exists_ (files w) (SimpleCache.getZipPath directoryPaths) = false ->
  (forall i, cacheFails (env i) = false) ->
  fst (run (getCachedZip directoryPaths) env w) = None /\
  cachedPaths (snd (run (getCachedZip directoryPaths) env w))
    !! CacheKey.generateCacheKey directoryPaths = None.
Proof.
  intros Hcached Hgone Henv.
  unfold getCachedZip, incrementStat, tryCatch, bindOk, await.
  pose proof (truthy_zipPath directoryPaths) as Htruthy.
  revert Hcached Hgone Htruthy.
  generalize (SimpleCache.getZipPath directoryPaths) as zipPath.
  generalize (CacheKey.generateCacheKey directoryPaths) as cacheKey.
  intros cacheKey zipPath Hcached Hgone Htruthy.
  simpl. rewrite !Henv. simpl. rewrite Hcached, Htruthy. simpl.
  rewrite Hgone. simpl. rewrite !Henv. simpl. rewrite Hgone. simpl.
  rewrite !Henv. simpl. rewrite !Henv. simpl.
  split; [reflexivity|]. apply lookup_delete_eq.
Qed.

(** A stale entry, whatever the memory cache does: the lookup misses;
    the entry goes exactly when [get] and [del] both succeed. *)
Lemma getCachedZip_stale_cases directoryPaths env w p :
  cachedPaths w !! CacheKey.generateCacheKey directoryPaths = Some p ->
  p <> "" ->
  Fs.exists_ (files w) p = false ->
  Fs.exists_ (files w) (SimpleCache.getZipPath directoryPaths) = false ->
  fst (run (getCachedZip directoryPaths) env w) = None /\
  (cacheFails (env 0%nat) = false -> cacheFails (env 2%nat) = false ->
   cachedPaths (snd (run (getCachedZip directoryPaths) env w))
     !! CacheKey.generateCacheKey directoryPaths = None) /\
  (cacheFails (env 0%nat) = true \/ cacheFails (env 2%nat) = true ->
   cachedPaths (snd (run (getCachedZip directoryPaths) env w))
     !! CacheKey.generateCacheKey directoryPaths = Some p).
Proof.
  intros Hcached Hp Hgone Hzip.
  unfold getCachedZip, incrementStat, tryCatch, bindOk, await.
  revert Hcached Hzip.
  generalize (SimpleCache.getZipPath directoryPaths) as zipPath.
  generalize (CacheKey.generateCacheKey directoryPaths) as cacheKey.
  intros cacheKey zipPath Hcached Hzip.
  apply String.eqb_neq in Hp.
  simpl. destruct (cacheFails (env 0%nat)) eqn:E0; simpl.
  - rewrite Hzip. simpl. split; [reflexivity|]. split; [discriminate|]. intros _. exact Hcached.
  - rewrite Hcached. simpl. rewrite Hp. simpl. rewrite Hgone. simpl.
    destruct (cacheFails (env 2%nat)) eqn:E2; simpl.
    + rewrite Hzip. simpl. split; [reflexivity|]. split; [discriminate|].
      intros _. exact Hcached.
    + rewrite Hzip. simpl.
      destruct (cacheFails (env 4%nat)); simpl;
        [|destruct (cacheFails (env 5%nat)); simpl].
      all: split; [reflexivity|]; split;
        [intros _ _; apply lookup_delete_eq | intros [H|H]; discriminate].
Qed.

End LookupResult.

(** C6 (as amended). [getCachedZip] never hands out the path of a
    missing file: a non-null result is a path whose file exists in the
    store, which the lookup leaves untouched, whatever the memory cache
    does.  When the memory cache names, under the key, a file that is
    gone, and no ZIP is on disk under the key's own path, the lookup
    returns null whatever the memory cache does; the stale entry is
    deleted when the [get] and the [del] call of the memory cache both
    succeed, and stays when either is rejected. *)
Theorem C6_lookup_self_heals :
  forall (directoryPaths : list string) (env : nat -> Async.event) (w : Async.world),
    let r := Async.run (Service.getCachedZip directoryPaths) env w in
    Async.files (snd r) = Async.files w /\
    (forall p, fst r = Some p -> Fs.exists_ (Async.files w) p = true) /\
    (forall p,
       Async.cachedPaths w !! CacheKey.generateCacheKey directoryPaths = Some p ->
       p <> "" ->
       Fs.exists_ (Async.files w) p = false ->
       Fs.exists_ (Async.files w) (SimpleCache.getZipPath directoryPaths) = false ->
       fst r = None /\
       (Async.cacheFails (env 0%nat) = false -> Async.cacheFails (env 2%nat) = false ->
        Async.cachedPaths (snd r) !! CacheKey.generateCacheKey directoryPaths = None) /\
       (Async.cacheFails (env 0%nat) = true \/ Async.cacheFails (env 2%nat) = true ->
        Async.cachedPaths (snd r) !! CacheKey.generateCacheKey directoryPaths = Some p)).
Proof.
  intros directoryPaths env w r.
  destruct (answers_run (Async.files w) _ _ env w eq_refl
              (getCachedZip_answers (Async.files w) directoryPaths)) as [Hres Hfiles].
  split; [exact Hfiles|]. split; [exact Hres|].
  intros p. apply getCachedZip_stale_cases.
Qed.

Lemma C6_lookup_witness :
  fst (Async.run (Service.getCachedZip ["events/gala"]) (fun _ => Async.calm) staleWorld)
    = None /\
  Async.cachedPaths
    (snd (Async.run (Service.getCachedZip ["events/gala"]) (fun _ => Async.calm) staleWorld))
    !! CacheKey.generateCacheKey ["events/gala"] = None.
Proof.
  destruct (C6_lookup_self_heals ["events/gala"] (fun _ => Async.calm) staleWorld)
    as (_ & _ & Hstale).
  destruct (Hstale (SimpleCache.getZipPath ["events/gala"])) as (Hnone & Hgone & _);
    [vm_compute; reflexivity | vm_compute; discriminate
    | vm_compute; reflexivity | vm_compute; reflexivity |].
  split; [exact Hnone|]. apply Hgone; reflexivity.
Defined.

(** C6 as stated fails when the memory cache rejects the [del] call: the
    entry of [staleWorld] names a ZIP that is gone, the lookup runs into
    the rejection, falls back to the file system and returns null, and
    the stale entry is still there afterwards. *)
Lemma C6_counterexample :
  Async.cachedPaths staleWorld !! CacheKey.generateCacheKey ["events/gala"]
    = Some (SimpleCache.getZipPath ["events/gala"]) /\
  Fs.exists_ (Async.files staleWorld) (SimpleCache.getZipPath ["events/gala"]) = false /\
  fst (Async.run (Service.getCachedZip ["events/gala"]) delRejected staleWorld) = None /\
  Async.cachedPaths
    (snd (Async.run (Service.getCachedZip ["events/gala"]) delRejected staleWorld))
    !! CacheKey.generateCacheKey ["events/gala"]
  = Some (SimpleCache.getZipPath ["events/gala"]).
Proof. repeat split; vm_compute; reflexivity. Qed.

(** ** Concurrent downloads *)

Section DownloadFacts.

Import Async Service.

Variable d : Fs.t.
Variable dirs : list string.

Let key := CacheKey.generateCacheKey dirs.
Let zipPath := SimpleCache.getZipPath dirs.

Hypothesis zipAbsent : Fs.exists_ d zipPath = false.

Ltac walkStreams :=
  repeat (simpl;
          match goal with
          | |- _ /\ _ => split; [reflexivity|]
          | |- (_ = _ -> _) /\ _ => split
          | |- True /\ _ => split; [exact I|]
          | |- forall a, a = _ -> _ => intros ? ->
          | |- forall a, True -> _ => intros ? _
          | |- forall a, match a with _ => _ end -> _ => intros [[?|]|] ?
          | |- context [match ?a with _ => _ end] => destruct a eqn:?
          end).

Lemma download_streams : streams d key dirs false 7 (download dirs).
Proof.
  unfold download, getCachedZip, incrementStat, tryCatch, bindOk, await.
  fold key zipPath. clearbody key.
  pose proof zipAbsent as Habs. clearbody zipPath.
  walkStreams; try congruence; try (intros; congruence).
  all: repeat match goal with
              | H : (if String.eqb ?s "" then None else Some ?s) = Some _ |- _ =>
                  destruct (String.eqb s ""); [discriminate|injection H as <-]
              | H : ?k = ?k -> _ |- _ => specialize (H eq_refl)
              end.
  all: congruence.
Qed.

Lemma streams_finished b n p :
  streams d key dirs b n p ->
  finished (Download p) = b /\ (b = true -> p = Ret (ServeRealTime dirs)).
Proof.
  destruct p as [r|A o k]; simpl.
  - intros [-> ->]. auto.
  - destruct n; [intros []|]. intros (-> & _). split; [reflexivity|discriminate].
Qed.

Lemma perform_streams {A : Type} e w (o : op A) :
  files w = d -> staleKey d key w ->
  writes o = false -> startsFor dirs o -> keepsStale d key o ->
  files (fst (perform e w o)) = d /\
  staleKey d key (fst (perform e w o)) /\
  mayReply d key o (snd (perform e w o)) /\
  assemblies (fst (perform e w o))
  = (assemblies w ++ (if isStart o then [dirs] else []))%list.
Proof.
  intros Hd Hstale Hw Hstart Hkeep.
  destruct o; simpl in *; try discriminate;
    try (destruct (cacheFails e); simpl);
    rewrite ?app_nil_r; repeat split; auto; try (by rewrite Hd).
  - destruct (cachedPaths w !! key0) as [v|] eqn:E; [|exact I].
    intros ->. by apply Hstale.
  - intros v' Hv'. simpl in Hv'.
    destruct (decide (key0 = key)) as [->|Hne].
    + rewrite lookup_insert_eq in Hv'. injection Hv' as <-. by apply Hkeep.
    + rewrite lookup_insert_ne in Hv' by exact Hne. by apply Hstale.
  - intros v' Hv'. simpl in Hv'.
    destruct (decide (key0 = key)) as [->|Hne].
    + by rewrite lookup_delete_eq in Hv'.
    + rewrite lookup_delete_ne in Hv' by exact Hne. by apply Hstale.
  - by rewrite Hstart.
  - by rewrite Hstart.
Qed.

Lemma streams_step e w b n p :
  files w = d -> staleKey d key w -> streams d key dirs b n p ->
  files (fst (step e w p)) = d /\
  staleKey d key (fst (step e w p)) /\
  ((b = true /\ step e w p = (w, p)) \/
   (b = false /\
    exists n' b', n = S n' /\ streams d key dirs b' n' (snd (step e w p)) /\
                  assemblies (fst (step e w p))
                  = (assemblies w ++ (if b' then [dirs] else []))%list)).
Proof.
  intros Hd Hstale Hp. destruct p as [r|A o k]; simpl in *.
  - destruct Hp as [-> _]. auto.
  - destruct n as [|n']; [destruct Hp|].
    destruct Hp as (-> & Hw & Hstart & Hkeep & Hk).
    destruct (perform_streams e w o Hd Hstale Hw Hstart Hkeep)
      as (Hf & Hs & Hr & Ha).
    destruct (perform e w o) as [w1 a]. simpl in *.
    split; [exact Hf|]. split; [exact Hs|]. right. split; [reflexivity|].
    exists n', (isStart o). split; [reflexivity|]. split; [by apply Hk|exact Ha].
Qed.

Lemma countFinished_insert (ts : list thread) i t t' :
  ts !! i = Some t ->
  (countFinished (<[i := t']> ts) + (if finished t then 1 else 0)
   = countFinished ts + (if finished t' then 1 else 0))%nat.
Proof.
  unfold countFinished. revert i.
  induction ts as [|t0 ts IH]; intros i Hi; [discriminate|].
  destruct i as [|i]; simpl in *.
  - injection Hi as ->. destruct (finished t), (finished t'); simpl; lia.
  - specialize (IH i Hi). destruct (finished t0); simpl; lia.
Qed.

Lemma countFinished_all (ts : list thread) :
  (forall i t, ts !! i = Some t -> finished t = true) ->
  countFinished ts = List.length ts.
Proof.
  unfold countFinished. induction ts as [|t ts IH]; intros H; [reflexivity|].
  simpl. rewrite (H 0%nat t eq_refl). simpl. f_equal.
  apply IH. intros i t' Hi. exact (H (S i) t' Hi).
Qed.

Lemma picks_snoc i schedule x :
  picks i (schedule ++ [x]) = (picks i schedule + (if Nat.eqb (fst x) i then 1 else 0))%nat.
Proof.
  unfold picks. rewrite List.filter_app, length_app. simpl.
  by destruct (Nat.eqb (fst x) i).
Qed.

Lemma poolInv_init w0 N :
  files w0 = d -> staleKey d key w0 ->
  poolInv d dirs (assemblies w0) [] (w0, replicate N (Download (download dirs))).
Proof.
  intros Hd Hstale. unfold poolInv. simpl. fold key.
  split; [exact Hd|]. split; [exact Hstale|]. split.
  - assert (countFinished (replicate N (Download (download dirs))) = 0%nat) as ->.
    { pose proof (proj1 (streams_finished _ _ _ download_streams)) as Hf.
      unfold countFinished. induction N as [|N IH]; [reflexivity|].
      change (replicate (S N) ?t) with (t :: replicate N t).
      change (List.filter finished (?t :: ?l))
        with (if finished t then t :: List.filter finished l
              else List.filter finished l).
      rewrite Hf. exact IH. }
    simpl. by rewrite app_nil_r.
  - intros i t Hi. apply lookup_replicate in Hi as [-> _].
    exists (download dirs), false, 7%nat.
    split; [reflexivity|]. split; [exact download_streams|]. intros _. reflexivity.
Qed.

Lemma poolInv_step started0 schedule st x :
  poolInv d dirs started0 schedule st ->
  poolInv d dirs started0 (schedule ++ [x]) (stepPool st x).
Proof.
  destruct st as [w ts]. destruct x as [i e].
  unfold poolInv, stepPool. simpl. fold key.
  intros (Hd & Hstale & Hasm & Hts).
  destruct (ts !! i) as [t|] eqn:Hi.
  - destruct (Hts i t Hi) as (p & b & n & -> & Hp & Hfuel).
    simpl.
    destruct (streams_step e w b n p Hd Hstale Hp) as (Hd' & Hstale' & Hcase).
    destruct (step e w p) as [w1 p1] eqn:Hstep. simpl in *.
    split; [exact Hd'|]. split; [exact Hstale'|].
    destruct Hcase as [[-> Heq]|(-> & n' & b' & -> & Hp1 & Hasm1)].
    + injection Heq as -> ->. rewrite list_insert_id by exact Hi.
      split; [exact Hasm|]. intros j t Hj.
      destruct (Hts j t Hj) as (p' & b' & n' & -> & Hp' & Hfuel').
      exists p', b', n'. split; [reflexivity|]. split; [exact Hp'|].
      intros Hb. rewrite picks_snoc. simpl.
      destruct (Nat.eqb_spec i j) as [->|Hne]; [|rewrite Nat.add_0_r; by apply Hfuel'].
      rewrite Hi in Hj. injection Hj as <-.
      pose proof (proj1 (streams_finished _ _ _ Hp)) as H1.
      pose proof (proj1 (streams_finished _ _ _ Hp')) as H2. congruence.
    + split.
      * pose proof (countFinished_insert ts i (Download p) (Download p1) Hi) as Hc.
        rewrite (proj1 (streams_finished _ _ _ Hp)) in Hc.
        rewrite (proj1 (streams_finished _ _ _ Hp1)) in Hc.
        rewrite Hasm1, Hasm, <- app_assoc. f_equal.
        destruct b'.
        -- replace (countFinished (<[i:=Download p1]> ts))
             with (countFinished ts + 1)%nat by lia.
           by rewrite replicate_add.
        -- replace (countFinished (<[i:=Download p1]> ts))
             with (countFinished ts) by lia.
           by rewrite app_nil_r.
      * intros j t Hj. rewrite picks_snoc. simpl.
        destruct (Nat.eqb_spec i j) as [->|Hne].
        -- rewrite list_lookup_insert_eq in Hj by (by eapply lookup_lt_Some).
           injection Hj as <-. exists p1, b', n'.
           split; [reflexivity|]. split; [exact Hp1|].
           intros Hb. specialize (Hfuel eq_refl). lia.
        -- rewrite list_lookup_insert_ne in Hj by exact Hne.
           destruct (Hts j t Hj) as (p' & b'' & n'' & -> & Hp' & Hfuel').
           exists p', b'', n''. split; [reflexivity|]. split; [exact Hp'|].
           intros Hb. rewrite Nat.add_0_r. by apply Hfuel'.
  - split; [exact Hd|]. split; [exact Hstale|]. split; [exact Hasm|].
    intros j t Hj. destruct (Hts j t Hj) as (p' & b' & n' & -> & Hp' & Hfuel').
    exists p', b', n'. split; [reflexivity|]. split; [exact Hp'|].
    intros Hb. rewrite picks_snoc. simpl.
    destruct (Nat.eqb_spec i j) as [->|Hne]; [simpl in Hj; congruence|].
    rewrite Nat.add_0_r. by apply Hfuel'.
Qed.

Lemma poolInv_exec w0 N schedule :
  files w0 = d -> staleKey d key w0 ->
  poolInv d dirs (assemblies w0) schedule
          (execPool schedule w0 (replicate N (Download (download dirs)))).
Proof.
  intros Hd Hstale. induction schedule as [|x schedule IH] using rev_ind.
  - by apply poolInv_init.
  - unfold execPool in *. rewrite fold_left_app. simpl. by apply poolInv_step.
Qed.

Lemma execPool_length schedule w (ts : list thread) :
  List.length (snd (execPool schedule w ts)) = List.length ts.
Proof.
  induction schedule as [|x schedule IH] using rev_ind; [reflexivity|].
  unfold execPool in *. rewrite fold_left_app. simpl.
  destruct (fold_left stepPool schedule (w, ts)) as [w1 ts1]. simpl in *.
  unfold stepPool. simpl. destruct (ts1 !! fst x); [|exact IH].
  destruct (stepThread _ _ _). simpl. by rewrite length_insert.
Qed.

End DownloadFacts.

(** C2 (as amended). There is no Leader: every download of an uncached
    key assembles its own archive.  Take [N] requests for the same
    directory list whose ZIP is neither in the store nor, by an existing
    path, in the memory cache, and any interleaving of their awaited
    calls, with the memory cache failing or not at any call.  Then the
    store is never written; a request that has been answered has been
    answered with a real-time stream of its directories, never with an
    error; as many assemblies have been started as requests answered; a
    request is answered within its first seven calls, so that once every
    request has run that long, exactly [N] assemblies have been started. *)
Theorem C2_each_download_assembles :
  forall (dirs : list string) (N : nat) (w0 : Async.world)
         (schedule : list (nat * Async.event)),
    Fs.exists_ (Async.files w0) (SimpleCache.getZipPath dirs) = false ->
    staleKey (Async.files w0) (CacheKey.generateCacheKey dirs) w0 ->
    let st := Service.execPool schedule w0
                (replicate N (Service.Download (Service.download dirs))) in
    Async.files (fst st) = Async.files w0 /\
    List.length (snd st) = N /\
    Async.assemblies (fst st)
    = (Async.assemblies w0 ++ replicate (countFinished (snd st)) dirs)%list /\
    (forall i t, snd st !! i = Some t -> Service.finished t = true ->
       t = Service.Download (Async.Ret (Service.ServeRealTime dirs))) /\
    (forall i, (i < N)%nat -> (7 <= picks i schedule)%nat ->
       exists t, snd st !! i = Some t /\ Service.finished t = true) /\
    ((forall i, (i < N)%nat -> (7 <= picks i schedule)%nat) ->
     Async.assemblies (fst st) = (Async.assemblies w0 ++ replicate N dirs)%list).
Proof.
  intros dirs N w0 schedule Habsent Hstale st.
  pose proof (poolInv_exec (Async.files w0) dirs Habsent w0 N schedule eq_refl Hstale)
    as (Hd & _ & Hasm & Hts).
  fold st in Hd, Hasm, Hts.
  assert (Hlen : List.length (snd st) = N).
  { unfold st. rewrite execPool_length. apply length_replicate. }
  assert (Hdone : forall i, (i < N)%nat -> (7 <= picks i schedule)%nat ->
                    exists t, snd st !! i = Some t /\ Service.finished t = true).
  { intros i Hi Hpicks.
    destruct (lookup_lt_is_Some_2 (snd st) i) as [t Ht]; [by rewrite Hlen|].
    exists t. split; [exact Ht|].
    destruct (Hts i t Ht) as (p & b & n & -> & Hp & Hfuel).
    rewrite (proj1 (streams_finished _ _ _ _ _ Hp)).
    destruct b; [reflexivity|]. specialize (Hfuel eq_refl).
    assert (n = 0%nat) as -> by lia.
    destruct p; simpl in Hp; [destruct Hp; discriminate|destruct Hp]. }
  split; [exact Hd|]. split; [exact Hlen|]. split; [exact Hasm|].
  split; [|split; [exact Hdone|]].
  - intros i t Ht Hfin. destruct (Hts i t Ht) as (p & b & n & -> & Hp & _).
    destruct (streams_finished _ _ _ _ _ Hp) as [Hb Hret].
    rewrite Hfin in Hb. by rewrite (Hret (eq_sym Hb)).
  - intros Hall. rewrite Hasm. do 2 f_equal. rewrite <- Hlen.
    apply countFinished_all. intros i t Ht.
    assert (Hi : (i < N)%nat) by (rewrite <- Hlen; by eapply lookup_lt_Some).
    destruct (Hdone i Hi (Hall i Hi)) as (t' & Ht' & Hfin). congruence.
Qed.

Lemma C2_each_download_witness :
  Fs.exists_ (Async.files emptyWorld) (SimpleCache.getZipPath ["events/gala"]) = false /\
  (picks 0 alternating = 7 /\ picks 1 alternating = 7)%nat /\
  Async.assemblies
    (fst (Service.execPool alternating emptyWorld
            (replicate 2 (Service.Download (Service.download ["events/gala"])))))
  = (Async.assemblies emptyWorld ++ replicate 2 ["events/gala"])%list.
Proof.
  split; [reflexivity|]. split; [split; vm_compute; reflexivity|].
  apply (C2_each_download_assembles ["events/gala"] 2 emptyWorld alternating).
  - reflexivity.
  - intros v Hv. discriminate.
  - intros i Hi. destruct i as [|[|i]]; [vm_compute; lia|vm_compute; lia|lia].
Defined.

(** C2 as stated fails already for two requests: on an empty cache, two
    interleaved downloads of the same directory list start two
    assemblies, and both are answered with their own real-time stream. *)
Lemma C2_counterexample :
  let st := Service.execPool alternating emptyWorld
              [ Service.Download (Service.download ["events/gala"]);
                Service.Download (Service.download ["events/gala"]) ] in
  snd st = [ Service.Download (Async.Ret (Service.ServeRealTime ["events/gala"]));
             Service.Download (Async.Ret (Service.ServeRealTime ["events/gala"])) ] /\
  Async.assemblies (fst st) = [ ["events/gala"]; ["events/gala"] ] /\
  List.length (Async.assemblies (fst st)) <> 1%nat.
Proof. vm_compute. repeat split; discriminate. Qed.

(** ** Generation *)

Section GenerationFacts.

Import Async Service.

Lemma stat_openWrite_ne d p q now :
  p <> q -> Fs.stat (Fs.openWrite d q now) p = Fs.stat d p.
Proof.
  intros Hne. unfold Fs.stat. induction d as [|e d IH]; simpl.
  - unfold Fs.hasPath. simpl. apply String.eqb_neq in Hne.
    by rewrite String.eqb_sym, Hne.
  - destruct (Fs.hasPath q e) eqn:Hq; simpl.
    + apply hasPath_eq in Hq.
      assert (Fs.hasPath p e = false) as ->
        by (unfold Fs.hasPath; apply String.eqb_neq; congruence).
      assert (Fs.hasPath p (q, {| Fs.content := []; Fs.mtime := now |}) = false) as ->
        by (unfold Fs.hasPath; apply String.eqb_neq; simpl; congruence).
      reflexivity.
    + destruct (Fs.hasPath p e); [reflexivity|exact IH].
Qed.

Lemma stat_openWrite_eq d q now :
  Fs.stat (Fs.openWrite d q now) q = Some {| Fs.content := []; Fs.mtime := now |}.
Proof.
  unfold Fs.stat. induction d as [|e d IH]; simpl.
  - unfold Fs.hasPath. simpl. by rewrite String.eqb_refl.
  - destruct (Fs.hasPath q e) eqn:Hq; simpl.
    + unfold Fs.hasPath. simpl. by rewrite String.eqb_refl.
    + by rewrite Hq.
Qed.

Lemma stat_appendChunk_ne d p q c now :
  p <> q -> Fs.stat (Fs.appendChunk d q c now) p = Fs.stat d p.
Proof.
  intros Hne. unfold Fs.stat. induction d as [|e d IH]; simpl; [reflexivity|].
  destruct (Fs.hasPath q e) eqn:Hq; simpl.
  - apply hasPath_eq in Hq.
    assert (Fs.hasPath p e = false) as ->
      by (unfold Fs.hasPath; apply String.eqb_neq; congruence).
    assert (Fs.hasPath p (q, {| Fs.content := (Fs.content (snd e) ++ [c])%list;
                                Fs.mtime := now |}) = false) as ->
      by (unfold Fs.hasPath; apply String.eqb_neq; simpl; congruence).
    reflexivity.
  - destruct (Fs.hasPath p e); [reflexivity|exact IH].
Qed.

Lemma stat_appendChunk_eq d q c now f :
  Fs.stat d q = Some f ->
  Fs.stat (Fs.appendChunk d q c now) q
  = Some {| Fs.content := (Fs.content f ++ [c])%list; Fs.mtime := now |}.
Proof.
  unfold Fs.stat. induction d as [|e d IH]; simpl; [discriminate|].
  destruct (Fs.hasPath q e) eqn:Hq; simpl.
  - intros [= <-]. unfold Fs.hasPath. simpl. by rewrite String.eqb_refl.
  - rewrite Hq. exact IH.
Qed.

Lemma stat_app_new d q f :
  Fs.stat d q = None -> Fs.stat (d ++ [(q, f)])%list q = Some f.
Proof.
  unfold Fs.stat. induction d as [|e d IH]; simpl.
  - intros _. unfold Fs.hasPath. simpl. by rewrite String.eqb_refl.
  - destruct (Fs.hasPath q e); [discriminate|exact IH].
Qed.

Lemma stat_rename d a b f :
  a <> b -> Fs.stat d a = Some f ->
  exists d1, Fs.rename d a b = Some d1 /\ Fs.stat d1 b = Some f.
Proof.
  intros Hne Ha. unfold Fs.rename. rewrite Ha.
  apply String.eqb_neq in Hne as Hne'. rewrite Hne'.
  eexists. split; [reflexivity|]. apply stat_app_new.
  rewrite stat_remove_ne by congruence. apply stat_remove_eq.
Qed.

Lemma tempPath_fresh outputPath : outputPath <> outputPath ++ ".tmp".
Proof.
  intros H. apply (f_equal String.length) in H.
  rewrite length_append in H. simpl in H. lia.
Qed.

Lemma readOnly_step {R : Type} (p : prog R) e w :
  readOnly p ->
  files (fst (step e w p)) = files w /\ readOnly (snd (step e w p)).
Proof.
  intros Hp. destruct p as [r|A o k]; simpl in *; [auto|].
  destruct Hp as [Hw Hk].
  pose proof (proj1 (perform_possible e w o Hw)) as Hf.
  destruct (perform e w o) as [w1 a]. simpl in *. auto.
Qed.

End GenerationFacts.

Section GenerationInvariant.

Import Async Service.

Variable archiver : archiverRun.
Variable dirs : list string.
Variable outputPath : string.
Variable d0 : Fs.t.

Lemma genInv_files w w1 p :
  files w1 = files w ->
  genInv archiver dirs outputPath d0 w p -> genInv archiver dirs outputPath d0 w1 p.
Proof. unfold genInv. intros ->. auto. Qed.

Lemma genInv_step e w p :
  genInv archiver dirs outputPath d0 w p ->
  genInv archiver dirs outputPath d0 (fst (step e w p)) (snd (step e w p)).
Proof.
  pose proof (tempPath_fresh outputPath) as Hfresh.
  unfold genInv.
  intros [[Hout [->|[(cs1 & cs2 & Htmp & Hp)| ->]]] | (stream & Harch & Hcont & Hro)].
  - (* the write stream is opened *)
    left. simpl. split; [by rewrite stat_openWrite_ne|].
    right; left. exists [], (match archiver with Finalized s | Destroyed s => s end).
    split; [unfold contentAt; by rewrite stat_openWrite_eq|].
    destruct archiver; [left|right]; split; reflexivity.
  - unfold contentAt in Htmp.
    destruct (Fs.stat (files w) (outputPath ++ ".tmp")) as [f|] eqn:Hst; [|discriminate].
    injection Htmp as <-.
    destruct cs2 as [|c cs2].
    + destruct Hp as [[Harch ->]|[Harch ->]].
      * (* the stream has finished: rename *)
        unfold onFinish, bindOk, await. simpl.
        destruct (stat_rename _ _ outputPath f (not_eq_sym Hfresh) Hst)
          as (d1 & Hren & Hstat1).
        rewrite Hren. simpl. right. exists (Fs.content f).
        split; [by rewrite Harch, app_nil_r|].
        split; [unfold contentAt; by rewrite Hstat1|].
        split; [reflexivity|]. intros [[]|]; simpl; exact I.
      * left. simpl. split; [exact Hout|]. right; right. reflexivity.
    + (* one more chunk *)
      assert (Hstep :
        forall rest,
          (Fs.stat (files (fst (step e w (pipeChunks (outputPath ++ ".tmp") (c :: cs2) rest))))
                   outputPath = Fs.stat d0 outputPath) /\
          ((snd (step e w (pipeChunks (outputPath ++ ".tmp") (c :: cs2) rest))
            = Ret Thrown) \/
           (snd (step e w (pipeChunks (outputPath ++ ".tmp") (c :: cs2) rest))
            = pipeChunks (outputPath ++ ".tmp") cs2 rest /\
            contentAt (files (fst (step e w (pipeChunks (outputPath ++ ".tmp")
                                               (c :: cs2) rest))))
                      (outputPath ++ ".tmp")
            = Some (Fs.content f ++ [c])%list))).
      { intros rest. simpl. destruct (streamFails e); simpl; [auto|].
        split; [by rewrite stat_appendChunk_ne|]. right. split; [reflexivity|].
        unfold contentAt. by rewrite (stat_appendChunk_eq _ _ _ _ f Hst). }
      left.
      destruct Hp as [[Harch ->]|[Harch ->]].
      * destruct (Hstep (onFinish dirs (outputPath ++ ".tmp") outputPath))
          as [Hout' [Hs|[Hs Htmp']]]; rewrite Hs;
          (split; [exact Hout'|]); [by right; right|].
        right; left. exists (Fs.content f ++ [c])%list, cs2.
        split; [exact Htmp'|]. left. rewrite <- app_assoc. auto.
      * destruct (Hstep (Ret Thrown))
          as [Hout' [Hs|[Hs Htmp']]]; rewrite Hs;
          (split; [exact Hout'|]); [by right; right|].
        right; left. exists (Fs.content f ++ [c])%list, cs2.
        split; [exact Htmp'|]. right. rewrite <- app_assoc. auto.
  - left. simpl. split; [exact Hout|]. right; right. reflexivity.
  - destruct (readOnly_step p e w Hro) as [Hf Hro'].
    right. exists stream. split; [exact Harch|].
    split; [unfold contentAt in *; by rewrite Hf|exact Hro'].
Qed.

Lemma readerThread_step e w t :
  readerThread t ->
  files (fst (stepThread e w t)) = files w /\ readerThread (snd (stepThread e w t)).
Proof.
  destruct t as [p|p|p]; simpl; intros Hp;
    destruct (readOnly_step p e w Hp) as [Hf Hro];
    destruct (step e w p) as [w1 p1]; simpl in *; auto.
Qed.

Lemma genPoolInv_step st x :
  genPoolInv archiver dirs outputPath d0 st ->
  genPoolInv archiver dirs outputPath d0 (stepPool st x).
Proof.
  destruct st as [w ts]. destruct x as [i e].
  intros (g & readers & Hts & Hg & Hrs). simpl in Hts. subst ts.
  unfold stepPool. simpl. destruct i as [|i]; simpl.
  - pose proof (genInv_step e w g Hg) as Hg'.
    destruct (step e w g) as [w1 g1]. simpl in *.
    exists g1, readers. auto.
  - destruct (readers !! i) as [t|] eqn:Hi; [|by exists g, readers].
    assert (Ht : readerThread t) by (eapply Forall_lookup_1; eassumption).
    destruct (readerThread_step e w t Ht) as [Hf Ht'].
    destruct (stepThread e w t) as [w1 t1]. simpl in *.
    exists g, (<[i := t1]> readers).
    split; [reflexivity|]. split; [by apply (genInv_files w)|].
    by apply Forall_insert.
Qed.

Lemma genPoolInv_exec schedule w0 readers :
  files w0 = d0 -> Forall readerThread readers ->
  genPoolInv archiver dirs outputPath d0
    (execPool schedule w0
       (Generate (generateZipFile archiver dirs outputPath) :: readers)).
Proof.
  intros Hd Hrs. induction schedule as [|x schedule IH] using rev_ind.
  - exists (generateZipFile archiver dirs outputPath), readers.
    split; [reflexivity|]. split; [|exact Hrs].
    left. simpl. split; [by rewrite Hd|]. by left.
  - unfold execPool in *. rewrite fold_left_app. simpl. by apply genPoolInv_step.
Qed.

End GenerationInvariant.

Section Readers.

Import Async Service.

Ltac walkReadOnly :=
  repeat (simpl;
          match goal with
          | |- _ /\ _ => split; [reflexivity|]
          | |- forall a, _ => intros ?
          | |- context [match ?a with _ => _ end] => destruct a eqn:?
          end).

Lemma getCachedZip_readOnly directoryPaths : readOnly (getCachedZip directoryPaths).
Proof.
  unfold getCachedZip, incrementStat, tryCatch, bindOk, await.
  generalize (SimpleCache.getZipPath directoryPaths) as zipPath.
  generalize (CacheKey.generateCacheKey directoryPaths) as cacheKey.
  intros cacheKey zipPath. walkReadOnly; exact I.
Qed.

Lemma download_readOnly directoryPaths : readOnly (download directoryPaths).
Proof.
  unfold download, getCachedZip, incrementStat, tryCatch, bindOk, await.
  generalize (SimpleCache.getZipPath directoryPaths) as zipPath.
  generalize (CacheKey.generateCacheKey directoryPaths) as cacheKey.
  intros cacheKey zipPath. walkReadOnly; exact I.
Qed.

End Readers.

(** X28. With one generation in flight, the artifact appears only
    through the rename that follows the last write.  Let one
    [generateZipFile] run for an output path that does not exist yet, no
    other generation of that path being in flight, interleaved in any way
    with lookups and downloads (threads that never write to the store),
    with stream writes failing or not.  At every point of every such run,
    if the output path exists then the archiver has finalized and the
    file holds its whole stream, every chunk of it in order; so a lookup
    that returns the output path returns a complete archive. *)
Theorem X28_single_generation_publishes_complete_archive :
  forall (archiver : Service.archiverRun) (dirs : list string) (outputPath : string)
         (readers : list Service.thread) (schedule : list (nat * Async.event))
         (w0 : Async.world),
    Forall readerThread readers ->
    Fs.exists_ (Async.files w0) outputPath = false ->
    let st := Service.execPool schedule w0
                (Service.Generate (Service.generateZipFile archiver dirs outputPath)
                 :: readers) in
    (forall f, Fs.stat (Async.files (fst st)) outputPath = Some f ->
               archiver = Service.Finalized (Fs.content f)) /\
    (forall ds env,
       fst (Async.run (Service.getCachedZip ds) env (fst st)) = Some outputPath ->
       exists f, Fs.stat (Async.files (fst st)) outputPath = Some f /\
                 archiver = Service.Finalized (Fs.content f)).
Proof.
  intros archiver dirs outputPath readers schedule w0 Hreaders Habsent st.
  destruct (genPoolInv_exec archiver dirs outputPath (Async.files w0)
              schedule w0 readers eq_refl Hreaders) as (g & rs & _ & Hg & _).
  fold st in Hg.
  assert (Hvisible : forall f, Fs.stat (Async.files (fst st)) outputPath = Some f ->
                               archiver = Service.Finalized (Fs.content f)).
  { intros f Hf. destruct Hg as [[Hout _]|(stream & Harch & Hcont & _)].
    - rewrite Hf in Hout. symmetry in Hout.
      apply stat_Some_exists in Hout. congruence.
    - unfold contentAt in Hcont. rewrite Hf in Hcont. injection Hcont as ->.
      exact Harch. }
  split; [exact Hvisible|].
  intros ds env Hres.
  destruct (answers_run (Async.files (fst st)) _ _ env (fst st) eq_refl
              (getCachedZip_answers (Async.files (fst st)) ds)) as [Hex _].
  specialize (Hex outputPath Hres). apply exists_stat in Hex.
  destruct (Fs.stat (Async.files (fst st)) outputPath) as [f|] eqn:Hf; [|congruence].
  exists f. split; [reflexivity|]. by apply Hvisible.
Qed.

Lemma X28_single_generation_witness :
  Fs.stat (Async.files (fst (Service.execPool fullGeneration emptyWorld generationPool)))
          (SimpleCache.getZipPath ["events/gala"])
  = Some {| Fs.content := exampleStream; Fs.mtime := 0 |} /\
  Service.Finalized exampleStream
  = Service.Finalized (Fs.content {| Fs.content := exampleStream; Fs.mtime := 0 |}).
Proof.
  split; [vm_compute; reflexivity|].
  destruct (X28_single_generation_publishes_complete_archive
              (Service.Finalized exampleStream) ["events/gala"]
              (SimpleCache.getZipPath ["events/gala"])
              [ Service.Lookup (Service.getCachedZip ["events/gala"]);
                Service.Download (Service.download ["events/gala"]) ]
              fullGeneration emptyWorld) as [Hvisible _].
  - repeat constructor; [apply getCachedZip_readOnly|apply download_readOnly].
  - reflexivity.
  - apply Hvisible. vm_compute. reflexivity.
Defined.

(** The run of the witness: while the archive is being written only the
    temporary file exists; after the rename the artifact holds the whole
    stream and the temporary file is gone. *)
Example generation_run :
  let mid := Async.files (fst (Service.execPool midGeneration emptyWorld generationPool)) in
  let final := Async.files (fst (Service.execPool fullGeneration emptyWorld generationPool)) in
  contentAt mid "/tmp/photo-cache/27f3d3362d325b26.zip" = None /\
  contentAt mid "/tmp/photo-cache/27f3d3362d325b26.zip.tmp"
    = Some [ {| Fs.label := "gala/g1.jpeg"; Fs.bytes := 1000 |} ] /\
  contentAt final "/tmp/photo-cache/27f3d3362d325b26.zip" = Some exampleStream /\
  contentAt final "/tmp/photo-cache/27f3d3362d325b26.zip.tmp" = None /\
  SimpleCache.getZipPath ["events/gala"] = "/tmp/photo-cache/27f3d3362d325b26.zip".
Proof. vm_compute. repeat split. Qed.

(** C3 (the code at the failing input). Two generations of one key that
    overlap, as two ticks of the pre-generation task do when the first
    is still writing, share the temporary file: the second opens it and
    truncates what the first has written, and the rename of the first
    publishes the truncated file.  The artifact then exists without any
    of the archive's chunks, and the lookup returns its path. *)
Theorem C3_overlapping_generations_publish_truncated_archive :
  let w := fst (Service.execPool clobbering emptyWorld twoGenerations) in
  contentAt (Async.files w) (SimpleCache.getZipPath ["events/gala"]) = Some [] /\
  fst (Async.run (Service.getCachedZip ["events/gala"]) (fun _ => Async.calm) w)
  = Some (SimpleCache.getZipPath ["events/gala"]) /\
  exampleStream <> [].
Proof. vm_compute. repeat split. discriminate. Qed.

(** * Further properties *)

(** ** The shape of the cache key and of the artifact path *)

Section KeyShape.

Import Sha256 CacheKey.

Lemma compress_length h block : List.length h = 8%nat -> List.length (compress h block) = 8%nat.
Proof.
  intros H. unfold compress. rewrite length_map, length_combine, H. reflexivity.
Qed.

Lemma digest_words msg :
  exists a b c d e f g h, digest msg = flat_map (bytesBE 4) [a; b; c; d; e; f; g; h].
Proof.
  unfold digest.
  assert (Hlen : forall blocks h0,
             List.length h0 = 8%nat ->
             List.length (fold_left compress blocks h0) = 8%nat).
  { induction blocks as [|blk blocks IH]; intros h0 H0; simpl; [exact H0|].
    apply IH, compress_length, H0. }
  specialize (Hlen (chunks (List.length (pad msg)) 64 (pad msg)) H0 eq_refl).
  destruct (fold_left compress _ H0) as [|a [|b [|c [|d [|e [|f [|g [|h [|x l]]]]]]]]];
    try discriminate.
  by exists a, b, c, d, e, f, g, h.
Qed.

Lemma hexDigit_hex n : (n < 16)%N -> isHexChar (hexDigit n) = true.
Proof.
  intros H. rewrite <- (N2Nat.id n).
  assert (Hk : (N.to_nat n < 16)%nat) by lia.
  revert Hk. generalize (N.to_nat n) as k. intros k Hk.
  do 16 (destruct k as [|k]; [reflexivity|]). lia.
Qed.

Lemma byte_high x : (N.shiftr (N.land x 0xff) 4 < 16)%N.
Proof.
  change 0xff%N with (N.ones 8). rewrite N.land_ones, N.shiftr_div_pow2.
  apply N.Div0.div_lt_upper_bound. apply N.mod_lt. discriminate.
Qed.

Lemma byte_low x : (N.land (N.land x 0xff) 0xf < 16)%N.
Proof.
  change 0xf%N with (N.ones 4). rewrite N.land_ones. apply N.mod_lt. discriminate.
Qed.

Lemma generateCacheKey_shape directoryPaths :
  String.length (generateCacheKey directoryPaths) = 16%nat /\
  isHexString (generateCacheKey directoryPaths) = true.
Proof.
  unfold generateCacheKey, sha256Hex.
  destruct (digest_words (utf8 (Path.joinWith "|" (sortStrings directoryPaths))))
    as (a & b & c & d & e & f & g & h & ->).
  cbn [flat_map bytesBE app hex substring0 String.length isHexString].
  split; [reflexivity|].
  repeat (apply andb_true_intro; split);
    first [apply hexDigit_hex, byte_high | apply hexDigit_hex, byte_low | reflexivity].
Qed.

End KeyShape.

(** X1. The cache key is what its documentation promises: for every list
    of directory paths, exactly 16 characters, each a lower-case
    hexadecimal digit. *)
Theorem X1_cache_key_is_16_hex_digits :
  forall directoryPaths : list string,
    String.length (CacheKey.generateCacheKey directoryPaths) = 16%nat /\
    isHexString (CacheKey.generateCacheKey directoryPaths) = true.
Proof. exact generateCacheKey_shape. Qed.

Section ZipPathShape.

Import SimpleCache.

Lemma hexChar_not_slash c : isHexChar c = true -> Path.isPathSeparator c = false.
Proof.
  unfold isHexChar, Path.isPathSeparator. simpl. intros H.
  repeat (apply orb_true_iff in H as [H|H]; [apply Ascii.eqb_eq in H; subst; reflexivity|]).
  discriminate.
Qed.

Lemma hexChar_not_dot c : isHexChar c = true -> c <> "."%char.
Proof.
  unfold isHexChar. simpl. intros H ->. discriminate.
Qed.

Lemma hasSlash_hex_zip key : isHexString key = true -> Fs.hasSlash (key ++ ".zip") = false.
Proof.
  induction key as [|c r IH]; simpl; [reflexivity|]. intros H.
  apply andb_true_iff in H as [Hc Hr]. by rewrite (hexChar_not_slash _ Hc), (IH Hr).
Qed.

Lemma endsWith_app s t : endsWith (s ++ t) t = true.
Proof.
  induction s as [|c r IH]; simpl.
  - destruct t; simpl; [reflexivity|]. by rewrite Ascii.eqb_refl, String.eqb_refl.
  - rewrite IH. apply orb_true_r.
Qed.

Lemma zipFileName_listed key :
  String.length key = 16%nat -> isHexString key = true -> zipName (key ++ ".zip") = true.
Proof.
  intros Hlen Hhex. unfold zipName. rewrite endsWith_app, andb_true_r.
  unfold Fs.properName. rewrite (hasSlash_hex_zip _ Hhex).
  destruct key as [|c r]; [discriminate|]. simpl in Hhex.
  apply andb_true_iff in Hhex as [Hc _]. apply hexChar_not_dot in Hc.
  simpl. destruct (Ascii.eqb_spec c "."); [contradiction|]. reflexivity.
Qed.

Lemma getZipPath_listed directoryPaths :
  zipName (CacheKey.generateCacheKey directoryPaths ++ ".zip") = true.
Proof.
  destruct (generateCacheKey_shape directoryPaths) as [Hlen Hhex].
  by apply zipFileName_listed.
Qed.

Lemma getZipPath_eq directoryPaths :
  getZipPath directoryPaths
  = "/tmp/photo-cache/" ++ CacheKey.generateCacheKey directoryPaths ++ ".zip".
Proof.
  unfold getZipPath. apply cachePath_proper.
  pose proof (getZipPath_listed directoryPaths) as H. unfold zipName in H.
  by apply andb_true_iff in H as [H _].
Qed.

Lemma tempFile_not_artifact key f :
  isArtifact ("/tmp/photo-cache/" ++ key ++ ".zip.tmp", f) = false.
Proof.
  unfold isArtifact, artifactName. simpl fst.
  destruct (Fs.childName cacheDirectory _) as [n|] eqn:E; [|reflexivity].
  apply childName_spec in E as [E _].
  assert (n = key ++ ".zip.tmp") as ->.
  { simpl in E. by repeat injection E as E. }
  by rewrite endsWith_zip_tmp.
Qed.

End ZipPathShape.

(** X2. The path under which a ZIP is generated and looked up is the cache
    directory, the key and [.zip]; a file there is an artifact that the
    cache-management operations list, and the temporary file written
    next to it during generation is not. *)
Theorem X2_zip_path_is_managed_artifact :
  forall (directoryPaths : list string) (f : Fs.file),
    let zipPath := SimpleCache.getZipPath directoryPaths in
    zipPath = "/tmp/photo-cache/" ++ CacheKey.generateCacheKey directoryPaths ++ ".zip" /\
    SimpleCache.getZipFiles [(zipPath, f)]
    = [CacheKey.generateCacheKey directoryPaths ++ ".zip"] /\
    isArtifact (zipPath, f) = true /\
    isArtifact (zipPath ++ ".tmp", f) = false.
Proof.
  intros directoryPaths f zipPath.
  pose proof (getZipPath_listed directoryPaths) as Hlisted.
  pose proof (zipName_artifact _ f Hlisted) as Hart.
  fold (SimpleCache.getZipPath directoryPaths) in Hart. fold zipPath in Hart.
  split; [apply getZipPath_eq|]. split; [|split].
  - rewrite getZipFiles_artifacts. simpl. by rewrite Hart.
  - unfold isArtifact. by rewrite Hart.
  - unfold zipPath. rewrite getZipPath_eq.
    replace (("/tmp/photo-cache/" ++ CacheKey.generateCacheKey directoryPaths ++ ".zip")
             ++ ".tmp")
      with ("/tmp/photo-cache/" ++ CacheKey.generateCacheKey directoryPaths ++ ".zip.tmp").
    + apply tempFile_not_artifact.
    + rewrite !append_assoc. reflexivity.
Qed.

(** ** Lookups, case by case *)

Section LookupCases.

Import Async Service.

(** Evaluation of a run: the next decision of the environment or of the
    state is split into its cases. *)
Ltac evalRun :=
  repeat (simpl;
          match goal with
          | H : cacheAnswers ?env |- context [cacheFails (?env ?i)] => rewrite (H i)
          | |- context [cacheFails ?e] => destruct (cacheFails e) eqn:?
          | |- context [match ?a with _ => _ end] => destruct a eqn:?
          end).

Lemma getCachedZip_present directoryPaths env w :
  Fs.exists_ (files w) (SimpleCache.getZipPath directoryPaths) = true ->
  (cachedPaths w !! CacheKey.generateCacheKey directoryPaths = None \/
   cachedPaths w !! CacheKey.generateCacheKey directoryPaths
   = Some (SimpleCache.getZipPath directoryPaths)) ->
  fst (run (getCachedZip directoryPaths) env w) = Some (SimpleCache.getZipPath directoryPaths).
Proof.
  intros Hex Hcached.
  unfold getCachedZip, incrementStat, tryCatch, bindOk, await.
  pose proof (truthy_zipPath directoryPaths) as Htruthy.
  revert Hex Hcached Htruthy.
  generalize (SimpleCache.getZipPath directoryPaths) as zipPath.
  generalize (CacheKey.generateCacheKey directoryPaths) as cacheKey.
  intros cacheKey zipPath Hex [Hcached|Hcached] Htruthy; simpl;
    destruct (cacheFails (env 0%nat)); simpl; rewrite ?Hcached, ?Htruthy; simpl;
    rewrite ?Hex; simpl;
    repeat (match goal with
            | |- context [cacheFails ?e] => destruct (cacheFails e)
            end; simpl; rewrite ?Hex; simpl);
    reflexivity.
Qed.

Lemma getCachedZip_counted directoryPaths env w :
  cacheAnswers env ->
  (fst (run (getCachedZip directoryPaths) env w) <> None ->
   hitsOf (snd (run (getCachedZip directoryPaths) env w)) = (hitsOf w + 1)%Z /\
   missesOf (snd (run (getCachedZip directoryPaths) env w)) = missesOf w) /\
  (fst (run (getCachedZip directoryPaths) env w) = None ->
   hitsOf (snd (run (getCachedZip directoryPaths) env w)) = hitsOf w /\
   missesOf (snd (run (getCachedZip directoryPaths) env w)) = (missesOf w + 1)%Z).
Proof.
  intros Henv.
  unfold getCachedZip, incrementStat, tryCatch, bindOk, await.
  generalize (SimpleCache.getZipPath directoryPaths) as zipPath.
  generalize (CacheKey.generateCacheKey directoryPaths) as cacheKey.
  intros cacheKey zipPath.
  evalRun.
  all: unfold hitsOf, missesOf; simpl.
  all: split; intros Hres; try congruence.
  all: rewrite ?lookup_insert_eq, ?lookup_insert_ne by discriminate.
  all: try (split; reflexivity).
Qed.

Lemma getCachedZip_finds directoryPaths env w :
  Fs.exists_ (files w) (SimpleCache.getZipPath directoryPaths) = true ->
  exists p,
    fst (run (getCachedZip directoryPaths) env w) = Some p /\
    (p = SimpleCache.getZipPath directoryPaths \/
     cachedPaths w !! CacheKey.generateCacheKey directoryPaths = Some p).
Proof.
  unfold getCachedZip, incrementStat, tryCatch, bindOk, await.
  generalize (SimpleCache.getZipPath directoryPaths) as zipPath.
  generalize (CacheKey.generateCacheKey directoryPaths) as cacheKey.
  intros cacheKey zipPath Hex.
  repeat (simpl; rewrite ?Hex; simpl;
          match goal with
          | |- context [cacheFails ?e] => destruct (cacheFails e)
          | |- context [match ?a with _ => _ end] => destruct a eqn:?
          end).
  all: simpl; rewrite ?Hex; simpl; eexists; split; [reflexivity|]; auto.
  all: right; unfold truthy in *; destruct (cachedPaths w !! cacheKey) as [v|]; [|discriminate].
  all: destruct (String.eqb v ""); congruence.
Qed.

Lemma getCachedZip_coherent directoryPaths env w :
  cacheAnswers env ->
  truthy (cachedPaths (snd (run (getCachedZip directoryPaths) env w))
            !! CacheKey.generateCacheKey directoryPaths)
  = fst (run (getCachedZip directoryPaths) env w).
Proof.
  intros Henv.
  unfold getCachedZip, incrementStat, tryCatch, bindOk, await.
  pose proof (truthy_zipPath directoryPaths) as Htruthy. revert Htruthy.
  generalize (SimpleCache.getZipPath directoryPaths) as zipPath.
  generalize (CacheKey.generateCacheKey directoryPaths) as cacheKey.
  intros cacheKey zipPath Htruthy.
  simpl. rewrite (Henv 0%nat). simpl.
  destruct (cachedPaths w !! cacheKey) as [s|] eqn:Hcached; simpl.
  - destruct (String.eqb s "") eqn:Hs; simpl.
    + destruct (Fs.exists_ (files w) zipPath); simpl; rewrite ?Henv; simpl;
        rewrite ?Henv; simpl; rewrite ?Henv; simpl.
      * by rewrite lookup_insert_eq.
      * by rewrite Hcached; simpl; rewrite Hs.
    + destruct (Fs.exists_ (files w) s); simpl; rewrite ?Henv; simpl; rewrite ?Henv; simpl.
      * by rewrite Hcached; simpl; rewrite Hs.
      * destruct (Fs.exists_ (files w) zipPath); simpl; rewrite ?Henv; simpl;
          rewrite ?Henv; simpl; rewrite ?Henv; simpl.
        -- by rewrite lookup_insert_eq.
        -- by rewrite lookup_delete_eq.
  - destruct (Fs.exists_ (files w) zipPath); simpl; rewrite ?Henv; simpl;
      rewrite ?Henv; simpl; rewrite ?Henv; simpl.
    + by rewrite lookup_insert_eq.
    + by rewrite Hcached.
Qed.

Lemma getCachedZip_otherKeys directoryPaths env w k :
  k <> CacheKey.generateCacheKey directoryPaths ->
  cachedPaths (snd (run (getCachedZip directoryPaths) env w)) !! k = cachedPaths w !! k.
Proof.
  unfold getCachedZip, incrementStat, tryCatch, bindOk, await.
  generalize (SimpleCache.getZipPath directoryPaths) as zipPath.
  generalize (CacheKey.generateCacheKey directoryPaths) as cacheKey.
  intros cacheKey zipPath Hk.
  evalRun.
  all: simpl; rewrite ?lookup_insert_ne, ?lookup_delete_ne by congruence; reflexivity.
Qed.

Lemma getCachedZip_cacheDown directoryPaths env w :
  cacheFails (env 0%nat) = true ->
  run (getCachedZip directoryPaths) env w
  = (if Fs.exists_ (files w) (SimpleCache.getZipPath directoryPaths)
     then Some (SimpleCache.getZipPath directoryPaths) else None, w).
Proof.
  intros Hdown.
  unfold getCachedZip, incrementStat, tryCatch, bindOk, await.
  generalize (SimpleCache.getZipPath directoryPaths) as zipPath.
  generalize (CacheKey.generateCacheKey directoryPaths) as cacheKey.
  intros cacheKey zipPath. simpl. rewrite Hdown. simpl.
  by destruct (Fs.exists_ (files w) zipPath).
Qed.

Lemma incrementStat_run statType env w :
  let key := "cache:stats:" ++ statType in
  fst (run (incrementStat statType) env w) = tt /\
  files (snd (run (incrementStat statType) env w)) = files w /\
  cachedPaths (snd (run (incrementStat statType) env w)) = cachedPaths w /\
  assemblies (snd (run (incrementStat statType) env w)) = assemblies w /\
  (counters (snd (run (incrementStat statType) env w)) = counters w \/
   counters (snd (run (incrementStat statType) env w))
   = <[key := (orZero (counters w !! key) + 1)%Z]> (counters w)) /\
  (cacheAnswers env ->
   counters (snd (run (incrementStat statType) env w))
   = <[key := (orZero (counters w !! key) + 1)%Z]> (counters w)).
Proof.
  intros key. unfold incrementStat, tryCatch, bindOk, await. fold key.
  generalize key as k. intros k. simpl.
  destruct (cacheFails (env 0%nat)) eqn:E0; simpl.
  - repeat split; auto. intros H. by rewrite (H 0%nat) in E0.
  - destruct (cacheFails (env 1%nat)) eqn:E1; simpl.
    + repeat split; auto. intros H. by rewrite (H 1%nat) in E1.
    + repeat split; auto.
Qed.

End LookupCases.

(** X3. A ZIP that is on disk is never missed: whatever the memory cache
    holds and whichever of its calls fail, the lookup returns a path, and
    that path is the ZIP path of the directories unless the memory cache
    itself named another one under their key. *)
Theorem X3_zip_on_disk_is_never_missed :
  forall (directoryPaths : list string) (env : nat -> Async.event) (w : Async.world),
    Fs.exists_ (Async.files w) (SimpleCache.getZipPath directoryPaths) = true ->
    exists p,
      fst (Async.run (Service.getCachedZip directoryPaths) env w) = Some p /\
      (p = SimpleCache.getZipPath directoryPaths \/
       Async.cachedPaths w !! CacheKey.generateCacheKey directoryPaths = Some p).
Proof. exact getCachedZip_finds. Qed.

Lemma X3_zip_on_disk_witness :
  Fs.exists_ (Async.files galaOnDisk) (SimpleCache.getZipPath ["events/gala"]) = true /\
  exists p,
    fst (Async.run (Service.getCachedZip ["events/gala"]) cacheDown galaOnDisk) = Some p /\
    (p = SimpleCache.getZipPath ["events/gala"] \/
     Async.cachedPaths galaOnDisk !! CacheKey.generateCacheKey ["events/gala"] = Some p).
Proof.
  split; [vm_compute; reflexivity|].
  apply (X3_zip_on_disk_is_never_missed ["events/gala"] cacheDown galaOnDisk).
  vm_compute. reflexivity.
Defined.

(** X4. With the memory cache answering, every lookup is counted exactly
    once: a lookup that returns a path adds one to the hit counter and
    leaves the miss counter alone, a lookup that returns null does the
    opposite. *)
Theorem X4_lookup_is_counted_once :
  forall (directoryPaths : list string) (env : nat -> Async.event) (w : Async.world),
    cacheAnswers env ->
    let r := Async.run (Service.getCachedZip directoryPaths) env w in
    (fst r <> None ->
     hitsOf (snd r) = (hitsOf w + 1)%Z /\ missesOf (snd r) = missesOf w) /\
    (fst r = None ->
     hitsOf (snd r) = hitsOf w /\ missesOf (snd r) = (missesOf w + 1)%Z).
Proof. exact getCachedZip_counted. Qed.

Lemma X4_lookup_counted_witness :
  cacheAnswers (fun _ => Async.calm) /\
  hitsOf (snd (Async.run (Service.getCachedZip ["events/gala"])
                 (fun _ => Async.calm) galaOnDisk)) = 1%Z /\
  missesOf (snd (Async.run (Service.getCachedZip ["events/gala"])
                   (fun _ => Async.calm) staleWorld)) = 1%Z.
Proof.
  assert (Hcalm : cacheAnswers (fun _ => Async.calm)) by (intros i; reflexivity).
  split; [exact Hcalm|]. split.
  - destruct (X4_lookup_is_counted_once ["events/gala"] (fun _ => Async.calm)
                galaOnDisk Hcalm) as [Hhit _].
    apply Hhit. vm_compute. discriminate.
  - destruct (X4_lookup_is_counted_once ["events/gala"] (fun _ => Async.calm)
                staleWorld Hcalm) as [_ Hmiss].
    apply Hmiss. vm_compute. reflexivity.
Defined.

(** X5. A lookup touches the memory cache under its own key only, and
    with the memory cache answering it leaves that entry in agreement
    with its result: naming the returned path after a hit, naming no path
    after a miss. *)
Theorem X5_lookup_leaves_cache_coherent :
  forall (directoryPaths : list string) (env : nat -> Async.event) (w : Async.world),
    let r := Async.run (Service.getCachedZip directoryPaths) env w in
    (forall k, k <> CacheKey.generateCacheKey directoryPaths ->
               Async.cachedPaths (snd r) !! k = Async.cachedPaths w !! k) /\
    (cacheAnswers env ->
     Service.truthy (Async.cachedPaths (snd r) !! CacheKey.generateCacheKey directoryPaths)
     = fst r).
Proof.
  intros directoryPaths env w r. split.
  - intros k Hk. by apply getCachedZip_otherKeys.
  - apply getCachedZip_coherent.
Qed.

Lemma X5_lookup_coherent_witness :
  cacheAnswers (fun _ => Async.calm) /\
  Service.truthy
    (Async.cachedPaths
       (snd (Async.run (Service.getCachedZip ["events/gala"]) (fun _ => Async.calm) galaOnDisk))
     !! CacheKey.generateCacheKey ["events/gala"])
  = fst (Async.run (Service.getCachedZip ["events/gala"]) (fun _ => Async.calm) galaOnDisk).
Proof.
  assert (Hcalm : cacheAnswers (fun _ => Async.calm)) by (intros i; reflexivity).
  split; [exact Hcalm|].
  exact (proj2 (X5_lookup_leaves_cache_coherent ["events/gala"] (fun _ => Async.calm)
                  galaOnDisk) Hcalm).
Defined.

(** X6. When the first call on the memory cache is rejected, the lookup
    answers from the file system alone and changes nothing: neither the
    memory cache nor the counters record it. *)
Theorem X6_lookup_with_cache_down :
  forall (directoryPaths : list string) (env : nat -> Async.event) (w : Async.world),
    Async.cacheFails (env 0%nat) = true ->
    Async.run (Service.getCachedZip directoryPaths) env w
    = (if Fs.exists_ (Async.files w) (SimpleCache.getZipPath directoryPaths)
       then Some (SimpleCache.getZipPath directoryPaths) else None, w).
Proof. exact getCachedZip_cacheDown. Qed.

Lemma X6_lookup_with_cache_down_witness :
  Async.cacheFails (cacheDown 0%nat) = true /\
  Async.run (Service.getCachedZip ["events/gala"]) cacheDown staleWorld
  = (if Fs.exists_ (Async.files staleWorld) (SimpleCache.getZipPath ["events/gala"])
     then Some (SimpleCache.getZipPath ["events/gala"]) else None, staleWorld).
Proof.
  split; [reflexivity|].
  apply (X6_lookup_with_cache_down ["events/gala"] cacheDown staleWorld). reflexivity.
Defined.

(** X7. [incrementStat] never throws and touches nothing but its own
    counter, which it leaves as it was or raises by one over the value
    read (a missing counter reads as zero); with the memory cache
    answering it raises it. *)
Theorem X7_increment_stat :
  forall (statType : string) (env : nat -> Async.event) (w : Async.world),
    let key := "cache:stats:" ++ statType in
    let r := Async.run (Service.incrementStat statType) env w in
    fst r = tt /\
    Async.files (snd r) = Async.files w /\
    Async.cachedPaths (snd r) = Async.cachedPaths w /\
    Async.assemblies (snd r) = Async.assemblies w /\
    (Async.counters (snd r) = Async.counters w \/
     Async.counters (snd r)
     = <[key := (Service.orZero (Async.counters w !! key) + 1)%Z]> (Async.counters w)) /\
    (cacheAnswers env ->
     Async.counters (snd r)
     = <[key := (Service.orZero (Async.counters w !! key) + 1)%Z]> (Async.counters w)).
Proof. exact incrementStat_run. Qed.

Lemma X7_increment_stat_witness :
  cacheAnswers (fun _ => Async.calm) /\
  Async.counters (snd (Async.run (Service.incrementStat "hits") (fun _ => Async.calm)
                         emptyWorld))
  = <["cache:stats:hits" := 1%Z]> ∅.
Proof.
  assert (Hcalm : cacheAnswers (fun _ => Async.calm)) by (intros i; reflexivity).
  split; [exact Hcalm|].
  destruct (X7_increment_stat "hits" (fun _ => Async.calm) emptyWorld)
    as (_ & _ & _ & _ & _ & Hup).
  exact (Hup Hcalm).
Defined.

(** ** Generation, run to its end *)

Section GenerationRun.

Import Async Service.

Lemma stat_app_other d p q f :
  p <> q -> Fs.stat (d ++ [(q, f)])%list p = Fs.stat d p.
Proof.
  intros Hne. unfold Fs.stat. induction d as [|e d IH]; simpl.
  - unfold Fs.hasPath. simpl. apply String.eqb_neq in Hne.
    by rewrite String.eqb_sym, Hne.
  - destruct (Fs.hasPath p e); [reflexivity|exact IH].
Qed.

Lemma rename_moves d a b f :
  a <> b -> Fs.stat d a = Some f ->
  exists d1, Fs.rename d a b = Some d1 /\ Fs.stat d1 b = Some f /\ Fs.stat d1 a = None /\
             forall p, p <> a -> p <> b -> Fs.stat d1 p = Fs.stat d p.
Proof.
  intros Hne Ha. unfold Fs.rename. rewrite Ha.
  apply String.eqb_neq in Hne as Hne'. rewrite Hne'.
  eexists. split; [reflexivity|]. split; [|split].
  - apply stat_app_new. rewrite stat_remove_ne by congruence. apply stat_remove_eq.
  - rewrite stat_app_other by exact Hne. apply stat_remove_eq.
  - intros p Hpa Hpb. rewrite stat_app_other by exact Hpb.
    by rewrite !stat_remove_ne.
Qed.

Lemma keys_appendChunk d p c now :
  List.map fst (Fs.appendChunk d p c now) = List.map fst d.
Proof.
  induction d as [|e d IH]; [reflexivity|]. simpl.
  destruct (Fs.hasPath p e) eqn:Hp; simpl; [|by rewrite IH].
  apply hasPath_eq in Hp. by rewrite Hp.
Qed.

Lemma NoDup_openWrite d p now :
  NoDup (List.map fst d) -> NoDup (List.map fst (Fs.openWrite d p now)).
Proof.
  induction d as [|e d IH]; intros Hnd; simpl.
  - apply NoDup_cons. split; [apply not_elem_of_nil|constructor].
  - destruct (Fs.hasPath p e) eqn:Hp; simpl.
    + apply hasPath_eq in Hp. by rewrite <- Hp.
    + apply NoDup_cons in Hnd as [Hnotin Hnd]. apply NoDup_cons. split; [|by apply IH].
      intros Hin. apply list_elem_of_In, in_map_iff in Hin as (x & Hx & Hin).
      assert (Hsub : forall y, In y (Fs.openWrite d p now) ->
                               In (fst y) (List.map fst d) \/ fst y = p).
      { clear. induction d as [|z d IHd]; simpl.
        - intros y [<-|[]]. by right.
        - destruct (Fs.hasPath p z) eqn:Hz; simpl.
          + intros y [<-|Hy]; [by right|]. left. right. by apply in_map.
          + intros y [<-|Hy]; [left; by left|].
            destruct (IHd y Hy) as [H|H]; [left; by right|by right]. }
      destruct (Hsub x Hin) as [H|H].
      * apply Hnotin. rewrite <- Hx. by apply list_elem_of_In.
      * apply (f_equal (fun q => String.eqb q p)) in Hx.
        rewrite H, String.eqb_refl in Hx. unfold Fs.hasPath in Hp. congruence.
Qed.

Lemma NoDup_rename d a b d1 :
  Fs.rename d a b = Some d1 -> NoDup (List.map fst d) -> NoDup (List.map fst d1).
Proof.
  unfold Fs.rename. destruct (Fs.stat d a) as [f|]; [|discriminate].
  destruct (String.eqb a b); intros [= <-] Hnd; [exact Hnd|].
  rewrite map_app. apply NoDup_app. split; [|split].
  - unfold Fs.remove. by do 2 apply NoDup_keys_filter.
  - intros q Hq Hb. simpl in Hb. apply list_elem_of_In in Hb as [<-|[]].
    apply list_elem_of_In, in_map_iff in Hq as (x & Hx & Hin).
    unfold Fs.remove in Hin. apply filter_In in Hin as [Hin _].
    apply filter_In in Hin as [_ Hnb]. unfold Fs.hasPath in Hnb.
    rewrite Hx, String.eqb_refl in Hnb. discriminate.
  - simpl. apply NoDup_cons. split; [apply not_elem_of_nil|constructor].
Qed.

Lemma in_stat d p f : Fs.stat d p = Some f -> In (p, f) d.
Proof.
  unfold Fs.stat. destruct (List.find (Fs.hasPath p) d) as [e|] eqn:E; [|discriminate].
  intros [= <-]. apply find_some in E as [Hin Hp]. apply hasPath_eq in Hp.
  destruct e as [q g]. simpl in Hp. by subst q.
Qed.

(** Chunks piped without a stream error all reach the temporary file. *)
Lemma run_pipeChunks cs : forall tempPath rest env w f,
  (forall i, streamFails (env i) = false) ->
  Fs.stat (files w) tempPath = Some f ->
  exists w1,
    run (pipeChunks tempPath cs rest) env w
      = run rest (fun i => env (List.length cs + i)%nat) w1 /\
    contentAt (files w1) tempPath = Some (Fs.content f ++ cs)%list /\
    cachedPaths w1 = cachedPaths w /\
    List.map fst (files w1) = List.map fst (files w) /\
    forall p, p <> tempPath -> Fs.stat (files w1) p = Fs.stat (files w) p.
Proof.
  induction cs as [|c cs IH]; intros tempPath rest env w f Henv Hst.
  - exists w. split; [reflexivity|]. split; [|auto].
    unfold contentAt. by rewrite Hst, app_nil_r.
  - simpl. rewrite (Henv 0%nat).
    destruct (IH tempPath rest (fun i => env (S i))
                (setFiles w (Fs.appendChunk (files w) tempPath c (evNow (env 0%nat))))
                {| Fs.content := (Fs.content f ++ [c])%list; Fs.mtime := evNow (env 0%nat) |})
      as (w1 & Hrun & Hcont & Hcached & Hkeys & Hother).
    + intros i. apply Henv.
    + simpl. by apply stat_appendChunk_eq.
    + exists w1. split; [exact Hrun|]. split; [|split; [|split]].
      * rewrite Hcont. simpl. by rewrite <- app_assoc.
      * exact Hcached.
      * rewrite Hkeys. simpl. apply keys_appendChunk.
      * intros p Hp. rewrite (Hother p Hp). simpl. by apply stat_appendChunk_ne.
Qed.

(** Whatever the stream does, piping touches the temporary file only
    and rejects or goes on with [rest]. *)
Lemma run_pipeChunks_any cs : forall tempPath rest env w,
  exists w1 n,
    (run (pipeChunks tempPath cs rest) env w = (Thrown, w1) \/
     run (pipeChunks tempPath cs rest) env w = run rest (fun i => env (n + i)%nat) w1) /\
    cachedPaths w1 = cachedPaths w /\
    forall p, p <> tempPath -> Fs.stat (files w1) p = Fs.stat (files w) p.
Proof.
  induction cs as [|c cs IH]; intros tempPath rest env w.
  - exists w, 0%nat. split; [right; reflexivity|]. auto.
  - simpl. destruct (streamFails (env 0%nat)).
    + exists w, 0%nat. split; [left; reflexivity|]. auto.
    + destruct (IH tempPath rest (fun i => env (S i))
                  (setFiles w (Fs.appendChunk (files w) tempPath c (evNow (env 0%nat)))))
        as (w1 & n & Hrun & Hcached & Hother).
      exists w1, (S n). split; [|split].
      * destruct Hrun as [Hrun|Hrun]; [left|right]; exact Hrun.
      * exact Hcached.
      * intros p Hp. rewrite (Hother p Hp). simpl. by apply stat_appendChunk_ne.
Qed.

Lemma generateZipFile_finalized stream directoryPaths outputPath env w :
  (forall i, streamFails (env i) = false) ->
  contentAt (files (snd (run (generateZipFile (Finalized stream) directoryPaths outputPath)
                           env w))) outputPath = Some stream /\
  contentAt (files (snd (run (generateZipFile (Finalized stream) directoryPaths outputPath)
                           env w))) (outputPath ++ ".tmp") = None /\
  (forall p, p <> outputPath -> p <> outputPath ++ ".tmp" ->
     Fs.stat (files (snd (run (generateZipFile (Finalized stream) directoryPaths outputPath)
                            env w))) p = Fs.stat (files w) p) /\
  (cacheAnswers env ->
   fst (run (generateZipFile (Finalized stream) directoryPaths outputPath) env w) = Ok tt /\
   cachedPaths (snd (run (generateZipFile (Finalized stream) directoryPaths outputPath) env w))
   = <[CacheKey.generateCacheKey directoryPaths := outputPath]> (cachedPaths w)).
Proof.
  intros Henv. pose proof (tempPath_fresh outputPath) as Hfresh.
  unfold generateZipFile, onFinish, bindOk, await.
  generalize (CacheKey.generateCacheKey directoryPaths) as cacheKey.
  revert Hfresh. generalize (outputPath ++ ".tmp") as tempPath.
  intros tempPath Hfresh cacheKey.
  cbn [run perform].
  set (w0 := setFiles w (Fs.openWrite (files w) tempPath (evNow (env 0%nat)))).
  match goal with
  | |- context [run (pipeChunks tempPath stream ?rest) ?env1 w0] =>
      destruct (run_pipeChunks stream tempPath rest env1 w0
                  {| Fs.content := []; Fs.mtime := evNow (env 0%nat) |})
        as (w1 & Hrun & Hcont & Hcached & Hkeys & Hother);
        [intros i; apply Henv | apply stat_openWrite_eq | rewrite Hrun; clear Hrun]
  end.
  simpl in Hcont. unfold contentAt in Hcont.
  destruct (Fs.stat (files w1) tempPath) as [f|] eqn:Hst; [|discriminate].
  injection Hcont as Hcont.
  destruct (rename_moves _ _ outputPath f (not_eq_sym Hfresh) Hst)
    as (d1 & Hren & Hout & Htmp & Hrest).
  simpl. rewrite Hren. simpl.
  assert (Hfiles : forall p, p <> outputPath -> p <> tempPath ->
                             Fs.stat d1 p = Fs.stat (files w) p).
  { intros p Hpo Hpt. rewrite (Hrest p Hpt Hpo), (Hother p Hpt).
    subst w0. simpl. by apply stat_openWrite_ne. }
  destruct (cacheFails (env (S (List.length stream + 1)))) eqn:Hfail; simpl;
    unfold contentAt; rewrite Hout, Htmp, Hcont.
  - repeat split; auto.
    all: match goal with Hall : cacheAnswers _ |- _ => by rewrite (Hall _) in Hfail end.
  - repeat split; auto. by rewrite Hcached.
Qed.

Lemma generateZipFile_destroyed partial directoryPaths outputPath env w :
  fst (run (generateZipFile (Destroyed partial) directoryPaths outputPath) env w) = Thrown /\
  Fs.stat (files (snd (run (generateZipFile (Destroyed partial) directoryPaths outputPath)
                         env w))) outputPath = Fs.stat (files w) outputPath /\
  cachedPaths (snd (run (generateZipFile (Destroyed partial) directoryPaths outputPath) env w))
  = cachedPaths w.
Proof.
  pose proof (tempPath_fresh outputPath) as Hfresh.
  unfold generateZipFile. revert Hfresh. generalize (outputPath ++ ".tmp") as tempPath.
  intros tempPath Hfresh. cbn [run perform].
  set (w0 := setFiles w (Fs.openWrite (files w) tempPath (evNow (env 0%nat)))).
  destruct (run_pipeChunks_any partial tempPath (Ret Thrown) (fun i => env (S i)) w0)
    as (w1 & n & Hrun & Hcached & Hother).
  assert (Hr : run (pipeChunks tempPath partial (Ret Thrown)) (fun i => env (S i)) w0
               = (Thrown, w1)) by (destruct Hrun as [Hrun|Hrun]; exact Hrun).
  rewrite Hr. simpl. split; [reflexivity|]. split.
  - rewrite (Hother _ Hfresh). subst w0. simpl. by apply stat_openWrite_ne.
  - exact Hcached.
Qed.

End GenerationRun.

(** X8. A generation whose archive is finalized and whose stream writes
    succeed publishes the archive: after it the output path holds the
    whole stream, the temporary file is gone and no other file has
    changed.  This holds even when the memory cache rejects the final
    [set]; when it answers, the generation resolves and the memory cache
    names the output path under the key of the directories. *)
Theorem X8_generation_publishes_archive :
  forall (stream : list Fs.chunk) (directoryPaths : list string) (outputPath : string)
         (env : nat -> Async.event) (w : Async.world),
    (forall i, Async.streamFails (env i) = false) ->
    let r := Async.run (Service.generateZipFile (Service.Finalized stream)
                          directoryPaths outputPath) env w in
    contentAt (Async.files (snd r)) outputPath = Some stream /\
    contentAt (Async.files (snd r)) (outputPath ++ ".tmp") = None /\
    (forall p, p <> outputPath -> p <> outputPath ++ ".tmp" ->
               Fs.stat (Async.files (snd r)) p = Fs.stat (Async.files w) p) /\
    (cacheAnswers env ->
     fst r = Async.Ok tt /\
     Async.cachedPaths (snd r)
     = <[CacheKey.generateCacheKey directoryPaths := outputPath]> (Async.cachedPaths w)).
Proof. exact generateZipFile_finalized. Qed.

Lemma X8_generation_witness :
  (forall i, Async.streamFails ((fun _ : nat => Async.calm) i) = false) /\
  contentAt
    (Async.files
       (snd (Async.run (Service.generateZipFile (Service.Finalized exampleStream)
                          ["events/gala"] "/tmp/photo-cache/27f3d3362d325b26.zip")
               (fun _ => Async.calm) staleWorld)))
    "/tmp/photo-cache/27f3d3362d325b26.zip" = Some exampleStream.
Proof.
  assert (Hcalm : forall i, Async.streamFails ((fun _ : nat => Async.calm) i) = false)
    by (intros i; reflexivity).
  split; [exact Hcalm|].
  exact (proj1 (X8_generation_publishes_archive exampleStream ["events/gala"]
                  "/tmp/photo-cache/27f3d3362d325b26.zip" (fun _ => Async.calm)
                  staleWorld Hcalm)).
Defined.

(** X9. Generation and lookup fit together: once a generation for the
    ZIP path of some directories has gone through, a lookup of these
    directories returns that path, whichever calls of the memory cache
    fail during the lookup, and the file found there holds the archive. *)
Theorem X9_generated_zip_is_found :
  forall (stream : list Fs.chunk) (directoryPaths : list string)
         (env env' : nat -> Async.event) (w : Async.world),
    (forall i, Async.streamFails (env i) = false) ->
    cacheAnswers env ->
    let zipPath := SimpleCache.getZipPath directoryPaths in
    let w1 := snd (Async.run (Service.generateZipFile (Service.Finalized stream)
                                directoryPaths zipPath) env w) in
    fst (Async.run (Service.getCachedZip directoryPaths) env' w1) = Some zipPath /\
    contentAt (Async.files w1) zipPath = Some stream.
Proof.
  intros stream directoryPaths env env' w Hstream Hcache zipPath w1.
  destruct (generateZipFile_finalized stream directoryPaths zipPath env w Hstream)
    as (Hcont & _ & _ & Hset).
  destruct (Hset Hcache) as [_ Hcached]. fold w1 in Hcont, Hcached.
  split; [|exact Hcont].
  apply getCachedZip_present.
  - unfold contentAt in Hcont.
    destruct (Fs.stat (Async.files w1) zipPath) as [f|] eqn:Hst; [|discriminate].
    by apply stat_Some_exists in Hst.
  - right. rewrite Hcached. apply lookup_insert_eq.
Qed.

Lemma X9_generated_zip_witness :
  (forall i, Async.streamFails ((fun _ : nat => Async.calm) i) = false) /\
  cacheAnswers (fun _ => Async.calm) /\
  fst (Async.run (Service.getCachedZip ["events/gala"]) cacheDown
         (snd (Async.run (Service.generateZipFile (Service.Finalized exampleStream)
                            ["events/gala"] (SimpleCache.getZipPath ["events/gala"]))
                 (fun _ => Async.calm) staleWorld)))
  = Some (SimpleCache.getZipPath ["events/gala"]).
Proof.
  assert (Hstream : forall i, Async.streamFails ((fun _ : nat => Async.calm) i) = false)
    by (intros i; reflexivity).
  assert (Hcalm : cacheAnswers (fun _ => Async.calm)) by (intros i; reflexivity).
  split; [exact Hstream|]. split; [exact Hcalm|].
  exact (proj1 (X9_generated_zip_is_found exampleStream ["events/gala"]
                  (fun _ => Async.calm) cacheDown staleWorld Hstream Hcalm)).
Defined.

(** X10. A generation whose archive is destroyed before it is finalized
    rejects and publishes nothing: whatever was written to the temporary
    file, the output path is as it was and the memory cache is unchanged. *)
Theorem X10_destroyed_generation_publishes_nothing :
  forall (partial : list Fs.chunk) (directoryPaths : list string) (outputPath : string)
         (env : nat -> Async.event) (w : Async.world),
    let r := Async.run (Service.generateZipFile (Service.Destroyed partial)
                          directoryPaths outputPath) env w in
    fst r = Async.Thrown /\
    Fs.stat (Async.files (snd r)) outputPath = Fs.stat (Async.files w) outputPath /\
    Async.cachedPaths (snd r) = Async.cachedPaths w.
Proof. exact generateZipFile_destroyed. Qed.

(** ** Cache management, seen from the store *)

Section ManagementFacts.

Import SimpleCache.

Lemma omap_cons {A B : Type} (f : A -> option B) (x : A) (l : list A) :
  omap f (x :: l) = match f x with
                    | Some y => y :: omap f l
                    | None => omap f l
                    end.
Proof. reflexivity. Qed.

Lemma flushAllStep_artifact e n cur T D :
  artifactName e = Some n ->
  Fs.stat cur (fst e) = Some (snd e) ->
  flushAllStep {| flTotalSize := T; flDeleted := D; flFs := cur |} n
  = {| flTotalSize := T + Fs.size (snd e); flDeleted := S D;
       flFs := Fs.remove (fst e) cur |}.
Proof.
  intros Hname Hst. unfold flushAllStep. simpl.
  rewrite (artifactName_path _ _ Hname), Hst.
  unfold Fs.unlink. by rewrite (stat_Some_exists _ _ _ Hst).
Qed.

Lemma flushAll_loop (l : list (string * Fs.file)) (cur : Fs.t) T D :
  NoDup (List.map fst l) ->
  (forall e, In e l -> Fs.stat cur (fst e) = Some (snd e)) ->
  fold_left flushAllStep (omap artifactName l)
            {| flTotalSize := T; flDeleted := D; flFs := cur |}
  = {| flTotalSize := T + totalBytes (List.filter isArtifact l);
       flDeleted := D + List.length (List.filter isArtifact l);
       flFs := removeAll (List.filter isArtifact l) cur |}.
Proof.
  revert cur T D. induction l as [|e l IH]; intros cur T D Hnd Hst.
  - simpl. f_equal; lia.
  - assert (Hnd' : NoDup (List.map fst l)) by (by apply NoDup_cons in Hnd as [_ ?]).
    assert (Hnotin : forall e', In e' l -> fst e' <> fst e).
    { intros e' He' Hk. apply NoDup_cons in Hnd as [Hn _]. apply Hn.
      rewrite <- Hk. apply list_elem_of_In, in_map, He'. }
    assert (Hst' : forall e', In e' l -> Fs.stat cur (fst e') = Some (snd e'))
      by (intros e' He'; apply Hst; by right).
    rewrite omap_cons. simpl List.filter.
    destruct (artifactName e) as [n|] eqn:Hname.
    + assert (isArtifact e = true) as -> by (unfold isArtifact; by rewrite Hname).
      change (fold_left ?f (n :: ?r) ?st) with (fold_left f r (f st n)).
      rewrite (flushAllStep_artifact e n cur T D Hname (Hst e (or_introl eq_refl))).
      rewrite IH; [simpl; f_equal; lia|exact Hnd'|].
      intros e' He'. rewrite stat_remove_ne by (apply Hnotin, He').
      apply Hst', He'.
    + assert (isArtifact e = false) as -> by (unfold isArtifact; by rewrite Hname).
      apply IH; assumption.
Qed.

Lemma flushAllCache_exact d :
  NoDup (List.map fst d) ->
  flushAllCache d
  = ({| deletedFiles := List.length (zipOnly d);
        totalSizeMB := bytesToMB (totalBytes (zipOnly d)) |},
     others d).
Proof.
  intros Hnd. unfold flushAllCache. rewrite getZipFiles_artifacts.
  rewrite (flushAll_loop d d 0 0 Hnd (fun e => stat_in_nodup d e Hnd)).
  simpl. by rewrite (removeAll_selected _ d Hnd).
Qed.

Lemma zipOnly_others d : zipOnly (others d) = [].
Proof.
  unfold zipOnly, others. induction d as [|e d IH]; [reflexivity|]. simpl.
  destruct (isArtifact e) eqn:E; simpl; [exact IH|]. by rewrite E.
Qed.

Lemma length_getZipFiles d : List.length (getZipFiles d) = List.length (zipOnly d).
Proof.
  rewrite getZipFiles_artifacts. unfold zipOnly.
  induction d as [|e d IH]; [reflexivity|].
  rewrite omap_cons. simpl. unfold isArtifact at 1.
  destruct (artifactName e); simpl; by rewrite IH.
Qed.

(** The loop of [getCacheStats]. *)
Lemma stats_loop (d : Fs.t) (l : list (string * Fs.file)) T O :
  (forall e, In e l -> Fs.stat d (fst e) = Some (snd e)) ->
  exists oldest,
    fold_left (statsStep d) (omap artifactName l) (T, O)
    = ((T + totalBytes (List.filter isArtifact l))%Z, oldest) /\
    (oldest <= O)%Z /\
    (forall e, In e (List.filter isArtifact l) -> (oldest <= Fs.mtime (snd e))%Z) /\
    (oldest = O \/ exists e, In e (List.filter isArtifact l) /\ oldest = Fs.mtime (snd e)).
Proof.
  revert T O. induction l as [|e l IH]; intros T O Hst.
  - exists O. simpl. rewrite Z.add_0_r. repeat split; [lia|intros e []|by left].
  - assert (Hst' : forall e', In e' l -> Fs.stat d (fst e') = Some (snd e'))
      by (intros e' He'; apply Hst; by right).
    rewrite omap_cons. simpl List.filter.
    destruct (artifactName e) as [n|] eqn:Hname;
      [assert (isArtifact e = true) as -> by (unfold isArtifact; by rewrite Hname)
      |assert (isArtifact e = false) as -> by (unfold isArtifact; by rewrite Hname);
       by apply IH].
    change (fold_left ?f (n :: ?r) ?st) with (fold_left f r (f st n)).
    unfold statsStep at 2. simpl fst. simpl snd.
    rewrite (artifactName_path _ _ Hname), (Hst e (or_introl eq_refl)).
    destruct (IH (T + Fs.size (snd e))%Z
                 (if (Fs.mtime (snd e) <? O)%Z then Fs.mtime (snd e) else O) Hst')
      as (oldest & Hloop & Hle & Hall & Hsome).
    exists oldest. rewrite Hloop. simpl totalBytes.
    destruct (Z.ltb_spec (Fs.mtime (snd e)) O) as [Hlt|Hge].
    + split; [f_equal; lia|]. split; [lia|]. split.
      * intros e' [<-|He']; [exact Hle|by apply Hall].
      * destruct Hsome as [->|(e' & He' & ->)]; right.
        -- exists e. split; [by left|reflexivity].
        -- exists e'. split; [by right|reflexivity].
    + split; [f_equal; lia|]. split; [exact Hle|]. split.
      * intros e' [<-|He']; [lia|by apply Hall].
      * destruct Hsome as [->|(e' & He' & ->)]; [by left|right].
        exists e'. split; [by right|reflexivity].
Qed.

Lemma getCacheStats_exact now d :
  NoDup (List.map fst d) ->
  exists oldest,
    getCacheStats now d
    = {| fileCount := List.length (zipOnly d);
         statsTotalSizeMB := bytesToMB (totalBytes (zipOnly d));
         maxSizeMB := 5000;
         oldestFileAgeHours :=
           match zipOnly d with
           | [] => None
           | _ => Some (roundedHours (now - oldest))
           end |} /\
    (oldest <= now)%Z /\
    (forall e, In e (zipOnly d) -> (oldest <= Fs.mtime (snd e))%Z) /\
    (oldest = now \/ exists e, In e (zipOnly d) /\ oldest = Fs.mtime (snd e)).
Proof.
  intros Hnd.
  destruct (stats_loop d d 0 now (fun e => stat_in_nodup d e Hnd))
    as (oldest & Hloop & Hle & Hall & Hsome).
  exists oldest. split; [|auto].
  unfold getCacheStats. rewrite length_getZipFiles.
  rewrite getZipFiles_artifacts at 1. rewrite Hloop.
  pose proof (length_getZipFiles d) as Hlen.
  fold (zipOnly d). unfold roundedHours.
  destruct (getZipFiles d), (zipOnly d); try discriminate; reflexivity.
Qed.

(** *** What size enforcement leaves *)

Lemma sumSizes_perm l l' : Permutation l l' -> sumSizes l = sumSizes l'.
Proof.
  induction 1 as [|x l l' _ IH|x y l|l l' l'' _ IH1 _ IH2].
  - reflexivity.
  - by rewrite !sumSizes_cons, IH.
  - rewrite !sumSizes_cons. lia.
  - by rewrite IH1.
Qed.

Lemma sumSizes_app l l' : sumSizes (l ++ l')%list = (sumSizes l + sumSizes l')%Z.
Proof.
  induction l as [|x l IH]; [reflexivity|].
  simpl app. rewrite !sumSizes_cons, IH. lia.
Qed.

Lemma omap_infoOf_withoutInfos deleted d :
  omap infoOf (withoutInfos deleted d) = List.filter (notDeleted deleted) (omap infoOf d).
Proof.
  unfold withoutInfos, notDeleted. induction d as [|e d IH]; [reflexivity|].
  rewrite (omap_cons infoOf e d).
  change (List.filter ?P (e :: d)) with (if P e then e :: List.filter P d else List.filter P d).
  cbv beta.
  destruct (infoOf e) as [i|] eqn:Hi.
  - change (List.filter ?P (i :: ?r)) with (if P i then i :: List.filter P r else List.filter P r).
    cbv beta. rewrite (infoOf_path _ _ Hi).
    destruct (existsb _ deleted); simpl negb; cbv iota; [exact IH|].
    rewrite omap_cons, Hi. f_equal. exact IH.
  - destruct (negb _); [|exact IH]. rewrite omap_cons, Hi. exact IH.
Qed.

Lemma filter_all_out {A : Type} (P : A -> bool) (l : list A) :
  (forall x, In x l -> P x = false) -> List.filter P l = [].
Proof.
  induction l as [|x l IH]; intros H; [reflexivity|]. simpl.
  rewrite (H x (or_introl eq_refl)). apply IH. intros y Hy. apply H. by right.
Qed.

Lemma in_skipn {A : Type} (x : A) (k : nat) (l : list A) : In x (skipn k l) -> In x l.
Proof.
  revert l. induction k as [|k IH]; intros l; [auto|].
  destruct l as [|y l]; [auto|]. simpl. intros H. right. by apply IH.
Qed.

Lemma filter_perm {A : Type} (P : A -> bool) (l l' : list A) :
  Permutation l l' -> Permutation (List.filter P l) (List.filter P l').
Proof.
  induction 1 as [|x l l' _ IH|x y l|l l' l'' _ IH1 _ IH2]; simpl.
  - constructor.
  - destruct (P x); [by constructor|exact IH].
  - destruct (P x), (P y); try reflexivity. apply perm_swap.
  - by rewrite IH1.
Qed.

Lemma filter_notDeleted_app (A B : list CacheFileInfo) :
  NoDup (List.map path (A ++ B)) ->
  List.filter (notDeleted A) (A ++ B) = B.
Proof.
  intros Hnd. rewrite List.filter_app.
  assert (HA : List.filter (notDeleted A) A = []).
  { apply filter_all_out. intros i Hi.
    unfold notDeleted. apply negb_false_iff, existsb_exists.
    exists i. split; [exact Hi|apply String.eqb_refl]. }
  rewrite HA. simpl.
  apply List.forallb_filter_id, forallb_forall. intros i Hi.
  unfold notDeleted. apply negb_true_iff, not_true_is_false. intros Hex.
  apply existsb_exists in Hex as (j & Hj & Heq). apply String.eqb_eq in Heq.
  rewrite map_app in Hnd. apply NoDup_app in Hnd as (_ & Hdisj & _).
  apply (Hdisj (path j)).
  - apply list_elem_of_In, in_map, Hj.
  - rewrite Heq. apply list_elem_of_In, in_map, Hi.
Qed.

Lemma sorted_firstn_skipn (l : list CacheFileInfo) k a b :
  StronglySorted notNewer l -> In a (firstn k l) -> In b (skipn k l) -> notNewer a b.
Proof.
  intros Hs. revert k. induction Hs as [|x l Hs IH Hall]; intros k Ha Hb.
  - by destruct k.
  - destruct k as [|k]; [destruct Ha|]. simpl in Ha, Hb.
    destruct Ha as [<-|Ha]; [|by apply (IH k)].
    apply Forall_forall with (x := b) in Hall; [exact Hall|].
    apply list_elem_of_In. eapply in_skipn. exact Hb.
Qed.

Lemma enforceMaxCacheSize_others d : others (snd (enforceMaxCacheSize d)) = others d.
Proof.
  unfold enforceMaxCacheSize. destruct (withinLimit _); [reflexivity|].
  apply enforceLoop_zipOnly. rewrite sortByMtime_perm. apply getCacheFileInfos_listed.
Qed.

(** The files deleted are the first [k] in modification-time order and
    those left are the others, whose total is within the limit. *)
Lemma enforceMaxCacheSize_result d :
  NoDup (List.map fst d) ->
  exists k : nat,
    enforceMaxCacheSize d
    = (firstn k (sortByMtime (omap infoOf d)),
       withoutInfos (firstn k (sortByMtime (omap infoOf d))) d) /\
    Permutation (omap infoOf (snd (enforceMaxCacheSize d)))
                (skipn k (sortByMtime (omap infoOf d))) /\
    withinLimit (bytesToMB (sumSizes (skipn k (sortByMtime (omap infoOf d))))) = true.
Proof.
  intros Hnd.
  set (infos := omap infoOf d). set (sorted := sortByMtime infos).
  assert (Hinfos : getCacheFileInfos d = infos) by (apply getCacheFileInfos_infoOf, Hnd).
  assert (Hperm : Permutation sorted infos) by apply sortByMtime_perm.
  assert (Hndp : NoDup (List.map path sorted)).
  { rewrite (Permutation_map path Hperm). unfold infos.
    rewrite paths_omap_infoOf. apply NoDup_keys_filter, Hnd. }
  assert (Hleft : forall k,
             Permutation (omap infoOf (withoutInfos (firstn k sorted) d)) (skipn k sorted)).
  { intros k. rewrite omap_infoOf_withoutInfos. fold infos.
    rewrite <- (filter_perm _ _ _ Hperm).
    rewrite <- (firstn_skipn k sorted) at 2.
    rewrite filter_notDeleted_app; [reflexivity|]. by rewrite firstn_skipn. }
  assert (Hsum : forall k,
             sumSizes (skipn k sorted) = (sumSizes infos - sumSizes (firstn k sorted))%Z).
  { intros k. rewrite <- (sumSizes_perm _ _ Hperm).
    rewrite <- (firstn_skipn k sorted) at 2. rewrite sumSizes_app. lia. }
  assert (Hsorted : sumSizes sorted = sumSizes infos) by (apply sumSizes_perm, Hperm).
  unfold enforceMaxCacheSize. rewrite Hinfos.
  destruct (withinLimit (bytesToMB (sumSizes infos))) eqn:Hlim.
  - exists 0%nat. simpl. rewrite withoutInfos_nil. split; [reflexivity|].
    split; [|change (skipn 0 sorted) with sorted; by rewrite Hsorted].
    specialize (Hleft 0%nat). simpl in Hleft. by rewrite withoutInfos_nil in Hleft.
  - fold sorted.
    destruct (enforceLoop_spec sorted d (sumSizes infos) Hndp)
      as (k & Hk & Hloop & _ & _ & Hstop).
    { intros i Hi. apply (Permutation_in _ Hperm) in Hi.
      apply in_omap_infoOf in Hi as (e & He & Hi).
      rewrite (infoOf_path _ _ Hi).
      apply (stat_Some_exists _ _ (snd e)), stat_in_nodup; assumption. }
    exists k. rewrite Hloop. split; [reflexivity|]. split; [apply Hleft|].
    rewrite Hsum. destruct Hstop as [Hstop| ->]; [exact Hstop|].
    rewrite firstn_all, Hsorted, Z.sub_diag. reflexivity.
Qed.

Lemma in_infoOf_omap (d : Fs.t) e i : In e d -> infoOf e = Some i -> In i (omap infoOf d).
Proof.
  induction d as [|e0 d IH]; [intros []|].
  rewrite omap_cons. intros [->|He] Hi.
  - rewrite Hi. by left.
  - destruct (infoOf e0); [right|]; by apply IH.
Qed.

Lemma enforceMaxCacheSize_within d :
  NoDup (List.map fst d) ->
  withinLimit (bytesToMB (totalBytes (zipOnly (snd (enforceMaxCacheSize d))))) = true.
Proof.
  intros Hnd. destruct (enforceMaxCacheSize_result d Hnd) as (k & _ & Hleft & Hlim).
  unfold zipOnly. by rewrite <- sumSizes_omap_infoOf, (sumSizes_perm _ _ Hleft).
Qed.

Lemma enforceMaxCacheSize_oldest d i e :
  NoDup (List.map fst d) ->
  In i (fst (enforceMaxCacheSize d)) ->
  In e (snd (enforceMaxCacheSize d)) -> isArtifact e = true ->
  (mtime i <= Fs.mtime (snd e))%Z.
Proof.
  intros Hnd Hi He Ha.
  destruct (enforceMaxCacheSize_result d Hnd) as (k & Hres & Hleft & _).
  rewrite infoOf_isArtifact in Ha.
  destruct (infoOf e) as [i'|] eqn:Hi'; [|discriminate].
  pose proof (in_infoOf_omap _ _ _ He Hi') as Hin.
  apply (Permutation_in _ Hleft) in Hin.
  rewrite Hres in Hi. simpl in Hi.
  pose proof (sorted_firstn_skipn _ k i i' (sortByMtime_sorted _) Hi Hin) as Hle.
  unfold notNewer in Hle. unfold infoOf in Hi'.
  destruct (artifactName e); [|discriminate]. injection Hi' as <-. exact Hle.
Qed.

Lemma enforceMaxCacheSize_kept d e :
  In e (snd (enforceMaxCacheSize d)) -> In e d.
Proof.
  unfold enforceMaxCacheSize. destruct (withinLimit _); [auto|].
  generalize (sumSizes (getCacheFileInfos d)) as remaining.
  generalize (sortByMtime (getCacheFileInfos d)) as l.
  intros l. assert (Hgen : forall cur remaining,
                       In e (snd (enforceLoop l cur remaining)) -> In e cur).
  { induction l as [|i l IH]; intros cur remaining; [auto|]. simpl.
    unfold Fs.unlink. destruct (Fs.exists_ cur (path i)); [|apply IH].
    destruct (withinLimit _); simpl.
    - unfold Fs.remove. intros H. by apply filter_In in H as [H _].
    - specialize (IH (Fs.remove (path i) cur) (remaining - size i)%Z).
      destruct (enforceLoop l _ _) as [deleted d2]. simpl in *.
      intros H. apply IH in H. unfold Fs.remove in H. by apply filter_In in H as [H _]. }
  apply Hgen.
Qed.

(** *** The age flush *)

Lemma flushCacheOlderThan_exact now age d :
  NoDup (List.map fst d) ->
  flushCacheOlderThan now age d
  = ({| deletedFiles := List.length (List.filter (olderThan now age) d);
        totalSizeMB := bytesToMB (totalBytes (List.filter (olderThan now age) d)) |},
     List.filter (fun e => negb (olderThan now age e)) d).
Proof.
  intros Hnd. unfold flushCacheOlderThan. rewrite getZipFiles_artifacts.
  rewrite (flushOlder_loop now age d d 0 0 Hnd (fun e => stat_in_nodup d e Hnd)).
  simpl. by rewrite (removeAll_selected _ d Hnd).
Qed.

Lemma filter_none {A : Type} (P : A -> bool) (l : list A) :
  List.filter P (List.filter (fun x => negb (P x)) l) = [].
Proof.
  induction l as [|x l IH]; [reflexivity|]. simpl.
  destruct (P x) eqn:E; simpl; [exact IH|]. by rewrite E.
Qed.

Lemma filter_again {A : Type} (P : A -> bool) (l : list A) :
  List.filter P (List.filter P l) = List.filter P l.
Proof.
  induction l as [|x l IH]; [reflexivity|]. simpl.
  destruct (P x) eqn:E; simpl; [|exact IH]. by rewrite E, IH.
Qed.

End ManagementFacts.

Section MaintenanceFacts.

Import SimpleCache.

Lemma getZipFiles_others d : getZipFiles (others d) = [].
Proof.
  pose proof (length_getZipFiles (others d)) as H. rewrite zipOnly_others in H.
  by destruct (getZipFiles (others d)).
Qed.

Lemma others_unselected (P : string * Fs.file -> bool) (d : Fs.t) :
  (forall e, P e = true -> isArtifact e = true) ->
  others (List.filter (fun e => negb (P e)) d) = others d.
Proof.
  intros HP. unfold others. induction d as [|e d IH]; [reflexivity|]. simpl.
  destruct (P e) eqn:E; simpl.
  - by rewrite (HP e E).
  - destruct (isArtifact e); simpl; [exact IH|]. by rewrite IH.
Qed.

Lemma olderThan_isArtifact now age e : olderThan now age e = true -> isArtifact e = true.
Proof. unfold olderThan. intros H. by apply andb_true_iff in H as [H _]. Qed.

Lemma flushCacheOlderThan_again now age d :
  NoDup (List.map fst d) ->
  (forall e, In e (snd (flushCacheOlderThan now age d)) ->
             In e d /\ olderThan now age e = false) /\
  flushCacheOlderThan now age (snd (flushCacheOlderThan now age d))
  = ({| deletedFiles := 0; totalSizeMB := 0 |}, snd (flushCacheOlderThan now age d)).
Proof.
  intros Hnd. rewrite (flushCacheOlderThan_exact now age d Hnd). simpl snd. split.
  - intros e He. apply filter_In in He as [He Hold].
    split; [exact He|]. by apply negb_true_iff.
  - rewrite flushCacheOlderThan_exact by (apply NoDup_keys_filter, Hnd).
    by rewrite filter_none, filter_again.
Qed.

Lemma performDailyMaintenance_post now d :
  NoDup (List.map fst d) ->
  fst (performDailyMaintenance now d) = fst (flushCacheOlderThan now 86400000 d) /\
  (forall e, In e (snd (performDailyMaintenance now d)) ->
             In e d /\ olderThan now 86400000 e = false) /\
  withinLimit (bytesToMB (totalBytes (zipOnly (snd (performDailyMaintenance now d))))) = true /\
  others (snd (performDailyMaintenance now d)) = others d.
Proof.
  intros Hnd. unfold performDailyMaintenance.
  change (maxCacheAgeHours * 60 * 60 * 1000)%Z with 86400000%Z.
  destruct (flushCacheOlderThan_again now 86400000 d Hnd) as [Hkept _].
  pose proof (flushCacheOlderThan_exact now 86400000 d Hnd) as Hexact.
  destruct (flushCacheOlderThan now 86400000 d) as [ageResult d1]. simpl in Hkept.
  injection Hexact as _ Hd1.
  assert (Hnd1 : NoDup (List.map fst d1))
    by (rewrite Hd1; apply NoDup_keys_filter, Hnd).
  pose proof (enforceMaxCacheSize_within d1 Hnd1) as Hwithin.
  pose proof (enforceMaxCacheSize_others d1) as Hothers.
  pose proof (fun e => enforceMaxCacheSize_kept d1 e) as Hsub.
  destruct (enforceMaxCacheSize d1) as [deleted d2]. simpl in *.
  split; [reflexivity|]. split; [intros e He; apply Hkept, Hsub, He|].
  split; [exact Hwithin|].
  rewrite Hothers, Hd1. apply others_unselected. intros e. apply olderThan_isArtifact.
Qed.

End MaintenanceFacts.

(** X11. On a store without duplicate paths, [flushAllCache] removes
    every artifact and nothing else: the store it leaves is the store's
    other files, no ZIP is listed any more, and it reports the number of
    artifacts and their total size in MB rounded to two decimals. *)
Theorem X11_flush_all_removes_every_artifact :
  forall d : Fs.t,
    NoDup (List.map fst d) ->
    SimpleCache.flushAllCache d
    = ({| SimpleCache.deletedFiles := List.length (zipOnly d);
          SimpleCache.totalSizeMB := SimpleCache.bytesToMB (totalBytes (zipOnly d)) |},
       others d) /\
    SimpleCache.getZipFiles (snd (SimpleCache.flushAllCache d)) = [].
Proof.
  intros d Hnd. rewrite (flushAllCache_exact d Hnd). split; [reflexivity|].
  apply getZipFiles_others.
Qed.

Lemma X11_flush_all_witness :
  NoDup (List.map fst exampleCache) /\
  SimpleCache.getZipFiles (snd (SimpleCache.flushAllCache exampleCache)) = [].
Proof.
  assert (Hnd : NoDup (List.map fst exampleCache))
    by (apply (bool_decide_unpack _); vm_compute; reflexivity).
  split; [exact Hnd|].
  exact (proj2 (X11_flush_all_removes_every_artifact exampleCache Hnd)).
Defined.

(** X12. On a store without duplicate paths, [getCacheStats] reports the
    number of artifacts, their total size in MB rounded to two decimals
    and the limit of 5000 MB.  The age it reports, in hours rounded to
    the nearest, is that of the earliest modification time among the
    artifacts, taken no later than the present: an artifact dated in the
    future never yields a negative age.  Without artifacts there is no
    age. *)
Theorem X12_cache_stats_describe_artifacts :
  forall (now : Z) (d : Fs.t),
    NoDup (List.map fst d) ->
    exists oldest : Z,
      SimpleCache.getCacheStats now d
      = {| SimpleCache.fileCount := List.length (zipOnly d);
           SimpleCache.statsTotalSizeMB := SimpleCache.bytesToMB (totalBytes (zipOnly d));
           SimpleCache.maxSizeMB := 5000;
           SimpleCache.oldestFileAgeHours :=
             match zipOnly d with
             | [] => None
             | _ => Some (roundedHours (now - oldest))
             end |} /\
      (oldest <= now)%Z /\
      (forall e, In e (zipOnly d) -> (oldest <= Fs.mtime (snd e))%Z) /\
      (oldest = now \/ exists e, In e (zipOnly d) /\ oldest = Fs.mtime (snd e)).
Proof. exact getCacheStats_exact. Qed.

Lemma X12_cache_stats_witness :
  NoDup (List.map fst exampleCache) /\
  exists oldest : Z,
    SimpleCache.getCacheStats 7200000 exampleCache
    = {| SimpleCache.fileCount := List.length (zipOnly exampleCache);
         SimpleCache.statsTotalSizeMB :=
           SimpleCache.bytesToMB (totalBytes (zipOnly exampleCache));
         SimpleCache.maxSizeMB := 5000;
         SimpleCache.oldestFileAgeHours :=
           match zipOnly exampleCache with
           | [] => None
           | _ => Some (roundedHours (7200000 - oldest))
           end |} /\
    (oldest <= 7200000)%Z /\
    (forall e, In e (zipOnly exampleCache) -> (oldest <= Fs.mtime (snd e))%Z) /\
    (oldest = 7200000%Z \/
     exists e, In e (zipOnly exampleCache) /\ oldest = Fs.mtime (snd e)).
Proof.
  assert (Hnd : NoDup (List.map fst exampleCache))
    by (apply (bool_decide_unpack _); vm_compute; reflexivity).
  split; [exact Hnd|].
  exact (X12_cache_stats_describe_artifacts 7200000 exampleCache Hnd).
Defined.

(** X13. On a store without duplicate paths, [enforceMaxCacheSize]
    restores the limit: the artifacts it leaves total at most 5000 MB
    after rounding.  It creates nothing and leaves every file that is not
    an artifact in place. *)
Theorem X13_enforcement_restores_limit :
  forall d : Fs.t,
    NoDup (List.map fst d) ->
    let r := SimpleCache.enforceMaxCacheSize d in
    SimpleCache.withinLimit (SimpleCache.bytesToMB (totalBytes (zipOnly (snd r)))) = true /\
    (forall e, In e (snd r) -> In e d) /\
    others (snd r) = others d.
Proof.
  intros d Hnd r. split; [by apply enforceMaxCacheSize_within|].
  split; [apply enforceMaxCacheSize_kept|apply enforceMaxCacheSize_others].
Qed.

Lemma X13_enforcement_witness :
  NoDup (List.map fst fullCache) /\
  SimpleCache.withinLimit
    (SimpleCache.bytesToMB
       (totalBytes (zipOnly (snd (SimpleCache.enforceMaxCacheSize fullCache))))) = true.
Proof.
  assert (Hnd : NoDup (List.map fst fullCache))
    by (apply (bool_decide_unpack _); vm_compute; reflexivity).
  split; [exact Hnd|].
  exact (proj1 (X13_enforcement_restores_limit fullCache Hnd)).
Defined.

(** X14. Size enforcement evicts the oldest artifacts: on a store
    without duplicate paths, no file it deletes has been modified later
    than an artifact it keeps. *)
Theorem X14_enforcement_evicts_oldest :
  forall (d : Fs.t) (i : SimpleCache.CacheFileInfo) (e : string * Fs.file),
    NoDup (List.map fst d) ->
    In i (fst (SimpleCache.enforceMaxCacheSize d)) ->
    In e (snd (SimpleCache.enforceMaxCacheSize d)) ->
    isArtifact e = true ->
    (SimpleCache.mtime i <= Fs.mtime (snd e))%Z.
Proof. exact enforceMaxCacheSize_oldest. Qed.

Lemma X14_enforcement_oldest_witness :
  NoDup (List.map fst fullCache) /\
  (SimpleCache.mtime {| SimpleCache.name := "bbbbbbbbbbbbbbbb.zip";
                        SimpleCache.path := "/tmp/photo-cache/bbbbbbbbbbbbbbbb.zip";
                        SimpleCache.size := 2097152000; SimpleCache.mtime := 10 |}
   <= Fs.mtime (snd ("/tmp/photo-cache/aaaaaaaaaaaaaaaa.zip", fileOf 2097152000 20)))%Z.
Proof.
  assert (Hnd : NoDup (List.map fst fullCache))
    by (apply (bool_decide_unpack _); vm_compute; reflexivity).
  split; [exact Hnd|].
  apply (X14_enforcement_evicts_oldest fullCache _ _ Hnd).
  - vm_compute. left. reflexivity.
  - vm_compute. left. reflexivity.
  - vm_compute. reflexivity.
Defined.

(** X15. The age flush is complete and idempotent: on a store without
    duplicate paths, what [flushCacheOlderThan] leaves are files of the
    store none of which is an artifact older than the given age, and a
    second flush at the same time with the same age deletes nothing. *)
Theorem X15_age_flush_is_idempotent :
  forall (now age : Z) (d : Fs.t),
    NoDup (List.map fst d) ->
    let r := SimpleCache.flushCacheOlderThan now age d in
    (forall e, In e (snd r) -> In e d /\ olderThan now age e = false) /\
    SimpleCache.flushCacheOlderThan now age (snd r)
    = ({| SimpleCache.deletedFiles := 0; SimpleCache.totalSizeMB := 0 |}, snd r).
Proof. exact flushCacheOlderThan_again. Qed.

Lemma X15_age_flush_witness :
  NoDup (List.map fst exampleCache) /\
  SimpleCache.flushCacheOlderThan 200 150
    (snd (SimpleCache.flushCacheOlderThan 200 150 exampleCache))
  = ({| SimpleCache.deletedFiles := 0; SimpleCache.totalSizeMB := 0 |},
     snd (SimpleCache.flushCacheOlderThan 200 150 exampleCache)).
Proof.
  assert (Hnd : NoDup (List.map fst exampleCache))
    by (apply (bool_decide_unpack _); vm_compute; reflexivity).
  split; [exact Hnd|].
  exact (proj2 (X15_age_flush_is_idempotent 200 150 exampleCache Hnd)).
Defined.

(** X16. Daily maintenance establishes both bounds at once: on a store
    without duplicate paths it reports what the 24-hour age flush has
    removed, and the store it leaves consists of files of the original
    store, holds no artifact older than 24 hours, holds artifacts
    totalling at most 5000 MB after rounding, and still has every file
    that is not an artifact. *)
Theorem X16_daily_maintenance_bounds_age_and_size :
  forall (now : Z) (d : Fs.t),
    NoDup (List.map fst d) ->
    let r := SimpleCache.performDailyMaintenance now d in
    fst r = fst (SimpleCache.flushCacheOlderThan now 86400000 d) /\
    (forall e, In e (snd r) -> In e d /\ olderThan now 86400000 e = false) /\
    SimpleCache.withinLimit (SimpleCache.bytesToMB (totalBytes (zipOnly (snd r)))) = true /\
    others (snd r) = others d.
Proof. exact performDailyMaintenance_post. Qed.

Lemma X16_daily_maintenance_witness :
  NoDup (List.map fst fullCache) /\
  SimpleCache.withinLimit
    (SimpleCache.bytesToMB
       (totalBytes (zipOnly (snd (SimpleCache.performDailyMaintenance 86400025 fullCache)))))
  = true.
Proof.
  assert (Hnd : NoDup (List.map fst fullCache))
    by (apply (bool_decide_unpack _); vm_compute; reflexivity).
  split; [exact Hnd|].
  destruct (X16_daily_maintenance_bounds_age_and_size 86400025 fullCache Hnd)
    as (_ & _ & Hwithin & _).
  exact Hwithin.
Defined.

(** ** Ordinary paths *)

Section PlainPaths.

Import Path PhotosConfig.

Lemma joinWith_cons2 sep x y (r : list string) :
  joinWith sep (x :: y :: r) = x ++ sep ++ joinWith sep (y :: r).
Proof. reflexivity. Qed.

Lemma segments_joinWith segs :
  segs <> [] -> Forall (fun s => Fs.hasSlash s = false) segs ->
  segments (joinWith "/" segs) = segs.
Proof.
  induction segs as [|x r IH]; [congruence|]. intros _ Hall.
  apply Forall_cons in Hall as [Hx Hr].
  destruct r as [|y r]; [by apply segments_noSlash|].
  rewrite joinWith_cons2. change ("/" ++ ?t) with (String "/" t).
  rewrite segments_app, (segments_noSlash _ Hx), IH by (congruence || exact Hr).
  reflexivity.
Qed.

Lemma fold_normalizeStep_proper allow segs : forall res,
  Forall (fun s => Fs.properName s = true) segs ->
  fold_left (normalizeStep allow) segs res = (res ++ segs)%list.
Proof.
  induction segs as [|x r IH]; intros res Hall; simpl; [by rewrite app_nil_r|].
  apply Forall_cons in Hall as [Hx Hr].
  rewrite (normalizeStep_proper _ _ _ Hx), (IH _ Hr), <- app_assoc. reflexivity.
Qed.

Lemma proper_noSlash segs :
  Forall (fun s => Fs.properName s = true) segs ->
  Forall (fun s => Fs.hasSlash s = false) segs.
Proof.
  intros H. eapply Forall_impl; [exact H|]. intros s Hs.
  by apply properName_spec in Hs as (_ & _ & _ & Hs).
Qed.

Lemma joinWith_nonempty x r :
  Fs.properName x = true -> joinWith "/" (x :: r) <> "".
Proof.
  intros Hx. apply properName_spec in Hx as (Hx & _).
  destruct r as [|y r]; [exact Hx|]. rewrite joinWith_cons2.
  by apply append_nonempty_l.
Qed.

Lemma startsWithSlash_joinWith x r :
  Fs.properName x = true -> startsWithSlash (joinWith "/" (x :: r)) = false.
Proof.
  intros Hx. apply properName_spec in Hx as (Hne & _ & _ & Hs).
  destruct x as [|c x]; [congruence|]. simpl in Hs.
  apply orb_false_iff in Hs as [Hc _].
  destruct r as [|y r]; [exact Hc|]. rewrite joinWith_cons2. exact Hc.
Qed.

Lemma endsWithSlash_joinWith segs :
  segs <> [] -> Forall (fun s => Fs.properName s = true) segs ->
  endsWithSlash (joinWith "/" segs) = false.
Proof.
  induction segs as [|x r IH]; [congruence|]. intros _ Hall.
  apply Forall_cons in Hall as [Hx Hr].
  destruct r as [|y r].
  - apply endsWithSlash_noSlash. by apply properName_spec in Hx as (_ & _ & _ & Hx).
  - rewrite joinWith_cons2, <- append_assoc.
    rewrite endsWithSlash_app; [apply IH; [congruence|exact Hr]|].
    apply Forall_cons in Hr as [Hy _]. by apply joinWith_nonempty.
Qed.

Lemma normalize_relative segs :
  segs <> [] -> Forall (fun s => Fs.properName s = true) segs ->
  normalize (joinWith "/" segs) = joinWith "/" segs.
Proof.
  intros Hne Hall. destruct segs as [|x r]; [congruence|].
  pose proof Hall as Hall'. apply Forall_cons in Hall' as [Hx _].
  pose proof (joinWith_nonempty x r Hx) as Hj. apply String.eqb_neq in Hj.
  unfold normalize. rewrite Hj, (startsWithSlash_joinWith _ _ Hx).
  rewrite (endsWithSlash_joinWith _ Hne Hall).
  unfold normalizeString.
  rewrite (segments_joinWith _ Hne (proper_noSlash _ Hall)).
  rewrite (fold_normalizeStep_proper _ _ _ Hall). simpl app. by rewrite Hj.
Qed.

Lemma normalize_absolute segs :
  segs <> [] -> Forall (fun s => Fs.properName s = true) segs ->
  normalize (absolutePath segs) = absolutePath segs.
Proof.
  intros Hne Hall. destruct segs as [|x r]; [congruence|].
  pose proof Hall as Hall'. apply Forall_cons in Hall' as [Hx _].
  pose proof (joinWith_nonempty x r Hx) as Hj.
  pose proof (endsWithSlash_joinWith _ Hne Hall) as Hend.
  pose proof (segments_joinWith _ Hne (proper_noSlash _ Hall)) as Hsegs.
  unfold absolutePath.
  set (j := joinWith "/" (x :: r)) in *.
  change ("/" ++ j) with (String "/" j).
  assert (Htr : endsWithSlash (String "/" j) = false).
  { change (String "/" j) with ("/" ++ j). by rewrite endsWithSlash_app. }
  assert (Hnorm : normalizeString (String "/" j) false = j).
  { unfold normalizeString.
    change (segments (String "/" j)) with ("" :: segments j). rewrite Hsegs.
    change (fold_left ?f ("" :: ?l) []) with (fold_left f l []).
    by rewrite (fold_normalizeStep_proper _ _ _ Hall). }
  unfold normalize.
  change (String.eqb (String "/" j) "") with false.
  change (startsWithSlash (String "/" j)) with true. cbv iota. cbn [negb].
  rewrite Htr, Hnorm. apply String.eqb_neq in Hj. by rewrite Hj.
Qed.

Lemma joinWith_app (a b : list string) :
  a <> [] -> b <> [] ->
  joinWith "/" (a ++ b) = joinWith "/" a ++ "/" ++ joinWith "/" b.
Proof.
  induction a as [|x a IH]; [congruence|]. intros _ Hb.
  destruct a as [|y a].
  - destruct b as [|z b]; [congruence|]. reflexivity.
  - change ((x :: y :: a) ++ b)%list with (x :: y :: (a ++ b))%list.
    rewrite !joinWith_cons2.
    change (y :: (a ++ b))%list with ((y :: a) ++ b)%list.
    rewrite IH by (congruence || exact Hb). by rewrite !append_assoc.
Qed.

Lemma stripLeadingDotDot_first a r : a <> "."%char -> stripLeadingDotDot (String a r) = String a r.
Proof.
  intros Ha. destruct a as [[] [] [] [] [] [] [] []]; try reflexivity. congruence.
Qed.

Lemma stripLeadingDotDot_second b r :
  b <> "."%char -> stripLeadingDotDot (String "." (String b r)) = String "." (String b r).
Proof.
  intros Hb. destruct b as [[] [] [] [] [] [] [] []]; try reflexivity. congruence.
Qed.

Lemma plainName_spec n :
  plainName n = true ->
  Fs.properName n = true /\ Fs.hasSlash n = false /\ hasBackslash n = false.
Proof.
  unfold plainName. intros H. apply andb_true_iff in H as [Hp Hb].
  apply negb_true_iff in Hb. split; [exact Hp|]. split; [|exact Hb].
  by apply properName_spec in Hp as (_ & _ & _ & Hp).
Qed.

Lemma stripLeadingSeparators_plain x t :
  plainName x = true -> stripLeadingSeparators (x ++ t) = x ++ t.
Proof.
  intros Hx. apply plainName_spec in Hx as (Hp & Hs & Hb).
  apply properName_spec in Hp as (Hne & _).
  destruct x as [|c x]; [congruence|]. simpl in Hs, Hb.
  apply orb_false_iff in Hs as [Hs _]. apply orb_false_iff in Hb as [Hb _].
  change (String c x ++ t) with (String c (x ++ t)).
  change (stripLeadingSeparators (String c ?r))
    with (if isSep c then stripLeadingSeparators r else String c r).
  unfold isSep. unfold isPathSeparator in Hs. by rewrite Hs, Hb.
Qed.

Lemma stripLeadingDotDot_plain x t :
  plainName x = true -> (t = "" \/ exists t', t = String "/" t') ->
  stripLeadingDotDot (x ++ t) = x ++ t.
Proof.
  intros Hx Ht. apply plainName_spec in Hx as (Hp & Hs & Hb).
  apply properName_spec in Hp as (Hne & Hdot & Hdotdot & _).
  destruct x as [|a x]; [congruence|].
  change (String a x ++ t) with (String a (x ++ t)).
  destruct (Ascii.eqb_spec a ".") as [->|Ha]; [|by apply stripLeadingDotDot_first].
  destruct x as [|b x]; [congruence|].
  change (String b x ++ t) with (String b (x ++ t)).
  destruct (Ascii.eqb_spec b ".") as [->|Hb']; [|by apply stripLeadingDotDot_second].
  destruct x as [|c x]; [congruence|].
  change (String c x ++ t) with (String c (x ++ t)).
  change (stripLeadingDotDot (String "." (String "." (String c ?r))))
    with (if isSep c then stripLeadingDotDot r
          else String "." (String "." (String c r))).
  simpl in Hs, Hb. apply orb_false_iff in Hs as [Hs _].
  apply orb_false_iff in Hb as [Hb _].
  unfold isSep. unfold isPathSeparator in Hs. by rewrite Hs, Hb.
Qed.

Lemma sanitizePath_plain segs :
  segs <> [] -> Forall (fun s => plainName s = true) segs ->
  sanitizePath (joinWith "/" segs) = joinWith "/" segs.
Proof.
  intros Hne Hall.
  assert (Hproper : Forall (fun s => Fs.properName s = true) segs).
  { eapply Forall_impl; [exact Hall|]. intros s Hs. by apply plainName_spec in Hs as [Hs _]. }
  unfold sanitizePath. rewrite (normalize_relative _ Hne Hproper).
  destruct segs as [|x r]; [congruence|]. apply Forall_cons in Hall as [Hx _].
  assert (Hshape : exists t, joinWith "/" (x :: r) = x ++ t /\
                             (t = "" \/ exists t', t = String "/" t')).
  { destruct r as [|y r].
    - exists "". split; [|by left]. simpl. clear. induction x as [|c x IH]; simpl; congruence.
    - eexists. split; [apply joinWith_cons2|]. right. eexists. reflexivity. }
  destruct Hshape as (t & -> & Ht).
  rewrite (stripLeadingDotDot_plain _ _ Hx Ht). by apply stripLeadingSeparators_plain.
Qed.

Lemma getFullPhotoPath_plain bsegs segs :
  bsegs <> [] -> Forall (fun s => Fs.properName s = true) bsegs ->
  segs <> [] -> Forall (fun s => plainName s = true) segs ->
  getFullPhotoPath (absolutePath bsegs) (joinWith "/" segs)
  = absolutePath bsegs ++ "/" ++ joinWith "/" segs.
Proof.
  intros Hb Hball Hs Hsall.
  assert (Hproper : Forall (fun s => Fs.properName s = true) segs).
  { eapply Forall_impl; [exact Hsall|]. intros s H. by apply plainName_spec in H as [H _]. }
  unfold getFullPhotoPath. rewrite (sanitizePath_plain _ Hs Hsall).
  assert (Hrel : joinWith "/" segs <> "").
  { destruct segs as [|x r]; [congruence|]. apply Forall_cons in Hproper as [Hx _].
    by apply joinWith_nonempty. }
  assert (Hjoined : absolutePath bsegs ++ "/" ++ joinWith "/" segs
                    = absolutePath (bsegs ++ segs)).
  { unfold absolutePath. rewrite (joinWith_app _ _ Hb Hs). by rewrite !append_assoc. }
  unfold join.
  change (List.filter ?f [?a; ?b])
    with (if f a then a :: (if f b then [b] else []) else (if f b then [b] else [])).
  cbv beta. apply String.eqb_neq in Hrel. rewrite Hrel.
  change (String.eqb (absolutePath bsegs) "") with false. cbn [negb].
  change (joinWith "/" [?a; ?b]) with (a ++ "/" ++ b).
  rewrite Hjoined. apply normalize_absolute.
  - destruct bsegs; [congruence|discriminate].
  - apply Forall_app. split; assumption.
Qed.

Lemma insideBase_child base rel : insideBase base (base ++ "/" ++ rel) = true.
Proof.
  unfold insideBase.
  assert (E : Fs.stripPrefix (base ++ "/") (base ++ "/" ++ rel) = Some rel)
    by (apply stripPrefix_spec; by rewrite append_assoc).
  rewrite E. apply orb_true_r.
Qed.

End PlainPaths.

(** ** Names inside the archive *)

Section EntryNames.

Import Path.


End EntryNames.

Section AppAssemblyFacts.

Import AppFileProcessing.

Variable base : string.
Variable tree : gmap string FileProcessing.node.




End AppAssemblyFacts.




(** X17. Requests made of ordinary names stay inside the photos base.
    When the base is an absolute path of ordinary segments and the
    requested path is a non-empty sequence of names that are neither
    empty, [.] nor [..] and hold no separator of either kind,
    [sanitizePath] leaves the request as it is, and [getFullPhotoPath]
    resolves it to the base, a separator and the request: a path inside
    the base. *)
Theorem X17_plain_requests_stay_inside_base :
  forall bsegs segs : list string,
    bsegs <> [] -> Forall (fun s => Fs.properName s = true) bsegs ->
    segs <> [] -> Forall (fun s => plainName s = true) segs ->
    let base := absolutePath bsegs in
    let request := Path.joinWith "/" segs in
    PhotosConfig.sanitizePath request = request /\
    PhotosConfig.getFullPhotoPath base request = base ++ "/" ++ request /\
    insideBase base (PhotosConfig.getFullPhotoPath base request) = true.
Proof.
  intros bsegs segs Hb Hball Hs Hsall base request.
  split; [by apply sanitizePath_plain|].
  assert (Hfull : PhotosConfig.getFullPhotoPath base request = base ++ "/" ++ request)
    by (by apply getFullPhotoPath_plain).
  split; [exact Hfull|]. rewrite Hfull. apply insideBase_child.
Qed.

Lemma X17_plain_requests_witness :
  PhotosConfig.getFullPhotoPath (absolutePath ["mnt"; "psd"])
    (Path.joinWith "/" ["00July2025"; "08070018"])
  = absolutePath ["mnt"; "psd"] ++ "/" ++ Path.joinWith "/" ["00July2025"; "08070018"].
Proof.
  refine (proj1 (proj2 (X17_plain_requests_stay_inside_base
                          ["mnt"; "psd"] ["00July2025"; "08070018"] _ _ _ _))).
  - discriminate.
  - apply (bool_decide_unpack _). vm_compute. reflexivity.
  - discriminate.
  - apply (bool_decide_unpack _). vm_compute. reflexivity.
Defined.

(** ** Image file names *)

Section ImageNames.

Import Path PhotosConfig.

Lemma lowerChar_slash c : Ascii.eqb (lowerChar c) "/" = Ascii.eqb c "/".
Proof. destruct c as [[] [] [] [] [] [] [] []]; reflexivity. Qed.

Lemma lowerChar_dot c : Ascii.eqb (lowerChar c) "." = Ascii.eqb c ".".
Proof. destruct c as [[] [] [] [] [] [] [] []]; reflexivity. Qed.

Lemma toLowerCase_hasSlash s : Fs.hasSlash (toLowerCase s) = Fs.hasSlash s.
Proof.
  induction s as [|c r IH]; [reflexivity|]. simpl.
  unfold isPathSeparator. by rewrite lowerChar_slash, IH.
Qed.

Lemma toLowerCase_lastDot s : lastDot (toLowerCase s) = lastDot s.
Proof.
  induction s as [|c r IH]; [reflexivity|]. simpl. by rewrite IH, lowerChar_dot.
Qed.

Lemma hasSlash_app s t : Fs.hasSlash (s ++ t) = Fs.hasSlash s || Fs.hasSlash t.
Proof.
  induction s as [|c r IH]; [reflexivity|]. simpl. by rewrite IH, orb_assoc.
Qed.

Lemma basename_noSlash s : s <> "" -> Fs.hasSlash s = false -> basename s = s.
Proof.
  intros Hne Hs. unfold basename. rewrite (segments_noSlash _ Hs). simpl.
  apply String.eqb_neq in Hne. by rewrite Hne.
Qed.

Lemma lastDot_app s e i :
  lastDot e = Some i -> lastDot (s ++ e) = Some (String.length s + i)%nat.
Proof.
  intros He. induction s as [|c r IH]; [exact He|]. simpl. by rewrite IH.
Qed.

Lemma dropChars_app s e : dropChars (String.length s) (s ++ e) = e.
Proof. induction s as [|c r IH]; [reflexivity|]. exact IH. Qed.

(** A name made of a stem and of a dot followed by dot-free characters
    has that last part as its extension. *)
Lemma extname_stem_ext stem e :
  stem <> "" -> Fs.hasSlash stem = false ->
  e <> "" -> Fs.hasSlash e = false -> lastDot e = None ->
  extname (stem ++ String "." e) = String "." e.
Proof.
  intros Hstem Hs He Hes Hed.
  assert (Hb : basename (stem ++ String "." e) = stem ++ String "." e).
  { apply basename_noSlash; [by apply append_nonempty_l|].
    rewrite hasSlash_app, Hs. simpl. exact Hes. }
  assert (Hdot : lastDot (String "." e) = Some 0%nat) by (simpl; by rewrite Hed).
  unfold extname. rewrite Hb, (lastDot_app stem _ _ Hdot), Nat.add_0_r.
  destruct (String.length stem) as [|n] eqn:Hlen.
  - destruct stem; [congruence|discriminate].
  - assert (Hne : String.eqb (stem ++ String "." e) ".." = false).
    { apply String.eqb_neq. intros Heq. apply (f_equal String.length) in Heq.
      rewrite length_append, Hlen in Heq. destruct e; [congruence|].
      simpl in Heq. lia. }
    rewrite Hne, <- Hlen. apply dropChars_app.
Qed.

Lemma supported_shape x :
  In x supportedImageExtensions ->
  exists x', x = String "." x' /\ x' <> "" /\ Fs.hasSlash x' = false /\ lastDot x' = None.
Proof.
  unfold supportedImageExtensions. intros H.
  repeat (destruct H as [<-|H]; [eexists; repeat split; discriminate|]).
  destruct H.
Qed.

Lemma extension_shape ext :
  In (toLowerCase ext) supportedImageExtensions ->
  exists e, ext = String "." e /\ e <> "" /\ Fs.hasSlash e = false /\ lastDot e = None.
Proof.
  intros H. apply supported_shape in H as (x' & Hx & Hne & Hs & Hd).
  destruct ext as [|c e]; [discriminate|]. simpl in Hx. injection Hx as Hc He.
  assert (c = "."%char) as ->.
  { apply Ascii.eqb_eq. rewrite <- lowerChar_dot, Hc. reflexivity. }
  exists e. split; [reflexivity|]. subst x'. split; [|split].
  - intros ->. by apply Hne.
  - by rewrite <- toLowerCase_hasSlash.
  - by rewrite <- toLowerCase_lastDot.
Qed.

Lemma isValidImageFile_ext stem ext :
  stem <> "" -> Fs.hasSlash stem = false ->
  In (toLowerCase ext) supportedImageExtensions ->
  isValidImageFile (stem ++ ext) = true /\ isValidImageFile ext = false.
Proof.
  intros Hstem Hs Hin.
  destruct (extension_shape _ Hin) as (e & -> & He & Hes & Hed). split.
  - unfold isValidImageFile. rewrite (extname_stem_ext _ _ Hstem Hs He Hes Hed).
    apply existsb_exists. exists (toLowerCase (String "." e)).
    split; [exact Hin|apply String.eqb_refl].
  - unfold isValidImageFile, extname.
    rewrite basename_noSlash by (discriminate || exact Hes).
    simpl lastDot. rewrite Hed. reflexivity.
Qed.

End ImageNames.

(** X18. The image filter looks at the extension alone and ignores its
    letter case: a file name made of a non-empty stem without separator
    and of an extension that is, once lower-cased, one of the seven
    supported ones is accepted, whereas that extension alone, a hidden
    file such as [.jpg], is not. *)
Theorem X18_image_filter_ignores_case :
  forall stem ext : string,
    stem <> "" -> Fs.hasSlash stem = false ->
    In (PhotosConfig.toLowerCase ext) PhotosConfig.supportedImageExtensions ->
    PhotosConfig.isValidImageFile (stem ++ ext) = true /\
    PhotosConfig.isValidImageFile ext = false.
Proof. exact isValidImageFile_ext. Qed.

Lemma X18_image_filter_witness :
  PhotosConfig.isValidImageFile ("IMG_0001" ++ ".JPeG") = true /\
  PhotosConfig.isValidImageFile ".JPeG" = false.
Proof.
  apply (X18_image_filter_ignores_case "IMG_0001" ".JPeG").
  - discriminate.
  - reflexivity.
  - vm_compute. right. left. reflexivity.
Defined.

(** ** The assembly log *)

Section AssemblyLog.

Import FileProcessing.

Variable base : string.
Variable tree : gmap string node.

Lemma processDirectory_logs d a :
  exists ev, logged (processDirectory base tree d a) = (logged a ++ [ev])%list /\
             recordsFor base tree d ev.
Proof.
  unfold processDirectory, recordsFor, entriesOf, getImageFiles.
  destruct (checkDirectoryExists tree _); simpl.
  - destruct (readdir tree _) as [files|]; simpl.
    + rewrite addFilesToArchive_spec. simpl. eexists. split; [reflexivity|].
      simpl. rewrite length_map. split; [reflexivity|]. by intros d' n [= <- _].
    + eexists. split; [reflexivity|]. simpl. split; [reflexivity|]. discriminate.
  - eexists. split; [reflexivity|]. simpl. split; [reflexivity|]. discriminate.
Qed.

Lemma processDirectories_logs dirs : forall a,
  exists evs, logged (processDirectories base tree dirs a) = (logged a ++ evs)%list /\
              Forall2 (recordsFor base tree) dirs evs.
Proof.
  induction dirs as [|d r IH]; intros a.
  - exists []. simpl. rewrite app_nil_r. split; [reflexivity|constructor].
  - destruct (processDirectory_logs d a) as (ev & Hev & Hrec).
    destruct (IH (processDirectory base tree d a)) as (evs & Hevs & Hrecs).
    exists (ev :: evs). split; [|by constructor].
    change (processDirectories base tree (d :: r) a)
      with (processDirectories base tree r (processDirectory base tree d a)).
    rewrite Hevs, Hev, <- app_assoc. reflexivity.
Qed.

Lemma records_sum dirs evs :
  Forall2 (recordsFor base tree) dirs evs ->
  list_sum (List.map addedCountOf evs) = List.length (flat_map (entriesOf base tree) dirs).
Proof.
  induction 1 as [|d ev dirs evs [Hn _] _ IH]; [reflexivity|].
  simpl. by rewrite length_app, Hn, IH.
Qed.

Lemma records_added dirs evs d n :
  Forall2 (recordsFor base tree) dirs evs ->
  In (DirectoryAdded d n) evs ->
  In d dirs /\ n = List.length (entriesOf base tree d).
Proof.
  induction 1 as [|d0 ev dirs evs [Hn Hd] _ IH]; [intros []|].
  intros [->|Hin].
  - rewrite (Hd d n eq_refl). split; [by left|]. exact Hn.
  - destruct (IH Hin) as [H1 H2]. split; [by right|exact H2].
Qed.

Lemma processDirectories_log dirs :
  List.length (logged (processDirectories base tree dirs emptyAssembly)) = List.length dirs /\
  list_sum (List.map addedCountOf (logged (processDirectories base tree dirs emptyAssembly)))
  = List.length (queued (processDirectories base tree dirs emptyAssembly)) /\
  (forall d n,
     In (DirectoryAdded d n) (logged (processDirectories base tree dirs emptyAssembly)) ->
     In d dirs /\ n = List.length (entriesOf base tree d)).
Proof.
  destruct (processDirectories_logs dirs emptyAssembly) as (evs & Hevs & Hrecs).
  simpl in Hevs. rewrite Hevs, processDirectories_queued. simpl.
  split; [symmetry; eapply Forall2_length; exact Hrecs|].
  split; [by apply records_sum|].
  intros d n Hin. by apply (records_added dirs evs).
Qed.

End AssemblyLog.

(** X19. The assembly log accounts for the archive: processing a list of
    directories leaves exactly one record per directory; the file counts
    the records report add up to the number of entries queued in the
    archive; and a record that reports files names a requested directory
    and counts exactly the entries queued for it. *)
Theorem X19_assembly_log_accounts_for_archive :
  forall (base : string) (tree : gmap string FileProcessing.node) (dirs : list string),
    let a := FileProcessing.processDirectories base tree dirs FileProcessing.emptyAssembly in
    List.length (FileProcessing.logged a) = List.length dirs /\
    list_sum (List.map addedCountOf (FileProcessing.logged a))
    = List.length (FileProcessing.queued a) /\
    (forall d n,
       In (FileProcessing.DirectoryAdded d n) (FileProcessing.logged a) ->
       In d dirs /\ n = List.length (entriesOf base tree d)).
Proof. exact processDirectories_log. Qed.

(** ** The download handler *)

Section DownloadOutcome.

Import Async Service.

Ltac splitRun :=
  repeat (simpl;
          match goal with
          | |- context [cacheFails ?e] => destruct (cacheFails e) eqn:?
          | |- context [match ?a with _ => _ end] => destruct a eqn:?
          end).

Lemma download_outcome directoryPaths env w :
  files (snd (run (download directoryPaths) env w)) = files w /\
  match fst (run (download directoryPaths) env w) with
  | ServeCached p =>
      Fs.exists_ (files w) p = true /\
      assemblies (snd (run (download directoryPaths) env w)) = assemblies w
  | ServeRealTime ds =>
      ds = directoryPaths /\
      assemblies (snd (run (download directoryPaths) env w))
      = (assemblies w ++ [directoryPaths])%list
  | InternalServerError => False
  end.
Proof.
  unfold download, getCachedZip, incrementStat, tryCatch, bindOk, await.
  generalize (SimpleCache.getZipPath directoryPaths) as zipPath.
  generalize (CacheKey.generateCacheKey directoryPaths) as cacheKey.
  intros cacheKey zipPath.
  splitRun.
  all: simpl; split; [reflexivity|]; try (split; [assumption || reflexivity|reflexivity]).
  all: repeat match goal with
              | H : (if ?b then None else Some _) = Some _ |- _ =>
                  destruct b; [discriminate|injection H as <-]
              end.
  all: split; [assumption|reflexivity].
Qed.

End DownloadOutcome.

(** X20. A download request whose token is valid has two outcomes only.
    Whatever the memory cache does, the handler either serves a cached
    ZIP, and then that file exists and no assembly is started, or it
    starts exactly one assembly, of the directories of the order, and
    serves its stream; it never answers with an internal error, and it
    leaves the file store as it was. *)
Theorem X20_download_serves_cache_or_assembles :
  forall (directoryPaths : list string) (env : nat -> Async.event) (w : Async.world),
    let r := Async.run (Service.download directoryPaths) env w in
    Async.files (snd r) = Async.files w /\
    match fst r with
    | Service.ServeCached p =>
        Fs.exists_ (Async.files w) p = true /\
        Async.assemblies (snd r) = Async.assemblies w
    | Service.ServeRealTime ds =>
        ds = directoryPaths /\
        Async.assemblies (snd r) = (Async.assemblies w ++ [directoryPaths])%list
    | Service.InternalServerError => False
    end.
Proof. exact download_outcome. Qed.

(** ** Orders and tokens *)

Section TokenFacts.

Import Orders Transfer Async Service.

Lemma hexDigit_notWhite n : (n < 16)%N -> isWhiteSpace (Sha256.hexDigit n) = false.
Proof.
  intros H. rewrite <- (N2Nat.id n).
  assert (Hk : (N.to_nat n < 16)%nat) by lia.
  revert Hk. generalize (N.to_nat n) as k. intros k Hk.
  do 16 (destruct k as [|k]; [reflexivity|]). lia.
Qed.

Lemma trim_nonblank c r : isWhiteSpace c = false -> trim (String c r) <> "".
Proof.
  intros Hc. unfold trim. simpl trimStart. rewrite Hc. simpl trimEnd.
  rewrite Hc, andb_false_r. discriminate.
Qed.

Lemma generateToken_shape randomBytes :
  Forall (fun b => (b < 256)%N) randomBytes ->
  String.length (generateToken randomBytes) = (2 * List.length randomBytes)%nat /\
  isHexString (generateToken randomBytes) = true.
Proof.
  unfold generateToken. induction 1 as [|b r Hb _ [IHlen IHhex]]; [split; reflexivity|].
  simpl. split; [rewrite IHlen; lia|]. rewrite IHhex, andb_true_r.
  apply andb_true_intro. split; apply hexDigit_hex.
  - rewrite N.shiftr_div_pow2. apply N.Div0.div_lt_upper_bound. exact Hb.
  - change 0xf%N with (N.ones 4). rewrite N.land_ones. apply N.mod_lt. discriminate.
Qed.

Lemma generateToken_nonblank randomBytes :
  randomBytes <> [] -> Forall (fun b => (b < 256)%N) randomBytes ->
  String.eqb (trim (generateToken randomBytes)) "" = false.
Proof.
  intros Hne Hall. destruct randomBytes as [|b r]; [congruence|].
  apply Forall_cons in Hall as [Hb _]. unfold generateToken. simpl.
  apply String.eqb_neq, trim_nonblank, hexDigit_notWhite.
  rewrite N.shiftr_div_pow2. apply N.Div0.div_lt_upper_bound. exact Hb.
Qed.

Lemma findByToken_new db o :
  findByToken db (downloadToken o) = None ->
  findByToken (db ++ [o])%list (downloadToken o) = Some o.
Proof.
  unfold findByToken. induction db as [|x db IH]; simpl.
  - by rewrite String.eqb_refl.
  - destruct (String.eqb (downloadToken x) (downloadToken o)); [discriminate|exact IH].
Qed.

Lemma findByToken_old db o token :
  downloadToken o <> token ->
  findByToken (db ++ [o])%list token = findByToken db token.
Proof.
  intros Hne. unfold findByToken. induction db as [|x db IH]; simpl.
  - apply String.eqb_neq in Hne. by rewrite Hne.
  - destruct (String.eqb (downloadToken x) token); [reflexivity|exact IH].
Qed.

Lemma associate_then_validate randomBytes now customer d ds db :
  randomBytes <> [] -> Forall (fun b => (b < 256)%N) randomBytes ->
  findByToken db (generateToken randomBytes) = None ->
  let order := {| customerEmail := customer; directoryPaths := d :: ds;
                  downloadToken := generateToken randomBytes;
                  tokenExpiry := now + 259200000 |} in
  associate randomBytes now false
            {| email := customer; dtoDirectoryPaths := Some (d :: ds) |} db
  = (inr (generateToken randomBytes), (db ++ [order])%list) /\
  (forall t,
     validateToken t false (db ++ [order])%list (Some (generateToken randomBytes))
     = if (now + 259200000 <? t)%Z
       then Rejected (NotFoundException "Download token has expired")
       else Valid order) /\
  (forall t token,
     token <> generateToken randomBytes ->
     validateToken t false (db ++ [order])%list (Some token)
     = validateToken t false db (Some token)).
Proof.
  intros Hne Hall Hfresh order. split; [reflexivity|]. split.
  - intros t. unfold validateToken.
    rewrite (generateToken_nonblank _ Hne Hall).
    change (generateToken randomBytes) with (downloadToken order) at 1.
    rewrite (findByToken_new db order Hfresh). reflexivity.
  - intros t token Htoken. unfold validateToken.
    destruct (String.eqb (trim token) ""); [reflexivity|].
    rewrite findByToken_old by (simpl; congruence). reflexivity.
Qed.

Lemma run_bind_ret {A B : Type} (m : prog A) (f : A -> B) : forall env w,
  run (bind m (fun a => Ret (f a))) env w = (f (fst (run m env w)), snd (run m env w)).
Proof.
  induction m as [a|T o k IH]; intros env w; [reflexivity|].
  simpl. destruct (perform (env 0%nat) w o) as [w1 a]. apply IH.
Qed.

Lemma downloadRequest_valid now db token order env w :
  validateToken now false db (Some token) = Valid order ->
  run (downloadRequest now false db (Some token)) env w
  = (inr (fst (run (download (directoryPaths order)) env w)),
     snd (run (download (directoryPaths order)) env w)).
Proof.
  intros Hv. unfold downloadRequest. rewrite Hv. apply (run_bind_ret _ inr).
Qed.

Lemma downloadRequest_rejects now dbFails db token env w :
  (forall order, validateToken now dbFails db token <> Valid order) ->
  snd (run (downloadRequest now dbFails db token) env w) = w /\
  exists e, fst (run (downloadRequest now dbFails db token) env w) = inl e.
Proof.
  intros Hv. unfold downloadRequest.
  destruct (validateToken now dbFails db token) as [order|e|]; simpl.
  - by destruct (Hv order).
  - split; [reflexivity|]. by exists e.
  - split; [reflexivity|]. by eexists.
Qed.

End TokenFacts.

(** X21. A token is good for 72 hours and for its own order only.  When
    [associate] is given at least one directory, draws a token that no
    stored order carries and the database accepts the order, it answers
    with the token and stores one order expiring 72 hours later; from
    then on [validateToken] accepts that token up to and including the
    instant of expiry, returning this order, and rejects it as expired
    afterwards, and the check of every other token is as before. *)
Theorem X21_token_is_valid_for_72_hours :
  forall (randomBytes : list N) (now : Z) (customer d : string) (ds : list string)
         (db : Orders.store),
    randomBytes <> [] -> Forall (fun b => (b < 256)%N) randomBytes ->
    Orders.findByToken db (Orders.generateToken randomBytes) = None ->
    let order := {| Orders.customerEmail := customer; Orders.directoryPaths := d :: ds;
                    Orders.downloadToken := Orders.generateToken randomBytes;
                    Orders.tokenExpiry := now + 259200000 |} in
    Transfer.associate randomBytes now false
      {| Transfer.email := customer; Transfer.dtoDirectoryPaths := Some (d :: ds) |} db
    = (inr (Orders.generateToken randomBytes), (db ++ [order])%list) /\
    (forall t,
       Transfer.validateToken t false (db ++ [order])%list
         (Some (Orders.generateToken randomBytes))
       = if (now + 259200000 <? t)%Z
         then Transfer.Rejected (Transfer.NotFoundException "Download token has expired")
         else Transfer.Valid order) /\
    (forall t token,
       token <> Orders.generateToken randomBytes ->
       Transfer.validateToken t false (db ++ [order])%list (Some token)
       = Transfer.validateToken t false db (Some token)).
Proof. exact associate_then_validate. Qed.

Lemma X21_token_witness :
  Transfer.validateToken 259200000 false
    [ {| Orders.customerEmail := "ann@example.org"; Orders.directoryPaths := ["events/gala"];
         Orders.downloadToken := Orders.generateToken [0x2a; 0xff]%N;
         Orders.tokenExpiry := 0 + 259200000 |} ]
    (Some (Orders.generateToken [0x2a; 0xff]%N))
  = Transfer.Valid
      {| Orders.customerEmail := "ann@example.org"; Orders.directoryPaths := ["events/gala"];
         Orders.downloadToken := Orders.generateToken [0x2a; 0xff]%N;
         Orders.tokenExpiry := 0 + 259200000 |}.
Proof.
  refine (proj1 (proj2 (X21_token_is_valid_for_72_hours
                          [0x2a; 0xff]%N 0%Z "ann@example.org" "events/gala" [] [] _ _ _))
                259200000%Z).
  - discriminate.
  - apply (bool_decide_unpack _). vm_compute. reflexivity.
  - reflexivity.
Defined.

(** X22. The token drawn by [generateToken] is two lower-case
    hexadecimal digits per random byte, so a token of at least one byte
    is never taken for a missing one by the blank check of
    [validateToken]. *)
Theorem X22_generated_token_is_hex :
  forall randomBytes : list N,
    randomBytes <> [] -> Forall (fun b => (b < 256)%N) randomBytes ->
    String.length (Orders.generateToken randomBytes) = (2 * List.length randomBytes)%nat /\
    isHexString (Orders.generateToken randomBytes) = true /\
    Transfer.trim (Orders.generateToken randomBytes) <> "".
Proof.
  intros randomBytes Hne Hall.
  destruct (generateToken_shape randomBytes Hall) as [Hlen Hhex].
  split; [exact Hlen|]. split; [exact Hhex|].
  apply String.eqb_neq. by apply generateToken_nonblank.
Qed.

Lemma X22_generated_token_witness :
  String.length (Orders.generateToken [0x2a; 0xff]%N) = 4%nat /\
  isHexString (Orders.generateToken [0x2a; 0xff]%N) = true /\
  Transfer.trim (Orders.generateToken [0x2a; 0xff]%N) <> "".
Proof.
  apply (X22_generated_token_is_hex [0x2a; 0xff]%N).
  - discriminate.
  - apply (bool_decide_unpack _). vm_compute. reflexivity.
Defined.

(** X23. A download request end to end.  With a token that
    [validateToken] accepts, the request is answered as the order's
    download is: it serves an existing cached ZIP or starts one assembly
    of the order's directories, never an error.  With any other token,
    or when the database fails, the request is answered with an error
    and touches nothing: no file, no cache entry, no counter, no
    assembly. *)
Theorem X23_download_request_end_to_end :
  forall (now : Z) (dbFails : bool) (db : Orders.store) (token : option string)
         (env : nat -> Async.event) (w : Async.world),
    let r := Async.run (Transfer.downloadRequest now dbFails db token) env w in
    (forall order,
       Transfer.validateToken now dbFails db token = Transfer.Valid order ->
       Async.files (snd r) = Async.files w /\
       ((exists p, fst r = inr (Service.ServeCached p) /\
                   Fs.exists_ (Async.files w) p = true /\
                   Async.assemblies (snd r) = Async.assemblies w) \/
        (fst r = inr (Service.ServeRealTime (Orders.directoryPaths order)) /\
         Async.assemblies (snd r)
         = (Async.assemblies w ++ [Orders.directoryPaths order])%list))) /\
    ((forall order, Transfer.validateToken now dbFails db token <> Transfer.Valid order) ->
     snd r = w /\ exists e, fst r = inl e).
Proof.
  intros now dbFails db token env w r. split.
  - intros order Hv. unfold r, Transfer.downloadRequest. rewrite Hv.
    rewrite (run_bind_ret _ inr).
    destruct (download_outcome (Orders.directoryPaths order) env w) as [Hfiles Hout].
    destruct (Async.run (Service.download (Orders.directoryPaths order)) env w)
      as [out w1].
    cbn [fst snd] in *. split; [exact Hfiles|].
    destruct out as [p|dirs|]; [left|right|destruct Hout].
    + exists p. destruct Hout as [Hex Hasm]. split; [reflexivity|]. split; assumption.
    + destruct Hout as [-> Hasm]. split; [reflexivity|assumption].
  - apply downloadRequest_rejects.
Qed.

Lemma X23_download_request_witness :
  snd (Async.run (Transfer.downloadRequest 0 false [] (Some "   "))
         (fun _ => Async.calm) staleWorld) = staleWorld /\
  exists e,
    fst (Async.run (Transfer.downloadRequest 0 false [] (Some "   "))
           (fun _ => Async.calm) staleWorld) = inl e.
Proof.
  apply (X23_download_request_end_to_end 0 false [] (Some "   ")
           (fun _ => Async.calm) staleWorld).
  intros order. vm_compute. discriminate.
Defined.

(** ** Archives larger than the limit *)

Section Oversized.

Import SimpleCache.

Lemma totalBytes_member (l : list (string * Fs.file)) e :
  (forall x, In x l -> (0 <= Fs.size (snd x))%Z) ->
  In e l -> (Fs.size (snd e) <= totalBytes l)%Z.
Proof.
  induction l as [|x l IH]; intros Hpos Hin; [destruct Hin|].
  assert (Hrest : (0 <= totalBytes l)%Z).
  { clear IH Hin. induction l as [|y l IHl]; simpl; [lia|].
    assert (0 <= Fs.size (snd y))%Z by (apply Hpos; right; by left).
    assert (0 <= totalBytes l)%Z; [|lia].
    apply IHl. intros z [->|Hz]; apply Hpos; [by left|right; by right]. }
  simpl. destruct Hin as [->|Hin].
  - lia.
  - assert (0 <= Fs.size (snd x))%Z by (apply Hpos; by left).
    assert (Fs.size (snd e) <= totalBytes l)%Z; [|lia].
    apply IH; [|exact Hin]. intros z Hz. apply Hpos. by right.
Qed.

Lemma enforceMaxCacheSize_oversized d e :
  NoDup (List.map fst d) -> sizesNonNegative d ->
  isArtifact e = true -> (5242885242 < Fs.size (snd e))%Z ->
  ~ In e (snd (enforceMaxCacheSize d)).
Proof.
  intros Hnd Hpos Ha Hbig Hin.
  pose proof (enforceMaxCacheSize_within d Hnd) as Hwithin.
  apply withinLimit_bytes in Hwithin.
  assert (Hle : (Fs.size (snd e) <= totalBytes (zipOnly (snd (enforceMaxCacheSize d))))%Z).
  { apply totalBytes_member.
    - intros x Hx. apply filter_In in Hx as [Hx _].
      apply Hpos. by apply enforceMaxCacheSize_kept.
    - apply filter_In. auto. }
  lia.
Qed.

End Oversized.

(** X24. No artifact larger than the limit survives size enforcement: on
    a store without duplicate paths and without negative sizes, an
    artifact of more than 5242885242 bytes (5000 MB after rounding) is
    not among the files that [enforceMaxCacheSize] leaves, however
    recent it is. *)
Theorem X24_oversized_artifact_is_evicted :
  forall (d : Fs.t) (e : string * Fs.file),
    NoDup (List.map fst d) -> sizesNonNegative d ->
    isArtifact e = true -> (5242885242 < Fs.size (snd e))%Z ->
    ~ In e (snd (SimpleCache.enforceMaxCacheSize d)).
Proof. exact enforceMaxCacheSize_oversized. Qed.

Lemma X24_oversized_witness :
  ~ In ("/tmp/photo-cache/aaaaaaaaaaaaaaaa.zip", fileOf 5242885243 0)
       (snd (SimpleCache.enforceMaxCacheSize
               [ ("/tmp/photo-cache/aaaaaaaaaaaaaaaa.zip", fileOf 5242885243 0) ])).
Proof.
  apply (X24_oversized_artifact_is_evicted
           [ ("/tmp/photo-cache/aaaaaaaaaaaaaaaa.zip", fileOf 5242885243 0) ]).
  - apply (bool_decide_unpack _). vm_compute. reflexivity.
  - intros e [<-|[]]. vm_compute. discriminate.
  - vm_compute. reflexivity.
  - vm_compute. reflexivity.
Defined.

(** ** The pre-generation task *)

Section PreGenerationFacts.

Import Orders Async Service SimpleCache PreGeneration.

Lemma generateZipFile_nodup stream directoryPaths outputPath env w :
  (forall i, streamFails (env i) = false) ->
  NoDup (List.map fst (files w)) ->
  NoDup (List.map fst (files (snd (run (generateZipFile (Finalized stream)
                                          directoryPaths outputPath) env w)))).
Proof.
  intros Henv Hnd. pose proof (tempPath_fresh outputPath) as Hfresh.
  unfold generateZipFile, onFinish, bindOk, await.
  generalize (CacheKey.generateCacheKey directoryPaths) as cacheKey.
  revert Hfresh. generalize (outputPath ++ ".tmp") as tempPath.
  intros tempPath Hfresh cacheKey.
  cbn [run perform].
  set (w0 := setFiles w (Fs.openWrite (files w) tempPath (evNow (env 0%nat)))).
  match goal with
  | |- context [run (pipeChunks tempPath stream ?rest) ?env1 w0] =>
      destruct (run_pipeChunks stream tempPath rest env1 w0
                  {| Fs.content := []; Fs.mtime := evNow (env 0%nat) |})
        as (w1 & Hrun & Hcont & Hcached & Hkeys & Hother);
        [intros i; apply Henv | apply stat_openWrite_eq | rewrite Hrun; clear Hrun]
  end.
  assert (Hnd1 : NoDup (List.map fst (files w1))).
  { rewrite Hkeys. subst w0. simpl. by apply NoDup_openWrite. }
  unfold contentAt in Hcont.
  destruct (Fs.stat (files w1) tempPath) as [f|] eqn:Hst; [|discriminate].
  destruct (rename_moves _ _ outputPath f (not_eq_sym Hfresh) Hst)
    as (d1 & Hren & _).
  pose proof (NoDup_rename _ _ _ _ Hren Hnd1) as Hnd2.
  simpl. rewrite Hren. simpl.
  by destruct (cacheFails _).
Qed.

Lemma size_streamBytes f : Fs.size f = streamBytes (Fs.content f).
Proof. reflexivity. Qed.

(** What a generation that goes through leaves in the store. *)
Lemma generated_store stream directoryPaths outputPath env w :
  quiet env ->
  NoDup (List.map fst (files w)) -> sizesNonNegative (files w) ->
  (0 <= streamBytes stream)%Z ->
  let r := run (generateZipFile (Finalized stream) directoryPaths outputPath) env w in
  fst r = Ok tt /\
  cachedPaths (snd r) = <[CacheKey.generateCacheKey directoryPaths := outputPath]> (cachedPaths w) /\
  NoDup (List.map fst (files (snd r))) /\
  sizesNonNegative (files (snd r)) /\
  (forall f, Fs.stat (files (snd r)) outputPath = Some f -> Fs.content f = stream) /\
  contentAt (files (snd r)) outputPath = Some stream.
Proof.
  intros Hquiet Hnd Hpos Hstream r.
  assert (Hs : forall i, streamFails (env i) = false) by (intros i; apply Hquiet).
  assert (Hc : cacheAnswers env) by (intros i; apply Hquiet).
  destruct (generateZipFile_finalized stream directoryPaths outputPath env w Hs)
    as (Hcont & Htmp & Hother & Hset).
  destruct (Hset Hc) as [Hok Hcached].
  pose proof (generateZipFile_nodup stream directoryPaths outputPath env w Hs Hnd) as Hnd1.
  fold r in Hcont, Htmp, Hother, Hok, Hcached, Hnd1.
  assert (Hout : forall f, Fs.stat (files (snd r)) outputPath = Some f -> Fs.content f = stream).
  { intros f Hf. unfold contentAt in Hcont. rewrite Hf in Hcont. by injection Hcont. }
  repeat split; try assumption.
  intros e He. pose proof (stat_in_nodup _ _ Hnd1 He) as Hst.
  destruct (String.eqb_spec (fst e) outputPath) as [Heq|Hne1].
  - rewrite Heq in Hst. rewrite size_streamBytes, (Hout _ Hst). exact Hstream.
  - destruct (String.eqb_spec (fst e) (outputPath ++ ".tmp")) as [Heq|Hne2].
    + unfold contentAt in Htmp. rewrite Heq in Hst. rewrite Hst in Htmp. discriminate.
    + rewrite (Hother _ Hne1 Hne2) in Hst. apply in_stat in Hst.
      apply (Hpos _ Hst).
Qed.

Lemma stat_kept d p f :
  NoDup (List.map fst d) ->
  Fs.stat (snd (enforceMaxCacheSize d)) p = Some f -> Fs.stat d p = Some f.
Proof.
  intros Hnd Hst. apply in_stat in Hst.
  apply (stat_in_nodup d (p, f) Hnd). by apply enforceMaxCacheSize_kept.
Qed.

Lemma preGenerateStep_outcome archiverFor envFor t w order stream :
  archiverFor order = Finalized stream -> quiet (envFor order) ->
  NoDup (List.map fst (files w)) -> sizesNonNegative (files w) ->
  (0 <= streamBytes stream)%Z ->
  Fs.exists_ (files w) (getZipPath (directoryPaths order)) = false ->
  let st := preGenerateStep archiverFor envFor (t, w) order in
  processedCount (fst st) = S (processedCount t) /\
  cachedPaths (snd st) !! CacheKey.generateCacheKey (directoryPaths order)
  = Some (getZipPath (directoryPaths order)) /\
  (contentAt (files (snd st)) (getZipPath (directoryPaths order)) = Some stream \/
   contentAt (files (snd st)) (getZipPath (directoryPaths order)) = None) /\
  ((5242885242 < streamBytes stream)%Z ->
   Fs.exists_ (files (snd st)) (getZipPath (directoryPaths order)) = false /\
   forall env, cacheAnswers env ->
     fst (run (getCachedZip (directoryPaths order)) env (snd st)) = None /\
     cachedPaths (snd (run (getCachedZip (directoryPaths order)) env (snd st)))
       !! CacheKey.generateCacheKey (directoryPaths order) = None).
Proof.
  intros Harch Hquiet Hnd Hpos Hstream Habsent.
  unfold preGenerateStep. rewrite Habsent, Harch.
  destruct (generated_store stream (directoryPaths order) (getZipPath (directoryPaths order))
              (envFor order) w Hquiet Hnd Hpos Hstream)
    as (Hok & Hcached & Hnd1 & Hpos1 & Hout & _).
  destruct (run _ (envFor order) w) as [r w1]. simpl in Hok, Hcached, Hnd1, Hpos1, Hout.
  subst r.
  pose proof (fun f => stat_kept (files w1) (getZipPath (directoryPaths order)) f Hnd1)
    as Hkept.
  pose proof (enforceMaxCacheSize_oversized (files w1)) as Hbig.
  destruct (enforceMaxCacheSize (files w1)) as [deleted d]. simpl in Hkept, Hbig.
  cbn [fst snd processedCount].
  change (files (setFiles w1 d)) with d.
  change (cachedPaths (setFiles w1 d)) with (cachedPaths w1).
  assert (Hentry : cachedPaths w1 !! CacheKey.generateCacheKey (directoryPaths order)
                   = Some (getZipPath (directoryPaths order)))
    by (rewrite Hcached; apply lookup_insert_eq).
  split; [reflexivity|]. split; [exact Hentry|]. split.
  - unfold contentAt.
    destruct (Fs.stat d (getZipPath (directoryPaths order))) as [f|] eqn:Hst; [|by right].
    left. f_equal. apply Hout, Hkept. reflexivity.
  - intros Hover.
    assert (Hgone : Fs.exists_ d (getZipPath (directoryPaths order)) = false).
    { apply not_true_is_false. intros Hex. apply exists_stat in Hex.
      destruct (Fs.stat d (getZipPath (directoryPaths order))) as [f|] eqn:Hst;
        [|congruence].
      apply (Hbig (getZipPath (directoryPaths order), f) Hnd1 Hpos1).
      - pose proof (zipName_artifact _ f (getZipPath_listed (directoryPaths order))) as Ha.
        fold (getZipPath (directoryPaths order)) in Ha.
        unfold isArtifact. by rewrite Ha.
      - simpl. rewrite size_streamBytes, (Hout _ (Hkept f eq_refl)). exact Hover.
      - by apply in_stat. }
    split; [exact Hgone|]. intros env Henv.
    apply (getCachedZip_stale (directoryPaths order) env (setFiles w1 d));
      [exact Hentry|exact Hgone|exact Henv].
Qed.

(** An order whose ZIP is on disk is skipped and nothing changes. *)
Lemma preGenerateStep_skip archiverFor envFor t w order :
  Fs.exists_ (files w) (getZipPath (directoryPaths order)) = true ->
  preGenerateStep archiverFor envFor (t, w) order
  = ({| processedCount := processedCount t; skippedCount := S (skippedCount t) |}, w).
Proof. intros H. unfold preGenerateStep. by rewrite H. Qed.

Lemma preGenerateZips_idle archiverFor envFor recentOrders : forall t w,
  (forall order, In order recentOrders ->
     Fs.exists_ (files w) (getZipPath (directoryPaths order)) = true) ->
  fold_left (preGenerateStep archiverFor envFor) recentOrders (t, w)
  = ({| processedCount := processedCount t;
        skippedCount := skippedCount t + List.length recentOrders |}, w).
Proof.
  induction recentOrders as [|order r IH]; intros t w Hall.
  - simpl. rewrite Nat.add_0_r. by destruct t.
  - change (fold_left ?f (order :: r) ?a) with (fold_left f r (f a order)).
    rewrite preGenerateStep_skip by (apply Hall; by left).
    rewrite IH by (intros o Ho; apply Hall; by right).
    simpl. do 2 f_equal. lia.
Qed.

End PreGenerationFacts.

(** X25. What one pre-generation leaves.  Let the task, running alone on
    a store without duplicate paths or negative sizes, reach an order
    that has no ZIP, let the archiver finalize and no call fail.  The
    order is counted as processed and the memory cache names its ZIP
    path; the ZIP is then either on disk with the whole archive or not
    on disk at all.  When the archive is larger than the limit (more
    than 5242885242 bytes) it is the second: size enforcement has removed
    the ZIP just generated, the memory cache names a file that does not
    exist, and the next lookup misses and deletes the entry. *)
Theorem X25_pregeneration_of_one_order :
  forall (archiverFor : Orders.Order -> Service.archiverRun)
         (envFor : Orders.Order -> nat -> Async.event)
         (t : PreGeneration.tally) (w : Async.world) (order : Orders.Order)
         (stream : list Fs.chunk),
    archiverFor order = Service.Finalized stream -> quiet (envFor order) ->
    NoDup (List.map fst (Async.files w)) -> sizesNonNegative (Async.files w) ->
    (0 <= streamBytes stream)%Z ->
    Fs.exists_ (Async.files w) (SimpleCache.getZipPath (Orders.directoryPaths order)) = false ->
    let zipPath := SimpleCache.getZipPath (Orders.directoryPaths order) in
    let key := CacheKey.generateCacheKey (Orders.directoryPaths order) in
    let st := PreGeneration.preGenerateStep archiverFor envFor (t, w) order in
    PreGeneration.processedCount (fst st) = S (PreGeneration.processedCount t) /\
    Async.cachedPaths (snd st) !! key = Some zipPath /\
    (contentAt (Async.files (snd st)) zipPath = Some stream \/
     contentAt (Async.files (snd st)) zipPath = None) /\
    ((5242885242 < streamBytes stream)%Z ->
     Fs.exists_ (Async.files (snd st)) zipPath = false /\
     forall env, cacheAnswers env ->
       fst (Async.run (Service.getCachedZip (Orders.directoryPaths order)) env (snd st)) = None /\
       Async.cachedPaths
         (snd (Async.run (Service.getCachedZip (Orders.directoryPaths order)) env (snd st)))
       !! key = None).
Proof. exact preGenerateStep_outcome. Qed.

Lemma X25_pregeneration_witness :
  PreGeneration.processedCount
    (fst (PreGeneration.preGenerateStep
            (fun _ => Service.Finalized exampleStream) (fun _ _ => Async.calm)
            ({| PreGeneration.processedCount := 0; PreGeneration.skippedCount := 0 |},
             staleWorld)
            {| Orders.customerEmail := "ann@example.org";
               Orders.directoryPaths := ["events/gala"];
               Orders.downloadToken := "2aff"; Orders.tokenExpiry := 0 |}))
  = 1%nat.
Proof.
  refine (proj1 (X25_pregeneration_of_one_order
                   (fun _ => Service.Finalized exampleStream) (fun _ _ => Async.calm)
                   {| PreGeneration.processedCount := 0; PreGeneration.skippedCount := 0 |}
                   staleWorld
                   {| Orders.customerEmail := "ann@example.org";
                      Orders.directoryPaths := ["events/gala"];
                      Orders.downloadToken := "2aff"; Orders.tokenExpiry := 0 |}
                   exampleStream _ _ _ _ _ _)).
  - reflexivity.
  - intros i. split; reflexivity.
  - apply (bool_decide_unpack _). vm_compute. reflexivity.
  - intros e He. vm_compute in He.
    repeat (destruct He as [<-|He]; [vm_compute; discriminate|]). destruct He.
  - vm_compute. discriminate.
  - vm_compute. reflexivity.
Defined.

(** X26. The pre-generation task is idle once every recent order has its
    ZIP: it skips them all, generates nothing and leaves files, memory
    cache and counters as they were. *)
Theorem X26_pregeneration_skips_existing_zips :
  forall (archiverFor : Orders.Order -> Service.archiverRun)
         (envFor : Orders.Order -> nat -> Async.event)
         (recentOrders : list Orders.Order) (w : Async.world),
    (forall order, In order recentOrders ->
       Fs.exists_ (Async.files w) (SimpleCache.getZipPath (Orders.directoryPaths order))
       = true) ->
    PreGeneration.preGenerateZips archiverFor envFor recentOrders w
    = ({| PreGeneration.processedCount := 0;
          PreGeneration.skippedCount := List.length recentOrders |}, w).
Proof.
  intros archiverFor envFor recentOrders w Hall.
  unfold PreGeneration.preGenerateZips.
  by rewrite (preGenerateZips_idle archiverFor envFor recentOrders _ w Hall).
Qed.

Lemma X26_pregeneration_skips_witness :
  PreGeneration.preGenerateZips
    (fun _ => Service.Finalized exampleStream) (fun _ _ => Async.calm)
    [ {| Orders.customerEmail := "ann@example.org";
         Orders.directoryPaths := ["events/gala"];
         Orders.downloadToken := "2aff"; Orders.tokenExpiry := 0 |} ]
    galaOnDisk
  = ({| PreGeneration.processedCount := 0; PreGeneration.skippedCount := 1 |}, galaOnDisk).
Proof.
  apply (X26_pregeneration_skips_existing_zips
           (fun _ => Service.Finalized exampleStream) (fun _ _ => Async.calm)
           [ {| Orders.customerEmail := "ann@example.org";
                Orders.directoryPaths := ["events/gala"];
                Orders.downloadToken := "2aff"; Orders.tokenExpiry := 0 |} ]
           galaOnDisk).
  intros order [<-|[]]. vm_compute. reflexivity.
Defined.

(** ** Counters under interleaving *)

Section CounterRace.

Import Async Service.

Lemma lockstep_hits directoryPaths w :
  cachedPaths w !! CacheKey.generateCacheKey directoryPaths
    = Some (SimpleCache.getZipPath directoryPaths) ->
  Fs.exists_ (files w) (SimpleCache.getZipPath directoryPaths) = true ->
  snd (execPool alternating w
         [Lookup (getCachedZip directoryPaths); Lookup (getCachedZip directoryPaths)])
  = [Lookup (Ret (Some (SimpleCache.getZipPath directoryPaths)));
     Lookup (Ret (Some (SimpleCache.getZipPath directoryPaths)))] /\
  hitsOf (fst (execPool alternating w
                 [Lookup (getCachedZip directoryPaths);
                  Lookup (getCachedZip directoryPaths)]))
  = (hitsOf w + 1)%Z.
Proof.
  intros Hcached Hex.
  pose proof (truthy_zipPath directoryPaths) as Htruthy.
  unfold getCachedZip, incrementStat, tryCatch, bindOk, await.
  revert Hcached Hex Htruthy.
  generalize (SimpleCache.getZipPath directoryPaths) as zipPath.
  generalize (CacheKey.generateCacheKey directoryPaths) as cacheKey.
  intros cacheKey zipPath Hcached Hex Htruthy.
  unfold execPool, alternating. cbn [flat_map seq app fold_left].
  repeat (unfold stepPool at 1; cbn -[truthy]; rewrite ?Hcached, ?Htruthy, ?Hex).
  split; [reflexivity|].
  unfold hitsOf. cbn. rewrite lookup_insert_eq. reflexivity.
Qed.

End CounterRace.

(** X27. The hit counter is not updated atomically.  Two lookups of a
    key that the memory cache holds and whose ZIP is on disk, run in
    lock step with no failure at all, both return the ZIP path, yet the
    hit counter rises by one, not two: each reads the counter before the
    other has written it.  (Run one after the other, each lookup counts
    once.) *)
Theorem X27_concurrent_hits_lose_an_update :
  forall (directoryPaths : list string) (w : Async.world),
    Async.cachedPaths w !! CacheKey.generateCacheKey directoryPaths
      = Some (SimpleCache.getZipPath directoryPaths) ->
    Fs.exists_ (Async.files w) (SimpleCache.getZipPath directoryPaths) = true ->
    let st := Service.execPool alternating w
                [Service.Lookup (Service.getCachedZip directoryPaths);
                 Service.Lookup (Service.getCachedZip directoryPaths)] in
    snd st = [Service.Lookup (Async.Ret (Some (SimpleCache.getZipPath directoryPaths)));
              Service.Lookup (Async.Ret (Some (SimpleCache.getZipPath directoryPaths)))] /\
    hitsOf (fst st) = (hitsOf w + 1)%Z.
Proof. exact lockstep_hits. Qed.

Lemma X27_concurrent_hits_witness :
  hitsOf (fst (Service.execPool alternating galaCached
                 [Service.Lookup (Service.getCachedZip ["events/gala"]);
                  Service.Lookup (Service.getCachedZip ["events/gala"])]))
  = (hitsOf galaCached + 1)%Z.
Proof.
  refine (proj2 (X27_concurrent_hits_lose_an_update ["events/gala"] galaCached _ _)).
  - vm_compute. reflexivity.
  - vm_compute. reflexivity.
Defined.
